(** * Classical code of the Classiq example notebooks

    The notebooks of this repository drive a remote quantum-computing
    platform (the [classiq] package).  What they compute themselves is
    classical Python: a 16 x 16 matrix in the Shor notebook, the
    heavy-output statistic and the quantum-volume scan in the quantum
    volume notebook, a predicate in the Grover notebook.  This file embeds
    that code and the order in which each notebook calls the platform. *)

From Stdlib Require Import String ZArith List Bool Lia.
From Stdlib Require Import QArith Qabs Qround Qpower Qreduction.
From Stdlib Require Import Permutation Lqa.
Import ListNotations.

Local Open Scope Z_scope.

(** ** numpy arrays of the Shor notebook *)

Module Shor.

(** [swap] is declared with [dtype=complex]; every product with it is
    complex.  All entries that occur are integers, so a complex number is
    kept as its integer real and imaginary parts. *)
Definition C : Type := (Z * Z)%type.

Definition Cre (c : C) : Z := fst c.
Definition Cim (c : C) : Z := snd c.
Definition C0 : C := (0, 0).
Definition C1 : C := (1, 0).
Definition Cadd (a b : C) : C := (Cre a + Cre b, Cim a + Cim b).
Definition Cmul (a b : C) : C :=
  (Cre a * Cre b - Cim a * Cim b, Cre a * Cim b + Cim a * Cre b).

Definition vector := list C.
Definition matrix := list (list C).

(** A real literal array, as numpy promotes it in a complex product. *)
Definition of_real (m : list (list Z)) : matrix :=
  map (map (fun x => (x, 0))) m.

(** [np.identity(n)] *)
Definition identity (n : nat) : matrix :=
  map (fun i => map (fun j => if Nat.eqb i j then C1 else C0) (seq 0 n))
      (seq 0 n).

(** [np.kron(a, b)]: the block matrix whose block (i, j) is [a[i][j] * b]. *)
Definition kron (a b : matrix) : matrix :=
  flat_map (fun ra =>
    map (fun rb => flat_map (fun x => map (Cmul x) rb) ra) b) a.

Definition dot (u v : vector) : C :=
  fold_left Cadd (map (fun p => Cmul (fst p) (snd p)) (combine u v)) C0.

Definition ncols (m : matrix) : nat :=
  match m with [] => O | r :: _ => length r end.

Definition column (m : matrix) (j : nat) : vector :=
  map (fun r => nth j r C0) m.

Definition transpose (m : matrix) : matrix :=
  map (column m) (seq 0 (ncols m)).

(** [a @ b] *)
Definition matmul (a b : matrix) : matrix :=
  map (fun ra => map (dot ra) (transpose b)) a.

Definition matvec (a : matrix) (v : vector) : vector :=
  map (fun ra => dot ra v) a.

Declare Scope mat_scope.
Delimit Scope mat_scope with mat.
Infix "@" := matmul (at level 40, left associativity) : mat_scope.

Definition swap : matrix :=
  of_real [ [1; 0; 0; 0];
            [0; 0; 1; 0];
            [0; 1; 0; 0];
            [0; 0; 0; 1] ].

Definition get_modular_multiplication_matrix : matrix :=
  let swap32 := kron (identity 4) swap in
  let swap21 := kron (kron (identity 2) swap) (identity 2) in
  let swap10 := kron swap (identity 4) in
  let x := of_real [ [0; 1]; [1; 0] ] in
  let x_all := kron (kron x x) (kron x x) in
  let u := (x_all @ swap10 @ swap21 @ swap32)%mat in
  u.

(** [.real.tolist()] *)
Definition real_tolist (m : matrix) : list (list Z) := map (map Cre) m.

Definition MODULAR_MUL_UNITARY : list (list Z) :=
  real_tolist get_modular_multiplication_matrix.

(** The computational basis state [|x>] of a register of dimension [n]. *)
Definition basis (n : nat) (x : Z) : vector :=
  map (fun i => if Z.eqb (Z.of_nat i) x then C1 else C0) (seq 0 n).

Definition count_ones (v : vector) : nat :=
  length (filter (fun c => Z.eqb (Cre c) 1 && Z.eqb (Cim c) 0) v).

Definition is_bit (c : C) : bool :=
  Z.eqb (Cim c) 0 && (Z.eqb (Cre c) 0 || Z.eqb (Cre c) 1).

(** A square 0/1 matrix with exactly one 1 in each row and each column. *)
Definition is_permutation_matrix (n : nat) (m : matrix) : bool :=
  Nat.eqb (length m) n
  && forallb (fun r => Nat.eqb (length r) n) m
  && forallb (forallb is_bit) m
  && forallb (fun r => Nat.eqb (count_ones r) 1) m
  && forallb (fun j => Nat.eqb (count_ones (column m j)) 1) (seq 0 n).

End Shor.

(** ** Double precision

    A Python [float] and a numpy [float64] are IEEE 754 doubles.  A double
    is kept here as the rational number it stands for, and every
    operation on doubles rounds its exact result to the nearest double,
    ties to the even mantissa, as the hardware does.  The 53 bits of the
    mantissa are modelled, the range of the exponent is not: no result
    overflows to [inf] or is subnormal here, and the statements about
    the values computed bound the numbers that enter the arithmetic. *)

Module Float64.

(** Round to the nearest integer, ties to the even one. *)
Definition rint (q : Q) : Z :=
  let f := Qfloor q in
  let r := (q - inject_Z f)%Q in
  match (r ?= 1 # 2)%Q with
  | Lt => f
  | Gt => f + 1
  | Eq => if Z.even f then f else f + 1
  end.

(** The binary exponent of a non-zero [q]: the [e] with
    [2^e <= |q| < 2^(e+1)]. *)
Definition exponent (q : Q) : Z :=
  let e := Z.log2 (Z.abs (Qnum q)) - Z.log2 (Z.pos (Qden q)) in
  if Qle_bool (2 ^ e) (Qabs q) then e else e - 1.

(** The double nearest to [q]: the nearest multiple of the unit in the
    last of 53 places, ties to the even multiple. *)
Definition round (q : Q) : Q :=
  if Qeq_bool q 0 then 0%Q
  else let ulp := (2 ^ (exponent q - 52))%Q in
       Qred (inject_Z (rint (q / ulp)) * ulp).

(** [float(z)] and the conversion of an [int] operand of a double. *)
Definition of_int (z : Z) : Q := round (inject_Z z).

Definition add (x y : Q) : Q := round (x + y).
Definition sub (x y : Q) : Q := round (x - y).
Definition mul (x y : Q) : Q := round (x * y).

(** [x / y], [y] not 0. *)
Definition div (x y : Q) : Q := round (x / y).

End Float64.

(** ** Python values, exceptions and effects *)

Module Py.

Inductive exn :=
| ValueError (msg : string)
| ZeroDivisionError (msg : string)
| IndexError (msg : string)
| KeyError (key : string).

Inductive outcome (A : Type) :=
| Returned (a : A)
| Raised (e : exn).

Arguments Returned {A} a.
Arguments Raised {A} e.

(** A computation reads and updates a world [W] and returns or raises; the
    world reached when an exception is raised is kept. *)
Definition M (W A : Type) : Type := W -> outcome A * W.

Definition ret {W A} (a : A) : M W A := fun w => (Returned a, w).

Definition raise {W A} (e : exn) : M W A := fun w => (Raised e, w).

Definition bind {W A B} (c : M W A) (k : A -> M W B) : M W B :=
  fun w =>
    match c w with
    | (Returned a, w') => k a w'
    | (Raised e, w') => (Raised e, w')
    end.

Definition lift {W A} (o : outcome A) : M W A := fun w => (o, w).

(** [for x in xs: body], the loop's variables threaded as [acc]. *)
Fixpoint for_each {W A S} (xs : list A) (acc : S) (body : A -> S -> M W S)
  : M W S :=
  match xs with
  | [] => ret acc
  | x :: rest => bind (body x acc) (fun acc' => for_each rest acc' body)
  end.

Inductive flow (S : Type) :=
| Continue (s : S)
| Break (s : S).

Arguments Continue {S} s.
Arguments Break {S} s.

(** A [for] loop whose body may [break]. *)
Fixpoint for_each_break {W A S} (xs : list A) (acc : S)
         (body : A -> S -> M W (flow S)) : M W S :=
  match xs with
  | [] => ret acc
  | x :: rest =>
      bind (body x acc) (fun r =>
        match r with
        | Continue acc' => for_each_break rest acc' body
        | Break acc' => ret acc'
        end)
  end.

(** [a / b] on two [int]s: the double nearest to the quotient. *)
Definition true_div (a b : Z) : outcome Q :=
  if b =? 0 then Raised (ZeroDivisionError "division by zero")
  else Returned (Float64.round (inject_Z a / inject_Z b)).

(** [l[i]] on a list; a negative index counts from the end. *)
Definition list_getitem (l : list Z) (i : Z) : outcome Z :=
  let n := Z.of_nat (List.length l) in
  if (0 <=? i) && (i <? n) then Returned (nth (Z.to_nat i) l 0)
  else if (- n <=? i) && (i <? 0) then Returned (nth (Z.to_nat (n + i)) l 0)
  else Raised (IndexError "list index out of range").

(** [int(x)]: truncation towards zero *)
Definition int (x : Q) : Z := Z.quot (Qnum x) (Z.pos (Qden x)).

(** [d[key]] on a dict *)
Fixpoint dict_getitem {V} (d : list (string * V)) (key : string)
  : outcome V :=
  match d with
  | [] => Raised (KeyError key)
  | (k, v) :: rest =>
      if String.eqb k key then Returned v else dict_getitem rest key
  end.

(** [l[i]] on a list of any values, [i >= 0] *)
Definition seq_getitem {A} (l : list A) (i : nat) : outcome A :=
  match nth_error l i with
  | Some a => Returned a
  | None => Raised (IndexError "list index out of range")
  end.

(** [range(lo, hi)] *)
Definition range (lo hi : Z) : list Z :=
  map (fun i => lo + Z.of_nat i) (seq 0 (Z.to_nat (hi - lo))).

End Py.

Declare Scope py_scope.
Delimit Scope py_scope with py.
Notation "x <- c ;; k" := (Py.bind c (fun x => k))
  (at level 61, c at next level, right associativity) : py_scope.
Notation "' p <- c ;; k" := (Py.bind c (fun p => k))
  (at level 61, p pattern, c at next level, right associativity) : py_scope.
Notation "c ;;; k" := (Py.bind c (fun _ => k))
  (at level 61, right associativity) : py_scope.

(** ** numpy and math on numbers

    Python [int] is [Z]; the arrays of the notebook hold doubles. *)

Module Numpy.
Import Py.

Fixpoint insert_sorted (x : Z) (l : list Z) : list Z :=
  match l with
  | [] => [x]
  | y :: l' => if x <=? y then x :: l else y :: insert_sorted x l'
  end.

Definition sort (l : list Z) : list Z := fold_right insert_sorted [] l.

(** [np.median(d)] on integers, a double: the middle element of the
    sorted data, or the mean of the two middle elements when their number
    is even; numpy converts the elements to doubles, adds the two and
    halves the sum.  On an empty list numpy answers [nan]; the one caller
    then compares nothing with it. *)
Definition median (d : list Z) : Q :=
  let s := sort d in
  let n := List.length s in
  if Nat.even n
  then Float64.div (Float64.add (Float64.of_int (nth (n / 2 - 1)%nat s 0))
                                (Float64.of_int (nth (n / 2)%nat s 0))) 2
  else Float64.of_int (nth (n / 2)%nat s 0).

(** [np.zeros(n)] *)
Definition zeros (n : Z) : outcome (list Q) :=
  if n <? 0 then Raised (ValueError "negative dimensions are not allowed")
  else Returned (repeat 0%Q (Z.to_nat n)).

Fixpoint update {A} (l : list A) (i : nat) (v : A) : list A :=
  match l, i with
  | [], _ => []
  | _ :: t, O => v :: t
  | h :: t, S j => h :: update t j v
  end.

(** A numpy index: a negative one counts from the end. *)
Definition index {A} (a : list A) (i : Z) : outcome nat :=
  let n := Z.of_nat (List.length a) in
  if (0 <=? i) && (i <? n) then Returned (Z.to_nat i)
  else if (- n <=? i) && (i <? 0) then Returned (Z.to_nat (n + i))
  else Raised (IndexError "index is out of bounds").

(** [a[i] = v] *)
Definition setitem (a : list Q) (i : Z) (v : Q) : outcome (list Q) :=
  match index a i with
  | Returned k => Returned (update a k v)
  | Raised e => Raised e
  end.

(** [a[i]] *)
Definition getitem (a : list Q) (i : Z) : outcome Q :=
  match index a i with
  | Returned k => Returned (nth k a 0%Q)
  | Raised e => Raised e
  end.

(** numpy adds the doubles of an array pairwise.  Fewer than eight are
    added one after the other.  Up to 128 are added in eight running sums,
    the first taking the elements 0, 8, 16, ..., the second the elements
    1, 9, 17, ..., as far as whole blocks of eight go; the eight sums are
    added two by two and the elements left over one after the other.
    A longer array is cut in two at a multiple of eight next to its
    middle, and the sums of the two parts are added. *)
Definition add_block (r block : list Q) : list Q :=
  map (fun p => Float64.add (fst p) (snd p)) (combine r block).

Fixpoint add_blocks (k : nat) (r a : list Q) : list Q * list Q :=
  match k with
  | O => (r, a)
  | S k' => add_blocks k' (add_block r (firstn 8 a)) (skipn 8 a)
  end.

Definition add_eight (r : list Q) : Q :=
  match r with
  | [r0; r1; r2; r3; r4; r5; r6; r7] =>
      Float64.add
        (Float64.add (Float64.add r0 r1) (Float64.add r2 r3))
        (Float64.add (Float64.add r4 r5) (Float64.add r6 r7))
  | _ => 0%Q
  end.

Fixpoint pairwise_sum (fuel : nat) (a : list Q) : Q :=
  let n := List.length a in
  if (n <? 8)%nat then fold_left Float64.add a 0%Q
  else if (n <=? 128)%nat then
    let '(r, rest) := add_blocks (n / 8 - 1) (firstn 8 a) (skipn 8 a) in
    fold_left Float64.add rest (add_eight r)
  else
    match fuel with
    | O => 0%Q
    | S fuel' =>
        let n2 := (n / 2 - (n / 2) mod 8)%nat in
        Float64.add (pairwise_sum fuel' (firstn n2 a))
                    (pairwise_sum fuel' (skipn n2 a))
    end.

(** [np.add.reduce(a)] on an array of doubles; each halving shortens the
    array, so its length is fuel enough. *)
Definition sum (a : list Q) : Q := pairwise_sum (List.length a) a.

(** The square root of a double is kept as a parameter, together with
    the one fact about it that the code relies on. *)
Class Sqrt := {
  sqrt : Q -> Q;
  sqrt_0 : forall q : Q, (q == 0)%Q -> (sqrt q == 0)%Q
}.

(** [np.std(a)] on an array of doubles: the mean is the sum divided by
    the number of elements, the deviations from it are squared, and the
    square root is taken of their sum divided by that number; every step
    is an operation on doubles.  On an empty array numpy answers [nan];
    the one caller has divided by zero before. *)
Definition std `{Sqrt} (a : list Q) : Q :=
  let n := Float64.of_int (Z.of_nat (List.length a)) in
  let arrmean := Float64.div (sum a) n in
  let x := map (fun v => Float64.sub v arrmean) a in
  let x := map (fun v => Float64.mul v v) x in
  sqrt (Float64.div (sum x) n).

End Numpy.

Module PyMath.
Import Py.

Definition ten : Q := inject_Z 10.

(** The largest [e] below the start value with [10^e <= q], searched
    downwards, and the largest [e] with [10^e <= q] searched upwards. *)
Fixpoint search_down (fuel : nat) (q : Q) (e : Z) : Z :=
  match fuel with
  | O => e
  | S f => if Qle_bool (ten ^ e) q then e else search_down f q (e - 1)
  end.

Fixpoint search_up (fuel : nat) (q : Q) (e : Z) : Z :=
  match fuel with
  | O => e
  | S f => if Qle_bool (ten ^ (e + 1)) q then search_up f q (e + 1) else e
  end.

(** [floor(log10(abs(x)))]: [math.log10] raises on 0; otherwise the
    decimal exponent of [x], the [e] with [10^e <= |x| < 10^(e+1)].
    The logarithm is taken as exact.  The C library's may answer the
    exponent of the next power of ten for a double in the last places
    below that power; rounding at either exponent then gives that power
    of ten, as long as numpy's power of ten is exact (up to [10^22]). *)
Definition floor_log10_abs (x : Q) : outcome Z :=
  let a := Qabs x in
  if Qeq_bool a 0 then Raised (ValueError "math domain error")
  else if Qle_bool 1 a
       then Returned (search_up (S (Z.to_nat (Z.log2 (Qnum a)))) a 0)
       else Returned
              (search_down (S (Z.to_nat (Z.log2 (Z.pos (Qden a))))) a (-1)).

(** The power of ten that numpy rounds with: from a table up to [10^8],
    beyond it [10^9] multiplied by ten as often as needed, in doubles. *)
Fixpoint times_ten (k : nat) (r : Q) : Q :=
  match k with
  | O => r
  | S k' => times_ten k' (Float64.mul r ten)
  end.

Definition power_of_ten (n : Z) : Q :=
  if n <? 9 then inject_Z (10 ^ n)
  else times_ten (Z.to_nat (n - 9)) (inject_Z (10 ^ 9)).

(** [round(x, ndigits)] on a numpy double: numpy multiplies by the power
    of ten, rounds to the nearest integer, ties to the even one, and
    divides by the power again, each step an operation on doubles; for
    negative [ndigits] it divides first and multiplies after. *)
Definition round (x : Q) (ndigits : Z) : Q :=
  if 0 <=? ndigits
  then let f := power_of_ten ndigits in
       Float64.div (inject_Z (Float64.rint (Float64.mul x f))) f
  else let f := power_of_ten (- ndigits) in
       Float64.mul (inject_Z (Float64.rint (Float64.div x f))) f.

End PyMath.

(** ** The platform: models, quantum programs, results

    What a notebook hands to [create_model] is a quantum function: a list
    of calls into the platform's modelling language.  It is kept as data,
    arguments as they are written. *)

Module Qmod.

Definition cmatrix : Type := list (list (Q * Q)).

#[local] Set Warnings "-register-all".

Inductive qfunc :=
| QFunc (name : string) (params : list string) (body : list qstmt)
with qstmt :=
| QCall (f : string) (args : list qarg)            (* a platform function *)
| QCallFunc (callee : qfunc) (args : list qarg)  (* a notebook's [@qfunc] *)
| QAssign (res : string) (expr : string)           (* [res |= expr] *)
| QLocal (var : string) (name : string)            (* [var = QArray(name)] *)
with qarg :=
| Var (x : string)
| Int (z : Z)
| Num (q : Q)
| Flag (b : bool)
| Ints (l : list Z)
| Nums (l : list Q)
| Matrix (m : cmatrix)
| RealMatrix (m : list (list Z))
| Index (x : string) (i : Z)                       (* [x[i]] *)
| Named (key : string) (a : qarg)
| Seq (l : list qarg)
| PauliTerm (pauli : list string) (coefficient : qarg)
| Lambda (params : list string) (body : list qstmt).

Definition qfunc_name (f : qfunc) : string :=
  match f with QFunc n _ _ => n end.

Definition qfunc_body (f : qfunc) : list qstmt :=
  match f with QFunc _ _ b => b end.

(** The Pyomo problem of the optimization tutorial. *)
Record pyomo_model := {
  var_names : list Z;
  var_bounds : Z * Z;
  objective : list (Z * Z);        (* coefficient, variable *)
  constraint_lhs : list (Z * Z);
  constraint_lower : Z
}.

Record QAOAConfig := {
  num_layers : Z;
  penalty_energy : Q
}.

Inductive model :=
| ModelOf (main : qfunc)
| GroverModel (num_reps : Z) (expression : string)
              (definitions : list (string * Z))
| CombinatorialOptimizationModel (pyo_model : pyomo_model)
                                 (qaoa_config : QAOAConfig).

Inductive backend :=
| ClassiqBackend (backend_name : string)
| AzureBackend (backend_name : string)
| IBMBackend (backend_name : string) (access_token : string).

Record ExecutionPreferences := {
  num_shots : option Z;
  backend_preferences : backend
}.

(** One measured state with its number of shots, as [parsed_counts] lists
    them. *)
Record parsed_state := {
  state : list (string * Q);
  shots : Z
}.

(** [execute(qprog).result()[0].value] *)
Record details := {
  counts : list (string * Z);      (* bitstring -> shots, a dict *)
  parsed_counts : list parsed_state
}.

(** One row of [get_optimization_solution_from_pyo]. *)
Record solution_row := {
  probability : Q;
  cost : Q;
  solution : list Z;
  count : Z
}.

End Qmod.

Module Classiq.
Import Py Qmod.

(** The [classiq] package is not part of the repository.  A quantum
    program is opaque to the notebooks; the platform's answers are
    indexed by the number of the call, since they are not functions of
    the arguments alone. *)
Class Platform := {
  qprog : Type;
  synthesize_answer : nat -> model -> qprog;
  set_preferences_answer : qprog -> ExecutionPreferences -> qprog;
  execute_answer : nat -> qprog -> details;
  solution_answer : pyomo_model -> details -> Q -> list solution_row;
  default_penalty_energy : Q
}.

(** The random draws of the quantum volume notebook: [random.shuffle], and
    [haar], whose body is complex floating-point linear algebra
    ([unitary_group.rvs], [numpy.linalg.qr]) on such draws. *)
Class Random := {
  shuffle_answer : nat -> list Z -> list Z;
  shuffle_permutes : forall k l, Permutation (shuffle_answer k l) l;
  haar_answer : nat -> Z -> cmatrix
}.

(** What a cell prints, plots or leaves as its output. *)
Inductive shown :=
| Printed (values : list Q)
| PrintedBest (x : list Z) (cost : Q)
| PrintedCheck (a b c : Z) (holds : bool)
| ParsedCounts (rows : list parsed_state)
| MultipleOutputs (names : list string) (r : details)
| BarPlot (data : list (string * Z))
| SortedByCostHead (n : nat) (rows : list solution_row)
| PyomoPrint (m : pyomo_model).

Inductive event `{Platform} :=
| CreateModel (m : model)
| WriteQmod (m : model) (name : string)
| Synthesize (m : model) (q : qprog)
| ShowCircuit (q : qprog)
| SetPreferences (q : qprog) (p : ExecutionPreferences) (q' : qprog)
| Execute (q : qprog) (r : details)
| GetSolution (r : details) (rows : list solution_row)
| Display (d : shown).

Record world `{Platform} := {
  clock : nat;                (* calls answered so far *)
  log : list event
}.

Section Calls.
Context `{Platform} `{Random}.

Definition start : world := {| clock := 0; log := [] |}.

Definition emit (e : event) : M world unit :=
  fun w => (Returned tt, {| clock := clock w; log := log w ++ [e] |}).

Definition tick : M world nat :=
  fun w => (Returned (clock w), {| clock := S (clock w); log := log w |}).

Local Open Scope py_scope.

Definition build (m : model) : M world model :=
  emit (CreateModel m) ;;; ret m.

Definition create_model (main : qfunc) : M world model :=
  build (ModelOf main).

Definition construct_grover_model (num_reps : Z) (expression : string)
           (definitions : list (string * Z)) : M world model :=
  build (GroverModel num_reps expression definitions).

Definition construct_combinatorial_optimization_model
           (pyo_model : pyomo_model) (qaoa_config : QAOAConfig)
  : M world model :=
  build (CombinatorialOptimizationModel pyo_model qaoa_config).

Definition write_qmod (m : model) (name : string) : M world unit :=
  emit (WriteQmod m name).

Definition synthesize (m : model) : M world qprog :=
  k <- tick ;;
  let q := synthesize_answer k m in
  emit (Synthesize m q) ;;; ret q.

Definition show (q : qprog) : M world unit :=
  emit (ShowCircuit q).

Definition set_quantum_program_execution_preferences
           (q : qprog) (p : ExecutionPreferences) : M world qprog :=
  let q' := set_preferences_answer q p in
  emit (SetPreferences q p q') ;;; ret q'.

(** [execute(qprog).result()[0].value] *)
Definition execute (q : qprog) : M world details :=
  k <- tick ;;
  let r := execute_answer k q in
  emit (Execute q r) ;;; ret r.

Definition get_optimization_solution_from_pyo
           (pyo_model : pyomo_model) (vqe_result : details)
           (penalty : Q) : M world (list solution_row) :=
  let rows := solution_answer pyo_model vqe_result penalty in
  emit (GetSolution vqe_result rows) ;;; ret rows.

Definition print (values : list Q) : M world unit :=
  emit (Display (Printed values)).

Definition display (d : shown) : M world unit :=
  emit (Display d).

(** [random.shuffle(l)] *)
Definition shuffle (l : list Z) : M world (list Z) :=
  k <- tick ;; ret (shuffle_answer k l).

End Calls.

End Classiq.

(** ** The quantum volume notebook *)

Module QuantumVolume.
Import Py Qmod Classiq.

Local Open Scope py_scope.

Section Notebook.
Context `{Platform} `{Random} `{Numpy.Sqrt}.

(** [haar(n)]: a draw from [unitary_group.rvs], renormalised through
    numpy's QR decomposition; the matrix is the environment's. *)
Definition haar (n : Z) : M world cmatrix :=
  k <- tick ;; ret (haar_answer k n).

Definition apply_2qbit_unitary : qfunc :=
  QFunc "apply_2qbit_unitary" ["unitary_params"; "x"; "y"]%string
    [ QLocal "joined" "joined";
      QCall "bind" [Seq [Var "x"; Var "y"]; Var "joined"];
      QCall "unitary" [Var "unitary_params"; Var "joined"];
      QCall "bind" [Var "joined"; Seq [Var "x"; Var "y"]] ].

(** The calls that [qv_layer(target, N)] adds to the model being built. *)
Definition qv_layer (target : string) (N : Z) : M world (list qstmt) :=
  let qubit_list := range 0 N in
  qubit_list <- shuffle qubit_list ;;
  for_each (range 0 (N / 2)) [] (fun idx calls =>
    a <- lift (list_getitem qubit_list idx) ;;
    b <- lift (list_getitem qubit_list (N / 2 + idx)) ;;
    gate_matrix <- haar 4 ;;
    ret (calls ++ [QCallFunc apply_2qbit_unitary
                     [Matrix gate_matrix; Index target a; Index target b]])).

Definition qv_model (N : Z) : M world model :=
  let target := "target"%string in
  body <- for_each (range 0 N) [QCall "allocate" [Int N; Var target]]
            (fun idx body =>
               layer <- qv_layer target N ;;
               ret (body ++ layer)) ;;
  create_model (QFunc "main" [target] body).

Definition execute_qv (qprog : qprog) (num_shots : Z) (preferences : backend)
  : M world details :=
  qprog <- set_quantum_program_execution_preferences qprog
             {| Qmod.num_shots := Some num_shots;
                backend_preferences := preferences |} ;;
  results <- execute qprog ;;
  ret results.

Definition heavy_outputs_prob (results : details) : Z :=
  let d := map snd (counts results) in
  let med := Numpy.median d in
  let heavy_outputs_prob := 0 in
  fold_left (fun heavy_outputs_prob item =>
               if Qle_bool med (Float64.of_int item)
               then heavy_outputs_prob + item
               else heavy_outputs_prob)
            d heavy_outputs_prob.

(** [x] is a numpy double in the one call of the notebook. *)
Definition round_significant (x : Q) : outcome Q :=
  match PyMath.floor_log10_abs x with
  | Returned e => Returned (PyMath.round x (- e))
  | Raised err => Raised err
  end.

(** The body of [find_qv] has two parts, which the source marks with the
    comments repeated here; each is given a name so that statements can
    speak of it. *)

(** [### calculate the heavy outputs for each number of qubits]
    ([tqdm] only draws a progress bar around the two ranges.) *)
Definition calculate_heavy_outputs
           (num_trials num_shots min_qubits : Z) (preferences : backend)
           (qubit_num : list Z) (heavy_list std_list : list Q)
  : M world (list Q * list Q) :=
  for_each qubit_num (heavy_list, std_list)
    (fun num '(heavy_list, std_list) =>
       let heavy_outputs := 0 in
       let std := 0%Q in
       heavytostd <- lift (Numpy.zeros num_trials) ;;
       ' (heavy_outputs, heavytostd) <-
         for_each (range 0 num_trials) (heavy_outputs, heavytostd)
           (fun idx '(heavy_outputs, heavytostd) =>
              model <- qv_model num ;;
              qprog <- synthesize model ;;
              results <- execute_qv qprog num_shots preferences ;;
              let heavy_temp := heavy_outputs_prob results in
              let heavy_outputs := heavy_outputs + heavy_temp in
              heavytostd <- lift (Numpy.setitem heavytostd idx
                                    (Float64.of_int heavy_temp)) ;;
              ret (heavy_outputs, heavytostd)) ;;
       let s := num - min_qubits in
       hl <- lift (true_div heavy_outputs (num_trials * num_shots)) ;;
       heavy_list <- lift (Numpy.setitem heavy_list s hl) ;;
       temp_hl <- lift (true_div heavy_outputs (num_trials * num_shots)) ;;
       let std := Float64.div (Numpy.std heavytostd)
                              (Float64.of_int (num_trials * num_shots)) in
       std_list <- lift (Numpy.setitem std_list s std) ;;
       temp_std <- lift (round_significant std) ;;
       print [inject_Z num; temp_hl; temp_std] ;;;
       ret (heavy_list, std_list)).

(** [### determine the quantum volume] *)
Definition determine_quantum_volume
           (min_qubits : Z) (qubit_num : list Z)
           (heavy_list std_list : list Q) (qubit_v : Z) : M world Z :=
  for_each_break qubit_num qubit_v
    (fun num qubit_v =>
       let s := num - min_qubits in
       h <- lift (Numpy.getitem heavy_list s) ;;
       sd <- lift (Numpy.getitem std_list s) ;;
       let heavy_is := Float64.sub h (Float64.mul 2 sd) in
       if Qle_bool (Float64.div 2 3) heavy_is
       then ret (Continue num)
       else ret (Break qubit_v)).

Definition find_qv (num_trials num_shots min_qubits max_qubits : Z)
           (preferences : backend) : M world Q :=
  (* initialization *)
  let qubit_num := range min_qubits (max_qubits + 1) in
  heavy_list <- lift (Numpy.zeros (max_qubits - min_qubits + 1)) ;;
  std_list <- lift (Numpy.zeros (max_qubits - min_qubits + 1)) ;;
  let qubit_v := 0 in
  ' (heavy_list, std_list) <-
    calculate_heavy_outputs num_trials num_shots min_qubits preferences
                            qubit_num heavy_list std_list ;;
  qubit_v <- determine_quantum_volume min_qubits qubit_num
                                      heavy_list std_list qubit_v ;;
  let qv := (2 ^ qubit_v)%Q in
  print [qv] ;;;
  ret qv.

End Notebook.

End QuantumVolume.

(** ** The other notebooks: their quantum functions and their cells *)

Module ShorNotebook.
Import Py Qmod Classiq.
Local Open Scope py_scope.
Local Open Scope string_scope.

Definition N : Z := 15.

(** [int(np.ceil(np.log2(n)))] *)
Definition ceil_log2 (n : Z) : Z := Z.log2_up n.

Definition num_counting_qubits : Z := ceil_log2 (N ^ 2).
Definition num_auxilliary_qubits : Z := ceil_log2 N.

Definition modular_exponentiation : qfunc :=
  QFunc "modular_exponentiation" ["exponent"; "target"]
    [ QCall "power"
        [ Var "2**exponent";
          Lambda []
            [ QCall "unitary"
                [ Named "elements" (RealMatrix Shor.MODULAR_MUL_UNITARY);
                  Named "target" (Var "target") ] ] ] ].

Definition period_finding : qfunc :=
  QFunc "period_finding" ["qv_counting"; "qv_auxilliary"]
    [ QCall "allocate" [Int num_counting_qubits; Var "qv_counting"];
      QCall "hadamard_transform" [Var "qv_counting"];
      QCall "allocate" [Int num_auxilliary_qubits; Var "qv_auxilliary"];
      QCall "X" [Index "qv_auxilliary" 0];
      QCall "repeat"
        [ Named "count" (Int num_auxilliary_qubits);
          Named "iteration"
            (Lambda ["index"]
               [ QCall "control"
                   [ Named "ctrl" (Var "qv_counting[index]");
                     Named "operand"
                       (Lambda []
                          [ QCallFunc modular_exponentiation
                              [Var "index"; Var "qv_auxilliary"] ]) ] ]) ];
      QCall "invert" [Lambda [] [QCall "qft" [Var "qv_counting"]]] ].

Definition main : qfunc :=
  QFunc "main" ["qv_counting"]
    [ QLocal "qv_auxilliary" "qv_auxilliary";
      QCallFunc period_finding [Var "qv_counting"; Var "qv_auxilliary"] ].

(** [hist[key] += value] on a [defaultdict(int)] *)
Fixpoint add_count (hist : list (string * Z)) (key : string) (value : Z)
  : list (string * Z) :=
  match hist with
  | [] => [(key, 0 + value)]
  | (k, v) :: rest =>
      if String.eqb k key then (k, v + value) :: rest
      else (k, v) :: add_count rest key value
  end.

Section Cells.
Context `{Platform}.

Definition cells : M world unit :=
  qmod <- create_model main ;;
  write_qmod qmod "shor" ;;;
  qprog <- synthesize qmod ;;
  show qprog ;;;
  res <- execute qprog ;;
  let hist_counting_qubits :=
    fold_left (fun hist kv => add_count hist (fst kv) (snd kv))
              (counts res) [] in
  display (BarPlot hist_counting_qubits).

End Cells.
End ShorNotebook.

Module Comparator.
Import Py Qmod Classiq.
Local Open Scope py_scope.
Local Open Scope string_scope.

Module Example1.
Definition main : qfunc :=
  QFunc "main" ["a"; "b"; "res"]
    [ QCall "allocate_num" [Int 5; Flag true; Int 0; Var "a"];
      QCall "allocate_num" [Int 3; Flag false; Int 0; Var "b"];
      QAssign "res" "a == b" ].
End Example1.

Module Example2.
Definition main : qfunc :=
  QFunc "main" ["a"; "res"]
    [ QCall "allocate" [Int 3; Var "a"];
      QCall "hadamard_transform" [Var "a"];
      QAssign "res" "a <= 2" ].
End Example2.

Section Cells.
Context `{Platform}.

Definition cells : M world unit :=
  qmod <- create_model Example1.main ;;
  write_qmod qmod "comparator_2vars_example" ;;;
  qprog <- synthesize qmod ;;
  qmod <- create_model Example2.main ;;
  write_qmod qmod "comparator_integer_example" ;;;
  qprog <- synthesize qmod ;;
  result <- execute qprog ;;
  display (ParsedCounts (parsed_counts result)).

End Cells.
End Comparator.

Module Extremum.
Import Py Qmod Classiq.
Local Open Scope py_scope.
Local Open Scope string_scope.

Module Example1.
Definition main : qfunc :=
  QFunc "main" ["a"; "b"; "res"]
    [ QCall "prepare_int" [Int 4; Var "a"];
      QCall "allocate" [Int 3; Var "b"];
      QCall "hadamard_transform" [Var "b"];
      QAssign "res" "min(a, b)" ].
End Example1.

Module Example2.
Definition main : qfunc :=
  QFunc "main" ["a"; "res"]
    [ QCall "allocate" [Int 3; Var "a"];
      QCall "hadamard_transform" [Var "a"];
      QAssign "res" "max(3.5, a)" ].
End Example2.

Section Cells.
Context `{Platform}.

Definition cells : M world unit :=
  qmod <- create_model Example1.main ;;
  write_qmod qmod "minimum_2vars_example" ;;;
  qprog <- synthesize qmod ;;
  result <- execute qprog ;;
  display (ParsedCounts (parsed_counts result)) ;;;
  qmod <- create_model Example2.main ;;
  write_qmod qmod "maximum_float_example" ;;;
  qprog <- synthesize qmod ;;
  result <- execute qprog ;;
  display (ParsedCounts (parsed_counts result)).

End Cells.
End Extremum.

Module BitwiseOr.
Import Py Qmod Classiq.
Local Open Scope py_scope.
Local Open Scope string_scope.

Module Example1.
Definition main : qfunc :=
  QFunc "main" ["a"; "b"; "res"]
    [ QCall "allocate_num" [Int 5; Flag true; Int 0; Var "a"];
      QCall "allocate_num" [Int 3; Flag false; Int 0; Var "b"];
      QCall "inplace_prepare_int" [Int 4; Var "a"];
      QCall "inplace_prepare_int" [Int 5; Var "b"];
      QAssign "res" "a | b" ].
End Example1.

Module Example2.
Definition main : qfunc :=
  QFunc "main" ["a"; "res"]
    [ QCall "prepare_int" [Int 4; Var "a"];
      QAssign "res" "3 | a" ].
End Example2.

Section Cells.
Context `{Platform}.

Definition cells : M world unit :=
  qmod <- create_model Example1.main ;;
  write_qmod qmod "bitwise_or_2vars_example" ;;;
  qprog <- synthesize qmod ;;
  result <- execute qprog ;;
  display (ParsedCounts (parsed_counts result)) ;;;
  display (MultipleOutputs ["a"; "b"; "res"] result) ;;;
  qmod <- create_model Example2.main ;;
  write_qmod qmod "bitwise_or_integer_example" ;;;
  qprog <- synthesize qmod ;;
  result <- execute qprog ;;
  display (ParsedCounts (parsed_counts result)).

End Cells.
End BitwiseOr.

Module Negation.
Import Py Qmod Classiq.
Local Open Scope py_scope.
Local Open Scope string_scope.

Definition main : qfunc :=
  QFunc "main" ["a"; "b"]
    [ QCall "allocate_num" [Int 3; Flag true; Int 0; Var "a"];
      QCall "hadamard_transform" [Var "a"];
      QAssign "b" "-a" ].

Section Cells.
Context `{Platform}.

Definition cells : M world unit :=
  qmod <- create_model main ;;
  write_qmod qmod "negation_example" ;;;
  qprog <- synthesize qmod ;;
  result <- execute qprog ;;
  display (ParsedCounts (parsed_counts result)).

End Cells.
End Negation.

Module Subtraction.
Import Py Qmod Classiq.
Local Open Scope py_scope.
Local Open Scope string_scope.

Module Example1.
Definition main : qfunc :=
  QFunc "main" ["a"; "b"; "res"]
    [ QCall "prepare_int" [Int 4; Var "a"];
      QCall "prepare_int" [Int 5; Var "b"];
      QAssign "res" "a - b" ].
End Example1.

Module Example2.
Definition main : qfunc :=
  QFunc "main" ["a"; "res"]
    [ QCall "prepare_int" [Int 4; Var "a"];
      QAssign "res" "a - 3.5" ].
End Example2.

Section Cells.
Context `{Platform}.

Definition cells : M world unit :=
  qmod <- create_model Example1.main ;;
  write_qmod qmod "subtraction_2vars_example" ;;;
  qprog <- synthesize qmod ;;
  result <- execute qprog ;;
  display (ParsedCounts (parsed_counts result)) ;;;
  qmod <- create_model Example2.main ;;
  write_qmod qmod "subtraction_float_example" ;;;
  qprog <- synthesize qmod ;;
  result <- execute qprog ;;
  display (ParsedCounts (parsed_counts result)).

End Cells.
End Subtraction.

Module SuzukiTrotter.
Import Py Qmod Classiq.
Local Open Scope py_scope.
Local Open Scope string_scope.

Definition main : qfunc :=
  QFunc "main" ["qba"]
    [ QCall "allocate" [Int 3; Var "qba"];
      QCall "suzuki_trotter"
        [ Seq [ PauliTerm ["Pauli.X"; "Pauli.X"; "Pauli.Z"] (Var "a");
                PauliTerm ["Pauli.Y"; "Pauli.X"; "Pauli.Z"] (Num (1 # 2)) ];
          Named "evolution_coefficient" (Var "x");
          Named "order" (Int 1);
          Named "repetitions" (Int 1);
          Named "qbv" (Var "qba") ] ].

Section Cells.
Context `{Platform}.

Definition cells : M world unit :=
  qmod <- create_model main ;;
  write_qmod qmod "suzuki_trotter_example" ;;;
  qprog <- synthesize qmod ;;
  ret tt.

End Cells.
End SuzukiTrotter.

Module UnitaryExample.
Import Py Qmod Classiq.
Local Open Scope py_scope.
Local Open Scope string_scope.

(** [[1, 0, 0, 0], [0, 1, 0, 0], [0, 0, -1j, 0], [0, 0, 0, 1j]] *)
Definition UNITARY : cmatrix :=
  let r (x : Q) : Q * Q := (x, 0%Q) in
  let j (y : Q) : Q * Q := (0%Q, y) in
  [ [r 1; r 0; r 0; r 0];
    [r 0; r 1; r 0; r 0];
    [r 0; r 0; j (-1); r 0];
    [r 0; r 0; r 0; j 1] ]%Q.

Definition main : qfunc :=
  QFunc "main" ["x"]
    [ QCall "allocate" [Int 2; Var "x"];
      QCall "unitary" [Matrix UNITARY; Var "x"] ].

Section Cells.
Context `{Platform}.

Definition cells : M world unit :=
  qmod <- create_model main ;;
  write_qmod qmod "unitary_example" ;;;
  qprog <- synthesize qmod ;;
  ret tt.

End Cells.
End UnitaryExample.

Module LinearPauliRotations.
Import Py Qmod Classiq.
Local Open Scope py_scope.
Local Open Scope string_scope.

Definition NUM_STATE_QUBITS : Z := 6.
Definition BASES : list qarg := repeat (Var "Pauli.Y.value") 3.
Definition OFFSETS : list Q := [1 # 10; 3 # 10; 33 # 100]%Q.
Definition SLOPES : list Q := [21 # 10; 1; 7]%Q.

Definition main : qfunc :=
  QFunc "main" ["x"; "ind"]
    [ QCall "allocate" [Int NUM_STATE_QUBITS; Var "x"];
      QCall "allocate" [Int (Z.of_nat (List.length BASES)); Var "ind"];
      QCall "linear_pauli_rotations"
        [Seq BASES; Nums SLOPES; Nums OFFSETS; Var "x"; Var "ind"] ].

Section Cells.
Context `{Platform}.

Definition cells : M world unit :=
  qmod <- create_model main ;;
  write_qmod qmod "linear_pauli_rotations_example" ;;;
  qprog <- synthesize qmod ;;
  ret tt.

End Cells.
End LinearPauliRotations.

Module Grover.
Import Py Qmod Classiq.
Local Open Scope py_scope.
Local Open Scope string_scope.

(** Register names with the [size] of their [RegisterUserInput]. *)
Definition definitions : list (string * Z) := [("a", 2); ("b", 2); ("c", 3)].

Definition expression : string := "(a + b + (c & 6)) % 4 | 4 & c == 4".

(** Python reads the expression as
    [((a + b + (c & 6)) % 4 | (4 & c)) == 4]. *)
Definition classical_predicate (a b c : Z) : bool :=
  (Z.lor ((a + b + Z.land c 6) mod 4) (Z.land 4 c) =? 4)%Z.

Definition NUM_SOLUTIONS : Z := 3.

Section Cells.
Context `{Platform}.

Definition cells : M world unit :=
  qmod <- construct_grover_model 1 expression definitions ;;
  write_qmod qmod "grover" ;;;
  qprog <- synthesize qmod ;;
  show qprog ;;;
  let backend_preferences :=
    {| num_shots := None;
       backend_preferences :=
         ClassiqBackend "ClassiqSimulatorBackendNames.SIMULATOR" |} in
  qprog <- set_quantum_program_execution_preferences qprog
             backend_preferences ;;
  res <- execute qprog ;;
  for_each (range 0 NUM_SOLUTIONS) tt (fun k _ =>
    row <- lift (seq_getitem (parsed_counts res) (Z.to_nat k)) ;;
    let parsed_res := state row in
    a <- lift (dict_getitem parsed_res "a") ;;
    b <- lift (dict_getitem parsed_res "b") ;;
    c <- lift (dict_getitem parsed_res "c") ;;
    let '(a, b, c) := (int a, int b, int c) in
    display (PrintedCheck a b c (classical_predicate a b c))).

End Cells.
End Grover.

Module LearningOptimization.
Import Py Qmod Classiq.
Local Open Scope py_scope.
Local Open Scope string_scope.

(** Minimize [3 x1 + 2 x2] over integers in [0, 3] with
    [3 x1 + x2 >= 2]. *)
Definition application_level_object : pyomo_model :=
  {| var_names := [1; 2];
     var_bounds := (0, 3);
     objective := [(3, 1); (2, 2)];
     constraint_lhs := [(3, 1); (1, 2)];
     constraint_lower := 2 |}.

(** The last cell builds the same problem again under this name. *)
Definition application_object : pyomo_model :=
  {| var_names := [1; 2];
     var_bounds := (0, 3);
     objective := [(3, 1); (2, 2)];
     constraint_lhs := [(3, 1); (1, 2)];
     constraint_lower := 2 |}.

(** [Series.idxmin()]: the first position of the least value. *)
Fixpoint idxmin_from (best_i : nat) (best : Q) (i : nat) (l : list Q) : nat :=
  match l with
  | [] => best_i
  | c :: rest =>
      if Qle_bool best c then idxmin_from best_i best (S i) rest
      else idxmin_from i c (S i) rest
  end.

Definition idxmin (l : list Q) : outcome nat :=
  match l with
  | [] => Raised (ValueError "attempt to get argmin of an empty sequence")
  | c :: rest => Returned (idxmin_from 0 c 1 rest)
  end.

Section Cells.
Context `{Platform}.

(** From the solution rows to the printed best row. *)
Definition print_best (optimization_result : list solution_row)
  : M world unit :=
  idx <- lift (idxmin (map cost optimization_result)) ;;
  row <- lift (seq_getitem optimization_result idx) ;;
  display (PrintedBest (solution row) (cost row)).

Definition cells : M world unit :=
  display (PyomoPrint application_level_object) ;;;
  let qaoa_config :=
    {| num_layers := 1; penalty_energy := default_penalty_energy |} in
  model <- construct_combinatorial_optimization_model
             application_level_object qaoa_config ;;
  qprog <- synthesize model ;;
  res <- execute qprog ;;
  solution <- get_optimization_solution_from_pyo application_level_object
                res (penalty_energy qaoa_config) ;;
  let optimization_result := solution in
  display (SortedByCostHead 5 optimization_result) ;;;
  print_best optimization_result ;;;
  show qprog ;;;
  (* the closing cell: the whole tutorial once more *)
  display (PyomoPrint application_object) ;;;
  let qaoa_config :=
    {| num_layers := 1; penalty_energy := default_penalty_energy |} in
  model <- construct_combinatorial_optimization_model
             application_level_object qaoa_config ;;
  qprog <- synthesize model ;;
  res <- execute qprog ;;
  solution <- get_optimization_solution_from_pyo application_level_object
                res (penalty_energy qaoa_config) ;;
  let optimization_result := solution in
  print_best optimization_result ;;;
  show qprog.

End Cells.
End LearningOptimization.

Module QuantumVolumeNotebook.
Import Py Qmod Classiq QuantumVolume.
Local Open Scope py_scope.
Local Open Scope string_scope.

Definition num_trials : Z := 10.
Definition num_shots : Z := 100.
Definition preferences : backend :=
  ClassiqBackend "ClassiqSimulatorBackendNames.SIMULATOR".
Definition min_qubits : Z := 3.
Definition max_qubits : Z := 6.

Section Cells.
Context `{Platform} `{Random} `{Numpy.Sqrt}.

(** The calls for the hardware backends are commented out in the
    notebook; only the simulator run is made. *)
Definition cells : M world unit :=
  qv <- find_qv num_trials num_shots min_qubits max_qubits preferences ;;
  ret tt.

End Cells.
End QuantumVolumeNotebook.

(** ** The repository: its twelve notebooks *)

Module Repository.
Import Py Classiq.

Section Notebooks.
Context `{Platform} `{Random} `{Numpy.Sqrt}.

Definition notebooks : list (string * M world unit) :=
  [ ("shor", ShorNotebook.cells);
    ("comparator_example", Comparator.cells);
    ("extremum_example", Extremum.cells);
    ("bitwise_or_example", BitwiseOr.cells);
    ("negation_example", Negation.cells);
    ("subtraction_example", Subtraction.cells);
    ("suzuki_trotter", SuzukiTrotter.cells);
    ("unitary_example", UnitaryExample.cells);
    ("linear_pauli_rotations", LinearPauliRotations.cells);
    ("grover", Grover.cells);
    ("quantum_volume", QuantumVolumeNotebook.cells);
    ("learning_optimization", LearningOptimization.cells) ]%string.

(** The events of a whole run from the empty world. *)
Definition trace (nb : M world unit) : list event := log (snd (nb start)).

End Notebooks.
End Repository.

(** ** The function definitions of the repository, as written

    For the questions that are about the shape of the code rather than
    its values, each [def] is also kept as a skeleton: its control
    structure and, statement by statement, the calls it makes, each with
    the place its callee comes from according to the notebook's imports. *)

Module Source.
Import Qmod.
Local Open Scope string_scope.

Inductive origin :=
| classiq            (* imported from the platform package *)
| local_qfunc        (* a [@qfunc] defined in the notebook *)
| local_def          (* a plain [def] of the notebook *)
| numpy
| scipy
| pymath             (* [math] *)
| pyrandom           (* [random] *)
| tqdm
| builtin
| threading          (* never imported; listed to be looked for *)
| asyncio
| multiprocessing.

Definition origin_eqb (a b : origin) : bool :=
  match a, b with
  | classiq, classiq | local_qfunc, local_qfunc | local_def, local_def
  | numpy, numpy | scipy, scipy | pymath, pymath | pyrandom, pyrandom
  | tqdm, tqdm | builtin, builtin | threading, threading
  | asyncio, asyncio | multiprocessing, multiprocessing => true
  | _, _ => false
  end.

Record call := Call { from : origin; callee : string }.

#[local] Set Warnings "-register-all".

Inductive stmt :=
| Assign (targets : list string) (calls : list call)
| Expr (calls : list call)
| For (var : string) (iter : list call) (body : list stmt)
| If (test : list call) (thn els : list stmt)
| BreakStmt
| Return (calls : list call)
| Global (names : list string)
| Def (name : string) (decorators : list string) (body : list stmt).

Record fundef := {
  notebook : string;
  name : string;
  is_qfunc : bool;
  body : list stmt
}.

(** The calls a body makes itself; a nested [def] makes its own. *)
Fixpoint calls_of (s : stmt) : list call :=
  match s with
  | Assign _ cs | Expr cs | Return cs => cs
  | For _ it b => it ++ flat_map calls_of b
  | If t a b => t ++ flat_map calls_of a ++ flat_map calls_of b
  | BreakStmt | Global _ | Def _ _ _ => []
  end.

Definition calls (f : fundef) : list call := flat_map calls_of (body f).



(** *** The quantum functions, from their bodies *)

Fixpoint calls_in_stmt (s : qstmt) : list call :=
  match s with
  | QCall f args => Call classiq f :: flat_map calls_in_arg args
  | QCallFunc (QFunc n _ _) args =>
      Call local_qfunc n :: flat_map calls_in_arg args
  | QAssign _ _ => [Call classiq "|="]
  | QLocal _ _ => [Call classiq "QArray"]
  end
with calls_in_arg (a : qarg) : list call :=
  match a with
  | Named _ a' => calls_in_arg a'
  | Seq l => flat_map calls_in_arg l
  | PauliTerm _ c => Call classiq "PauliTerm" :: calls_in_arg c
  | Lambda _ b => flat_map calls_in_stmt b
  | _ => []
  end.

Definition of_qstmt (s : qstmt) : stmt :=
  match s with
  | QAssign res _ => Assign [res] (calls_in_stmt s)
  | QLocal v _ => Assign [v] (calls_in_stmt s)
  | _ => Expr (calls_in_stmt s)
  end.

Definition of_qfunc (nb : string) (f : qfunc) : fundef :=
  {| notebook := nb;
     name := qfunc_name f;
     is_qfunc := true;
     body := map of_qstmt (qfunc_body f) |}.

End Source.

Module Inventory.
Import Source.
Local Open Scope string_scope.

Definition np (f : string) : call := Call numpy f.
Definition py (f : string) : call := Call builtin f.

Definition get_modular_multiplication_matrix : fundef :=
  {| notebook := "shor";
     name := "get_modular_multiplication_matrix";
     is_qfunc := false;
     body :=
       [ Assign ["swap"] [np "array"];
         Assign ["swap32"] [np "identity"; np "kron"];
         Assign ["swap21"] [np "identity"; np "kron"; np "identity"; np "kron"];
         Assign ["swap10"] [np "identity"; np "kron"];
         Assign ["x"] [np "array"];
         Assign ["x_all"] [np "kron"; np "kron"; np "kron"];
         Assign ["u"] [];
         Return [] ] |}.

Definition classical_predicate : fundef :=
  {| notebook := "grover";
     name := "classical_predicate";
     is_qfunc := false;
     body := [ Return [] ] |}.

Definition haar : fundef :=
  {| notebook := "quantum_volume";
     name := "haar";
     is_qfunc := false;
     body :=
       [ Assign ["u1"] [Call scipy "unitary_group.rvs"];
         Assign ["u2"] [Call scipy "unitary_group.rvs"];
         Assign ["Z"] [];
         Assign ["Q"; "R"] [np "linalg.qr"];
         For "i" [py "range"] [ Expr [np "abs"] ];
         Assign ["Lambda"] [np "diag"];
         Return [np "dot"] ] |}.

Definition qv_layer : fundef :=
  {| notebook := "quantum_volume";
     name := "qv_layer";
     is_qfunc := false;
     body :=
       [ Assign ["qubit_list"] [py "range"; py "list"];
         Expr [Call pyrandom "shuffle"];
         For "idx" [Call pymath "floor"; py "range"]
           [ Assign ["a"] [];
             Assign ["b"] [Call pymath "floor"];
             Assign ["gate_matrix"] [Call local_def "haar"; np "tolist"];
             Expr [Call local_qfunc "apply_2qbit_unitary"] ] ] |}.

(** The [main] that [qv_model] defines and decorates. *)
Definition qv_main_body : list stmt :=
  [ Expr [Call classiq "allocate"];
    For "idx" [py "range"] [ Expr [Call local_def "qv_layer"] ] ].

Definition qv_main : fundef :=
  {| notebook := "quantum_volume";
     name := "main";
     is_qfunc := true;
     body := qv_main_body |}.

Definition qv_model : fundef :=
  {| notebook := "quantum_volume";
     name := "qv_model";
     is_qfunc := false;
     body :=
       [ Def "main" ["qfunc"] qv_main_body;
         Return [Call classiq "create_model"] ] |}.

Definition execute_qv : fundef :=
  {| notebook := "quantum_volume";
     name := "execute_qv";
     is_qfunc := false;
     body :=
       [ Assign ["qprog"]
           [ Call classiq "ExecutionPreferences";
             Call classiq "set_quantum_program_execution_preferences" ];
         Assign ["results"] [Call classiq "execute"; Call classiq "result"];
         Return [] ] |}.

Definition heavy_outputs_prob : fundef :=
  {| notebook := "quantum_volume";
     name := "heavy_outputs_prob";
     is_qfunc := false;
     body :=
       [ Assign ["d"] [py "values"; py "list"];
         Assign ["med"] [np "median"];
         Assign ["heavy_outputs_prob"] [];
         For "count, item" [py "enumerate"]
           [ If [] [ Assign ["heavy_outputs_prob"] [] ] [] ];
         Return [] ] |}.

Definition round_significant : fundef :=
  {| notebook := "quantum_volume";
     name := "round_significant";
     is_qfunc := false;
     body :=
       [ Return [ py "abs"; Call pymath "log10"; Call pymath "floor";
                  py "int"; py "round" ] ] |}.

Definition find_qv : fundef :=
  {| notebook := "quantum_volume";
     name := "find_qv";
     is_qfunc := false;
     body :=
       [ Assign ["qubit_num"] [py "range"];
         Assign ["heavy_list"] [np "zeros"];
         Assign ["std_list"] [np "zeros"];
         Assign ["qubit_v"] [];
         For "num" [Call tqdm "tqdm"]
           [ Assign ["heavy_outputs"] [];
             Assign ["std"] [];
             Assign ["heavytostd"] [np "zeros"];
             For "idx" [py "range"; Call tqdm "tqdm"]
               [ Assign ["model"] [Call local_def "qv_model"];
                 Assign ["qprog"] [Call classiq "synthesize"];
                 Assign ["results"] [Call local_def "execute_qv"];
                 Assign ["heavy_temp"] [Call local_def "heavy_outputs_prob"];
                 Assign ["heavy_outputs"] [];
                 Assign ["heavytostd[idx]"] [] ];
             Assign ["s"] [];
             Assign ["heavy_list[s]"] [];
             Assign ["temp_hl"] [];
             Assign ["std"] [np "std"];
             Assign ["std_list[s]"] [];
             Assign ["temp_std"] [Call local_def "round_significant"];
             Expr [py "print"] ];
         For "num" []
           [ Assign ["s"] [];
             Assign ["heavy_is"] [];
             If [] [ Assign ["qubit_v"] [] ] [ BreakStmt ] ];
         Assign ["qv"] [];
         Expr [py "print"];
         Return [] ] |}.

(** Every function definition of the repository, notebook by notebook.
    The optimization tutorial defines none. *)
Definition functions : list fundef :=
  [ get_modular_multiplication_matrix;
    of_qfunc "shor" ShorNotebook.modular_exponentiation;
    of_qfunc "shor" ShorNotebook.period_finding;
    of_qfunc "shor" ShorNotebook.main;
    of_qfunc "comparator_example" Comparator.Example1.main;
    of_qfunc "comparator_example" Comparator.Example2.main;
    of_qfunc "extremum_example" Extremum.Example1.main;
    of_qfunc "extremum_example" Extremum.Example2.main;
    of_qfunc "bitwise_or_example" BitwiseOr.Example1.main;
    of_qfunc "bitwise_or_example" BitwiseOr.Example2.main;
    of_qfunc "negation_example" Negation.main;
    of_qfunc "subtraction_example" Subtraction.Example1.main;
    of_qfunc "subtraction_example" Subtraction.Example2.main;
    of_qfunc "suzuki_trotter" SuzukiTrotter.main;
    of_qfunc "unitary_example" UnitaryExample.main;
    of_qfunc "linear_pauli_rotations" LinearPauliRotations.main;
    classical_predicate;
    haar;
    of_qfunc "quantum_volume" QuantumVolume.apply_2qbit_unitary;
    qv_layer;
    qv_main;
    qv_model;
    execute_qv;
    heavy_outputs_prob;
    round_significant;
    find_qv ].

(** *** What the statements about the code's shape look at *)

Definition into_platform (c : call) : bool :=
  match from c with
  | classiq | local_qfunc => true
  | _ => false
  end.

Definition shows_results (c : call) : bool :=
  match from c with
  | builtin => String.eqb (callee c) "print"
  | _ => false
  end.

Definition numeric (c : call) : bool :=
  match from c with
  | numpy | scipy | pymath | pyrandom => true
  | _ => false
  end.


(** Forwards to the platform, or prints what came back. *)
Definition thin (f : fundef) : bool :=
  existsb into_platform (calls f) || existsb shows_results (calls f).

Definition computes (f : fundef) : bool := existsb numeric (calls f).







Definition names_where (p : fundef -> bool) : list string :=
  map name (filter p functions).

End Inventory.

(** ** Vocabulary of the statements *)

(** The total of a list of counts. *)
Fixpoint Zsum (l : list Z) : Z :=
  match l with
  | [] => 0
  | x :: t => x + Zsum t
  end.

(** The median of a list of counts as a number: the middle count in
    ascending order, or half the sum of the two middle counts. *)
Definition exact_median (d : list Z) : Q :=
  let s := Numpy.sort d in
  let n := List.length s in
  if Nat.even n
  then Qdiv (inject_Z (nth (n / 2 - 1)%nat s 0 + nth (n / 2)%nat s 0)) 2
  else inject_Z (nth (n / 2)%nat s 0).

Inductive ascending : list Z -> Prop :=
| asc_nil : ascending []
| asc_one x : ascending [x]
| asc_cons x y l : x <= y -> ascending (y :: l) -> ascending (x :: y :: l).

(** ** A platform to run the notebooks on

    The statements below hold for every platform.  To run the code on
    concrete data one is fixed here: programs are numbered, the backend
    answers each execution from a table of counts, the shuffle reverses,
    and the square root is taken to twelve decimal places. *)

Module Sample.
Import Py Qmod Classiq.

Definition sqrt12 (q : Q) : Q :=
  Z.sqrt (Qnum q * 10 ^ 24 / Z.pos (Qden q)) # 1000000000000.

#[export] Instance sample_sqrt : Numpy.Sqrt.
Proof.
  refine {| Numpy.sqrt := sqrt12 |}.
  intros [n d] Hq. unfold Qeq in Hq. simpl in Hq.
  assert (n = 0) as -> by lia. reflexivity.
Defined.

#[export] Instance sample_random : Random.
Proof.
  refine {| shuffle_answer := fun _ l => rev l;
            haar_answer := fun _ _ => UnitaryExample.UNITARY |}.
  intros _ l. apply Permutation_sym, Permutation_rev.
Defined.

Definition table (l : list Z) : details :=
  {| counts := combine ["00"; "01"; "10"; "11"]%string l;
     parsed_counts := [] |}.

(** The backend to a program number [k]: noisier as [k] grows. *)
Definition backend_counts (k : nat) : details :=
  table [50 + Z.of_nat (k mod 7); 30; 15 - Z.of_nat (k mod 7); 5].

#[export] Instance sample_platform : Platform :=
  {| qprog := nat;
     synthesize_answer := fun k _ => k;
     set_preferences_answer := fun q _ => q;
     execute_answer := fun k _ => backend_counts k;
     solution_answer := fun _ _ _ => [];
     default_penalty_energy := 2 |}.

End Sample.

(** ** Vocabulary for runs *)

Module Run.
Import Py Qmod Classiq.

Inductive step := Build | Write | Synth | Prefs | Exec | Solve | Shown.

Definition step_eqb (a b : step) : bool :=
  match a, b with
  | Build, Build | Write, Write | Synth, Synth | Prefs, Prefs
  | Exec, Exec | Solve, Solve | Shown, Shown => true
  | _, _ => false
  end.

Definition kind `{Platform} (e : event) : step :=
  match e with
  | CreateModel _ => Build
  | WriteQmod _ _ => Write
  | Synthesize _ _ => Synth
  | ShowCircuit _ => Shown
  | SetPreferences _ _ _ => Prefs
  | Execute _ _ => Exec
  | GetSolution _ _ => Solve
  | Display _ => Shown
  end.

(** The steps [p] occur in [t] in this order, other steps between them
    allowed. *)
Fixpoint in_order (p t : list step) : bool :=
  match p, t with
  | [], _ => true
  | _ :: _, [] => false
  | a :: p', b :: t' =>
      if step_eqb a b then in_order p' t' else in_order p t'
  end.

Definition occurs (s : step) (t : list step) : bool := existsb (step_eqb s) t.

(** Every model written or synthesized was built before, every program
    shown, configured or executed was returned by [synthesize] before
    (or by [set_quantum_program_execution_preferences] from such a one),
    every result handed back to the platform came from [execute]. *)
Fixpoint sourced `{Platform} (models : list model) (progs : list qprog)
         (results : list details) (t : list event) : Prop :=
  match t with
  | [] => True
  | CreateModel m :: t' => sourced (m :: models) progs results t'
  | WriteQmod m _ :: t' => In m models /\ sourced models progs results t'
  | Synthesize m q :: t' =>
      In m models /\ sourced models (q :: progs) results t'
  | ShowCircuit q :: t' => In q progs /\ sourced models progs results t'
  | SetPreferences q _ q' :: t' =>
      In q progs /\ sourced models (q' :: progs) results t'
  | Execute q r :: t' =>
      In q progs /\ sourced models progs (r :: results) t'
  | GetSolution r _ :: t' => In r results /\ sourced models progs results t'
  | Display _ :: t' => sourced models progs results t'
  end.

End Run.

(** ** Vocabulary for the runs with loops *)

Module Shape.
Import Py Qmod Classiq.

Definition is_display `{Platform} (e : event) : Prop :=
  match e with
  | Display _ => True
  | _ => False
  end.

(** The programs in an event are the platform's answers. *)
Definition from_platform `{Platform} (e : event) : Prop :=
  match e with
  | Synthesize m q => exists k, q = synthesize_answer k m
  | SetPreferences q p q' => q' = set_preferences_answer q p
  | Execute q r => exists k, r = execute_answer k q
  | _ => True
  end.

(** One trial of the quantum volume search: a model is built,
    synthesized, given its preferences and executed. *)
Inductive trial `{Platform} : list event -> Prop :=
| trial_intro m k p k' :
    let q := synthesize_answer k m in
    let q' := set_preferences_answer q p in
    trial [ CreateModel m; Synthesize m q; SetPreferences q p q';
            Execute q' (execute_answer k' q') ].

(** A run of the search: trials and printed lines. *)
Inductive qv_run `{Platform} : list event -> Prop :=
| qv_run_nil : qv_run []
| qv_run_trial t rest : trial t -> qv_run rest -> qv_run (t ++ rest)
| qv_run_print d rest : qv_run rest -> qv_run (Display d :: rest).

(** A computation returns from every world. *)
Definition returns {W A} (c : M W A) : Prop :=
  forall w, exists a w', c w = (Returned a, w').

(** Whatever the world, the events a computation adds to the log
    satisfy [R]. *)
Definition emits `{Platform} (R : list event -> Prop) {A}
           (c : M world A) : Prop :=
  forall w, exists t, R t /\ log (snd (c w)) = log w ++ t.

(** The events a computation adds to the log of [w] begin with a block
    satisfying [P]. *)
Definition starts `{Platform} (P : list event -> Prop) {A}
           (c : M world A) (w : world) : Prop :=
  exists t rest, P t /\ log (snd (c w)) = log w ++ t ++ rest.

(** The run of a computation from the empty world ended without an
    exception. *)
Definition completes `{Platform} {A} (c : M world A) : Prop :=
  exists a, fst (c start) = Returned a.

End Shape.

(** ** What is asked of a notebook's run *)

Module Order.
Import Py Qmod Classiq Run Shape Repository.

Section Notebook.
Context `{Platform}.

Definition kinds (nb : M world unit) : list step := map kind (trace nb).

(** The four steps in their order: build, synthesize, execute, show. *)
Definition four_steps (nb : M world unit) : Prop :=
  in_order [Build; Synth; Exec; Shown] (kinds nb) = true.

Definition builds_then_synthesizes (nb : M world unit) : Prop :=
  in_order [Build; Synth] (kinds nb) = true
  /\ sourced [] [] [] (trace nb).

Definition executes_then_shows (nb : M world unit) : Prop :=
  in_order [Build; Synth; Exec] (kinds nb) = true
  /\ (completes nb -> four_steps nb).

Definition stops_after_synthesis (nb : M world unit) : Prop :=
  occurs Exec (kinds nb) = false /\ occurs Shown (kinds nb) = false.

End Notebook.

(** The notebooks that only show how a model is synthesized. *)
Definition synthesis_only : list string :=
  ["suzuki_trotter"; "unitary_example"; "linear_pauli_rotations"]%string.

Definition is_synthesis_only (name : string) : bool :=
  existsb (String.eqb name) synthesis_only.

End Order.

(** ** What is asked of the function definitions *)

Module Shapes.
Import Source Inventory.
Local Open Scope string_scope.

(** The functions that neither call the platform nor print. *)
Definition classical_helpers : list string :=
  [ "get_modular_multiplication_matrix"; "classical_predicate"; "haar";
    "heavy_outputs_prob"; "round_significant" ].

(** Every function forwards to the platform or prints its results, and
    none calls a numerical routine. *)
Definition every_function_is_thin : Prop :=
  Forall (fun f => thin f = true /\ computes f = false) functions.



End Shapes.

(** ** What the quantum volume scan decides *)

Module Volume.

(** The test of one qubit count on the two arrays of estimates, in
    doubles as the code computes it. *)
Definition passes (min_qubits : Z) (heavy_list std_list : list Q)
           (num : Z) : bool :=
  let s := Z.to_nat (num - min_qubits) in
  Qle_bool (Float64.div 2 3)
           (Float64.sub (nth s heavy_list 0%Q)
                        (Float64.mul 2 (nth s std_list 0%Q))).

(** The last qubit count reached before the first failure. *)
Fixpoint scan (test : Z -> bool) (nums : list Z) (qubit_v : Z) : Z :=
  match nums with
  | [] => qubit_v
  | num :: rest => if test num then scan test rest num else qubit_v
  end.

(** [k] is the largest qubit count such that every count from
    [min_qubits] to [k] passes, or 0 when [min_qubits] fails. *)
Definition largest_passing (test : Z -> bool) (min_qubits max_qubits k : Z)
  : Prop :=
  (test min_qubits = false /\ k = 0)
  \/ (min_qubits <= k <= max_qubits
      /\ (forall j, min_qubits <= j <= k -> test j = true)
      /\ (k = max_qubits \/ test (k + 1) = false)).

End Volume.

(** ** Vocabulary of the further statements *)

Module Histogram.
Import Qmod.

(** The loop of the Shor notebook over [res.counts.items()]. *)
Definition hist_counting_qubits (counts : list (string * Z))
  : list (string * Z) :=
  fold_left (fun hist kv => ShorNotebook.add_count hist (fst kv) (snd kv))
            counts [].

End Histogram.

Module GroverCheck.
Import Py Qmod Classiq.
Local Open Scope string_scope.

(** The values of a register of the search space: [size] qubits. *)
Definition register_values (size : Z) : list Z := range 0 (2 ^ size).

(** The assignments of the registers [a], [b], [c] declared in
    [definitions]. *)
Definition search_space : list (Z * Z * Z) :=
  list_prod (list_prod (register_values 2) (register_values 2))
            (register_values 3).

Definition solutions : list (Z * Z * Z) :=
  filter (fun '(a, b, c) => Grover.classical_predicate a b c) search_space.

(** [int(parsed_res[name])] where the key is there. *)
Definition register (row : parsed_state) (name : string) : Z :=
  match dict_getitem (state row) name with
  | Returned v => int v
  | Raised _ => 0
  end.

Definition has_registers (row : parsed_state) : bool :=
  forallb (fun name => match dict_getitem (state row) name with
                       | Returned _ => true
                       | Raised _ => false
                       end) ["a"; "b"; "c"].

(** The line printed for one measured state. *)
Definition check_line (row : parsed_state) : shown :=
  let '(a, b, c) := (register row "a", register row "b", register row "c") in
  PrintedCheck a b c (Grover.classical_predicate a b c).

(** A measured state of the three registers. *)
Definition measured (a b c : Z) (shots : Z) : parsed_state :=
  {| state := [("a", inject_Z a); ("b", inject_Z b); ("c", inject_Z c)];
     shots := shots |}.

(** A platform that reports four measured states, to run the cell on. *)
Definition measured_platform : Platform :=
  {| qprog := nat;
     synthesize_answer := fun k _ => k;
     set_preferences_answer := fun q _ => q;
     execute_answer := fun _ _ =>
       {| counts := [];
          parsed_counts := [ measured 1 3 4 300; measured 0 2 6 280;
                             measured 3 3 7 270; measured 1 1 1 20 ] |};
     solution_answer := fun _ _ _ => [];
     default_penalty_energy := 2 |}.

End GroverCheck.

Module Layer.
Import Qmod QuantumVolume.

(** The two qubits that a statement of a layer acts on. *)
Definition gate_qubits (s : qstmt) : list Z :=
  match s with
  | QCallFunc _ [_; Index _ a; Index _ b] => [a; b]
  | _ => []
  end.

Definition layer_qubits (calls : list qstmt) : list Z :=
  flat_map gate_qubits calls.

(** A call of [apply_2qbit_unitary] on two qubits of [target]. *)
Definition is_gate (target : string) (s : qstmt) : Prop :=
  exists m a b,
    s = QCallFunc apply_2qbit_unitary
          [Matrix m; Index target a; Index target b].

(** A layer on [N] qubits: [N // 2] gates on qubits of [target] that are
    all different. *)
Definition is_layer (target : string) (N : Z) (calls : list qstmt) : Prop :=
  List.length calls = Z.to_nat (N / 2)
  /\ Forall (is_gate target) calls
  /\ NoDup (layer_qubits calls)
  /\ Forall (fun q => 0 <= q < N) (layer_qubits calls).

(** The model that [qv_model(N)] builds: [N] qubits allocated, then [N]
    layers. *)
Definition is_qv_model (N : Z) (m : model) : Prop :=
  exists layers,
    m = ModelOf (QFunc "main" ["target"%string]
                   (QCall "allocate" [Int N; Var "target"]
                    :: concat layers))
    /\ List.length layers = Z.to_nat N
    /\ Forall (is_layer "target" N) layers.

End Layer.

Module Trials.
Import Py Qmod Classiq QuantumVolume Layer.

(** The two estimates of one qubit count from the results of its
    trials, in doubles as the code computes them: the heavy counts added
    up as integers and divided by [num_trials * num_shots], and [np.std]
    of the heavy counts divided by the same number. *)
Definition heavy_fraction (num_trials num_shots : Z) (rs : list details)
  : Q :=
  Float64.round (inject_Z (Zsum (map heavy_outputs_prob rs))
                 / inject_Z (num_trials * num_shots)).

Definition heavy_deviation `{Numpy.Sqrt} (num_trials num_shots : Z)
           (rs : list details) : Q :=
  Float64.div
    (Numpy.std (map (fun r => Float64.of_int (heavy_outputs_prob r)) rs))
    (Float64.of_int (num_trials * num_shots)).

(** A result of [num_shots] shots: no count is negative and the counts
    add up to [num_shots]. *)
Definition shots_of (num_shots : Z) (r : details) : Prop :=
  Forall (fun c => 0 <= c) (map snd (counts r))
  /\ Zsum (map snd (counts r)) = num_shots.

Section Runs.
Context `{Platform} `{Numpy.Sqrt}.

(** The results of the executions in a log, in their order. *)
Definition executed (t : list event) : list details :=
  flat_map (fun e => match e with Execute _ r => [r] | _ => [] end) t.



(** One trial on [num] qubits: a model of [qv_model(num)] is built and
    synthesized, the program is given the preferences [p] and executed
    with the result [r]. *)
Definition trial_of (num : Z) (p : ExecutionPreferences) (r : details)
           (t : list event) : Prop :=
  exists m k k',
    let q := synthesize_answer k m in
    let q' := set_preferences_answer q p in
    is_qv_model num m
    /\ r = execute_answer k' q'
    /\ t = [ CreateModel m; Synthesize m q; SetPreferences q p q';
            Execute q' r ].

(** The trials of one qubit count, one after the other. *)
Inductive trials (num : Z) (p : ExecutionPreferences)
  : list details -> list event -> Prop :=
| trials_nil : trials num p [] []
| trials_cons r rs t rest :
    trial_of num p r t -> trials num p rs rest ->
    trials num p (r :: rs) (t ++ rest).

(** The line that [find_qv] prints for the qubit count [num] after the
    trials with the results [rs]. *)
Definition is_line (num_trials num_shots num : Z) (rs : list details)
           (d : shown) : Prop :=
  exists temp_std,
    round_significant (heavy_deviation num_trials num_shots rs)
    = Returned temp_std
    /\ d = Printed [inject_Z num; heavy_fraction num_trials num_shots rs;
                    temp_std].

(** The first part of [find_qv]: for each qubit count its trials, then
    the printed line. *)
Inductive rounds (num_trials num_shots : Z) (p : ExecutionPreferences)
  : list Z -> list (list details) -> list event -> Prop :=
| rounds_nil : rounds num_trials num_shots p [] [] []
| rounds_cons num nums rs chunks t d rest :
    trials num p rs t ->
    is_line num_trials num_shots num rs d ->
    rounds num_trials num_shots p nums chunks rest ->
    rounds num_trials num_shots p (num :: nums) (rs :: chunks)
           (t ++ Display d :: rest).

(** How many events of a log are steps of the kind [s]. *)
Definition count (s : Run.step) (t : list event) : nat :=
  List.length (filter (fun e => Run.step_eqb (Run.kind e) s) t).


End Runs.

(** A platform whose backend answers every execution with the same
    counts. *)
Definition steady_platform : Platform :=
  {| qprog := nat;
     synthesize_answer := fun k _ => k;
     set_preferences_answer := fun q _ => q;
     execute_answer := fun _ _ => Sample.table [50; 30; 15; 5];
     solution_answer := fun _ _ _ => [];
     default_penalty_energy := 2 |}.

End Trials.

Module Best.

(** Position [i] of [costs] holds the least cost [m], and no earlier
    position does. *)
Definition first_least (costs : list Q) (i : nat) (m : Q) : Prop :=
  nth_error costs i = Some m
  /\ Forall (fun c => (m <= c)%Q) costs
  /\ (forall j c, (j < i)%nat -> nth_error costs j = Some c -> (m < c)%Q).

End Best.

Module CallGraph.
Import Source Inventory.
Local Open Scope string_scope.






End CallGraph.

(** * Properties *)

Lemma Forall_of_forallb {A} (p : A -> bool) (P : A -> Prop) (l : list A) :
  (forall a, p a = true -> P a) -> forallb p l = true -> Forall P l.
Proof.
  intros Hp Hl. apply Forall_forall. intros a Ha.
  apply Hp. rewrite forallb_forall in Hl. auto.
Qed.

(** ** The modular multiplication matrix *)

Section ShorFacts.
Import Shor.

Lemma matrix_shape :
  List.length get_modular_multiplication_matrix = 16%nat
  /\ Forall (fun r => List.length r = 16%nat)
            get_modular_multiplication_matrix.
Proof.
  split; [reflexivity | ].
  apply (Forall_of_forallb (fun r => Nat.eqb (List.length r) 16)).
  - intros r. apply Nat.eqb_eq.
  - vm_compute; reflexivity.
Qed.

Lemma is_bit_spec c : is_bit c = true -> c = C0 \/ c = C1.
Proof.
  destruct c as [re im]. unfold is_bit, Cre, Cim, C0, C1. simpl.
  rewrite andb_true_iff, orb_true_iff, !Z.eqb_eq.
  intros [-> [-> | ->]]; auto.
Qed.

Lemma matrix_entries :
  Forall (Forall (fun c => c = C0 \/ c = C1))
         get_modular_multiplication_matrix.
Proof.
  apply (Forall_of_forallb (forallb is_bit)).
  - intros r. apply Forall_of_forallb. apply is_bit_spec.
  - vm_compute; reflexivity.
Qed.

Lemma matrix_rows :
  Forall (fun r => count_ones r = 1%nat) get_modular_multiplication_matrix.
Proof.
  apply (Forall_of_forallb (fun r => Nat.eqb (count_ones r) 1)).
  - intros r. apply Nat.eqb_eq.
  - vm_compute; reflexivity.
Qed.

Lemma matrix_columns :
  Forall (fun j =>
            count_ones (column get_modular_multiplication_matrix j) = 1%nat)
         (seq 0 16).
Proof.
  apply (Forall_of_forallb
           (fun j =>
              Nat.eqb (count_ones (column get_modular_multiplication_matrix j))
                      1)).
  - intros r. apply Nat.eqb_eq.
  - vm_compute; reflexivity.
Qed.

Lemma matrix_orthogonal :
  (get_modular_multiplication_matrix
   @ transpose get_modular_multiplication_matrix)%mat = identity 16.
Proof. vm_compute; reflexivity. Qed.

Lemma small_cases (P : Z -> Prop) :
  P 1 -> P 2 -> P 3 -> P 4 -> P 5 -> P 6 -> P 7 -> P 8 -> P 9 -> P 10 ->
  P 11 -> P 12 -> P 13 -> P 14 ->
  forall x, 1 <= x <= 14 -> P x.
Proof.
  intros H1 H2 H3 H4 H5 H6 H7 H8 H9 H10 H11 H12 H13 H14 x Hx.
  assert (x = 1 \/ x = 2 \/ x = 3 \/ x = 4 \/ x = 5 \/ x = 6 \/ x = 7 \/
          x = 8 \/ x = 9 \/ x = 10 \/ x = 11 \/ x = 12 \/ x = 13 \/ x = 14)
    as Hc by lia.
  repeat (destruct Hc as [-> | Hc]; [assumption | ]); subst; assumption.
Qed.

Lemma matrix_times_seven :
  forall x, 1 <= x <= 14 ->
    matvec get_modular_multiplication_matrix (basis 16 x)
    = basis 16 (7 * x mod 15).
Proof. apply small_cases; vm_compute; reflexivity. Qed.

Lemma matrix_swaps_ends :
  matvec get_modular_multiplication_matrix (basis 16 0) = basis 16 15
  /\ matvec get_modular_multiplication_matrix (basis 16 15) = basis 16 0.
Proof. split; vm_compute; reflexivity. Qed.

(** C5: [get_modular_multiplication_matrix] returns a 16 x 16 matrix whose
    entries are the real numbers 0 and 1, with exactly one 1 in each row
    and in each column, so that it is orthogonal; applied to a basis
    state it sends [x] to [7 * x mod 15] for [1 <= x <= 14] and exchanges
    0 and 15. *)
Theorem modular_multiplication_matrix_is_times_seven :
  (List.length get_modular_multiplication_matrix = 16%nat
   /\ Forall (fun r => List.length r = 16%nat)
             get_modular_multiplication_matrix)
  /\ Forall (Forall (fun c => c = C0 \/ c = C1))
            get_modular_multiplication_matrix
  /\ Forall (fun r => count_ones r = 1%nat) get_modular_multiplication_matrix
  /\ Forall (fun j =>
               count_ones (column get_modular_multiplication_matrix j) = 1%nat)
            (seq 0 16)
  /\ (get_modular_multiplication_matrix
      @ transpose get_modular_multiplication_matrix)%mat = identity 16
  /\ (forall x, 1 <= x <= 14 ->
        matvec get_modular_multiplication_matrix (basis 16 x)
        = basis 16 (7 * x mod 15))
  /\ matvec get_modular_multiplication_matrix (basis 16 0) = basis 16 15
  /\ matvec get_modular_multiplication_matrix (basis 16 15) = basis 16 0.
Proof.
  split; [exact matrix_shape | ].
  split; [exact matrix_entries | ].
  split; [exact matrix_rows | ].
  split; [exact matrix_columns | ].
  split; [exact matrix_orthogonal | ].
  split; [exact matrix_times_seven | ].
  exact matrix_swaps_ends.
Qed.

End ShorFacts.

Lemma modular_multiplication_matrix_witness :
  Shor.matvec Shor.get_modular_multiplication_matrix (Shor.basis 16 2)
  = Shor.basis 16 (7 * 2 mod 15).
Proof.
  apply (proj1 (proj2 (proj2 (proj2 (proj2 (proj2
           modular_multiplication_matrix_is_times_seven)))))).
  lia.
Defined.

(** ** Doubles *)

Section Float64Facts.
Import Float64.
Local Open Scope Q_scope.

Lemma two_pos (k : Z) : 0 < 2 ^ k.
Proof. apply Qpower_0_lt. reflexivity. Qed.

Lemma two_nonzero (k : Z) : ~ 2 ^ k == 0.
Proof.
  intros C. pose proof (two_pos k) as P. rewrite C in P.
  apply (Qlt_irrefl 0 P).
Qed.

Lemma two_add (a b : Z) : 2 ^ (a + b) == 2 ^ a * 2 ^ b.
Proof. apply Qpower_plus. discriminate. Qed.

Lemma two_succ (a : Z) : 2 ^ (a + 1) == 2 * 2 ^ a.
Proof. rewrite two_add. simpl. ring. Qed.

Lemma two_inject (n : Z) : (0 <= n)%Z -> 2 ^ n == inject_Z (2 ^ n).
Proof. intros H. rewrite Zpower_Qpower by exact H. reflexivity. Qed.

(** The exponent of a number between two consecutive powers of two. *)
Lemma binade_unique (q : Q) (e e' : Z) :
  2 ^ e <= q < 2 ^ (e + 1) -> 2 ^ e' <= q < 2 ^ (e' + 1) -> e = e'.
Proof.
  intros [H1 H2] [H3 H4].
  assert (2 ^ e < 2 ^ (e' + 1)) as Ha by (eapply Qle_lt_trans; eauto).
  assert (2 ^ e' < 2 ^ (e + 1)) as Hb by (eapply Qle_lt_trans; eauto).
  apply Qpower_lt_compat_l_inv in Ha; [ | reflexivity].
  apply Qpower_lt_compat_l_inv in Hb; [ | reflexivity].
  lia.
Qed.

Lemma log2_bounds (n : Z) :
  (0 < n)%Z -> inject_Z (2 ^ Z.log2 n) <= inject_Z n
               /\ inject_Z n < inject_Z (2 ^ (Z.log2 n + 1)).
Proof.
  intros Hn. destruct (Z.log2_spec n Hn) as [H1 H2].
  rewrite <- Zle_Qle, <- Zlt_Qlt. split; [exact H1 | ].
  replace (Z.log2 n + 1)%Z with (Z.succ (Z.log2 n)) by lia. exact H2.
Qed.

Lemma exponent_spec (q : Q) :
  ~ q == 0 -> 2 ^ exponent q <= Qabs q < 2 ^ (exponent q + 1).
Proof.
  intros Hq. unfold exponent.
  set (n := Z.abs (Qnum q)). set (d := Z.pos (Qden q)).
  assert (0 < n)%Z as Hn.
  { unfold n. assert (Qnum q <> 0%Z); [ | lia].
    intros E. apply Hq. unfold Qeq. simpl. rewrite E. reflexivity. }
  assert (Qabs q == inject_Z n / inject_Z d) as Eq.
  { unfold n, d. destruct q as [a b]. unfold Qabs, Qeq, Qdiv, Qmult, Qinv.
    simpl. lia. }
  assert (0 < d)%Z as Hd by (unfold d; lia).
  destruct (log2_bounds n Hn) as [N1 N2].
  destruct (log2_bounds d Hd) as [D1 D2].
  pose proof (Z.log2_nonneg n) as Ln. pose proof (Z.log2_nonneg d) as Ld.
  rewrite <- two_inject in N1, N2, D1, D2 by lia.
  assert (0 < inject_Z d) as Hd' by (rewrite <- (Zlt_Qlt 0); exact Hd).
  set (e := (Z.log2 n - Z.log2 d)%Z).
  assert (2 ^ (e - 1) <= Qabs q) as Hlo.
  { rewrite Eq. apply Qle_shift_div_l; [exact Hd' | ].
    apply Qle_trans with (2 ^ (e - 1) * 2 ^ (Z.log2 d + 1)).
    - apply Qmult_le_l; [apply two_pos | apply Qlt_le_weak; exact D2].
    - rewrite <- two_add. replace (e - 1 + (Z.log2 d + 1))%Z with (Z.log2 n)
        by (unfold e; lia). exact N1. }
  assert (Qabs q < 2 ^ (e + 1)) as Hhi.
  { rewrite Eq. apply Qlt_shift_div_r; [exact Hd' | ].
    apply Qlt_le_trans with (2 ^ (Z.log2 n + 1)); [exact N2 | ].
    replace (Z.log2 n + 1)%Z with (e + 1 + Z.log2 d)%Z by (unfold e; lia).
    rewrite two_add. apply Qmult_le_l; [apply two_pos | exact D1]. }
  destruct (Qle_bool (2 ^ e) (Qabs q)) eqn:E.
  - apply Qle_bool_iff in E. split; assumption.
  - split.
    + exact Hlo.
    + replace (e - 1 + 1)%Z with e by lia.
      apply Qnot_le_lt. intros C. apply Qle_bool_iff in C. congruence.
Qed.

Lemma exponent_unique (q : Q) (e : Z) :
  2 ^ e <= Qabs q < 2 ^ (e + 1) -> exponent q = e.
Proof.
  intros H. apply (binade_unique (Qabs q)); [ | exact H].
  apply exponent_spec. intros E. rewrite E in H. simpl in H.
  destruct H as [H _]. pose proof (two_pos e).
  apply (Qlt_irrefl 0). eapply Qlt_le_trans; eauto.
Qed.

Lemma rint_proper (q q' : Q) : q == q' -> rint q = rint q'.
Proof.
  intros E. unfold rint. rewrite (Qfloor_comp _ _ E).
  assert ((q - inject_Z (Qfloor q') ?= 1 # 2)
          = (q' - inject_Z (Qfloor q') ?= 1 # 2)) as ->.
  { apply Qcompare_comp; [rewrite E | ]; reflexivity. }
  reflexivity.
Qed.

Lemma rint_integer (m : Z) : rint (inject_Z m) = m.
Proof.
  unfold rint. rewrite Qfloor_Z.
  assert ((inject_Z m - inject_Z m ?= 1 # 2) = Lt) as ->; [ | reflexivity].
  apply Qlt_alt. unfold Qminus. rewrite Qplus_opp_r. reflexivity.
Qed.

Lemma rint_between (q : Q) (a b : Z) :
  inject_Z a <= q <= inject_Z b -> (a <= rint q <= b)%Z.
Proof.
  intros [Ha Hb].
  pose proof (Qfloor_le q) as F1. pose proof (Qlt_floor q) as F2.
  assert (a <= Qfloor q)%Z as La.
  { apply Qfloor_resp_le in Ha. rewrite Qfloor_Z in Ha. exact Ha. }
  assert (Qfloor q <= b)%Z as Lb.
  { apply Qfloor_resp_le in Hb. rewrite Qfloor_Z in Hb. exact Hb. }
  assert (Qfloor q = b \/ Qfloor q + 1 <= b)%Z as [E | L] by lia.
  - (* the floor is [b]: then [q] is [b] *)
    assert (q == inject_Z b) as Eq.
    { apply Qle_antisym; [exact Hb | rewrite <- E; exact F1]. }
    rewrite (rint_proper _ _ Eq), rint_integer. lia.
  - unfold rint.
    destruct (q - inject_Z (Qfloor q) ?= 1 # 2);
      [destruct (Z.even (Qfloor q)) | | ]; lia.
Qed.

Lemma round_proper (q q' : Q) : q == q' -> round q = round q'.
Proof.
  intros E. unfold round. rewrite (Qeqb_comp _ _ E 0 0 (Qeq_refl 0)).
  destruct (Qeq_bool q' 0) eqn:Z0; [reflexivity | ].
  assert (~ q' == 0) as NZ.
  { intros C. apply Qeq_bool_iff in C. congruence. }
  assert (exponent q = exponent q') as ->.
  { apply exponent_unique. rewrite E. apply exponent_spec, NZ. }
  apply Qred_complete.
  rewrite (rint_proper (q / 2 ^ (exponent q' - 52))
                       (q' / 2 ^ (exponent q' - 52)))
    by (rewrite E; reflexivity).
  reflexivity.
Qed.

Lemma round_0 (q : Q) : q == 0 -> round q = 0.
Proof. intros E. rewrite (round_proper _ _ E). reflexivity. Qed.

Lemma round_nonzero (q : Q) :
  ~ q == 0 ->
  round q == inject_Z (rint (q / 2 ^ (exponent q - 52)))
             * 2 ^ (exponent q - 52).
Proof.
  intros NZ. unfold round.
  destruct (Qeq_bool q 0) eqn:Z0.
  - apply Qeq_bool_iff in Z0. contradiction.
  - apply Qred_correct.
Qed.

Lemma Qabs_two (k : Z) : Qabs (2 ^ k) == 2 ^ k.
Proof. apply Qabs_pos, Qlt_le_weak, two_pos. Qed.

(** A number with at most 53 significant bits is a double. *)
Lemma round_exact_lt (z k : Z) :
  (Z.abs z < 2 ^ 53)%Z -> round (inject_Z z * 2 ^ k) == inject_Z z * 2 ^ k.
Proof.
  intros Hz.
  destruct (Z.eq_dec z 0) as [-> | NZ].
  { rewrite (round_0 (inject_Z 0 * 2 ^ k)); ring. }
  set (q := inject_Z z * 2 ^ k).
  set (L := Z.log2 (Z.abs z)).
  assert (0 < Z.abs z)%Z as Hpos by lia.
  assert (0 <= L < 53)%Z as HL.
  { split; [apply Z.log2_nonneg | ].
    apply Z.log2_lt_pow2; [exact Hpos | exact Hz]. }
  assert (~ q == 0) as Hq.
  { unfold q. intros C. pose proof (two_pos k) as P.
    assert (inject_Z z == 0) as C'.
    { apply (Qmult_inj_r _ _ (2 ^ k)); [apply two_nonzero | rewrite C; ring]. }
    unfold Qeq in C'. simpl in C'. lia. }
  assert (Qabs q == inject_Z (Z.abs z) * 2 ^ k) as Aq.
  { unfold q. rewrite Qabs_Qmult, Qabs_two.
    unfold Qabs, inject_Z. simpl. reflexivity. }
  assert (exponent q = (L + k)%Z) as Ee.
  { apply exponent_unique. rewrite Aq.
    destruct (log2_bounds (Z.abs z) Hpos) as [B1 B2]. fold L in B1, B2.
    rewrite <- two_inject in B1, B2 by lia.
    split.
    - rewrite two_add. apply Qmult_le_r; [apply two_pos | exact B1].
    - replace (L + k + 1)%Z with (L + 1 + k)%Z by lia.
      rewrite two_add. apply Qmult_lt_r; [apply two_pos | exact B2]. }
  rewrite (round_nonzero q Hq), Ee.
  assert (q / 2 ^ (L + k - 52) == inject_Z (z * 2 ^ (52 - L))) as Em.
  { unfold q. rewrite inject_Z_mult, <- two_inject by lia.
    replace k with (52 - L + (L + k - 52))%Z at 1 by lia.
    rewrite two_add.
    pose proof (two_nonzero (L + k - 52)).
    set (a := 2 ^ (L + k - 52)) in *. set (b := 2 ^ (52 - L)) in *.
    field. assumption. }
  rewrite (rint_proper _ _ Em), rint_integer.
  unfold q. rewrite inject_Z_mult, <- two_inject by lia.
  rewrite <- Qmult_assoc, <- two_add.
  replace (52 - L + (L + k - 52))%Z with k by lia. reflexivity.
Qed.

Lemma round_exact (z k : Z) :
  (Z.abs z <= 2 ^ 53)%Z -> round (inject_Z z * 2 ^ k) == inject_Z z * 2 ^ k.
Proof.
  intros Hz.
  assert (Z.abs z < 2 ^ 53 \/ z = 2 ^ 53 \/ z = - 2 ^ 53)%Z
    as [H | [-> | ->]] by lia.
  - apply round_exact_lt, H.
  - assert (inject_Z (2 ^ 53) * 2 ^ k == inject_Z (2 ^ 52) * 2 ^ (k + 1)) as E.
    { rewrite two_succ. change (inject_Z (2 ^ 53)) with (2 * inject_Z (2 ^ 52)).
      ring. }
    rewrite (round_proper _ _ E).
    etransitivity; [apply round_exact_lt; reflexivity | symmetry; exact E].
  - assert (inject_Z (- 2 ^ 53) * 2 ^ k
            == inject_Z (- 2 ^ 52) * 2 ^ (k + 1)) as E.
    { rewrite two_succ.
      change (inject_Z (- 2 ^ 53)) with (2 * inject_Z (- 2 ^ 52)). ring. }
    rewrite (round_proper _ _ E).
    etransitivity; [apply round_exact_lt; reflexivity | symmetry; exact E].
Qed.

Lemma of_int_exact (z : Z) :
  (Z.abs z <= 2 ^ 53)%Z -> of_int z == inject_Z z.
Proof.
  intros Hz. unfold of_int.
  assert (inject_Z z == inject_Z z * 2 ^ 0) as E by (simpl; ring).
  rewrite (round_proper _ _ E).
  etransitivity; [apply round_exact, Hz | symmetry; exact E].
Qed.

Lemma round_half (z : Z) :
  (Z.abs z <= 2 ^ 53)%Z -> round (inject_Z z / 2) == inject_Z z / 2.
Proof.
  intros Hz.
  assert (inject_Z z / 2 == inject_Z z * 2 ^ (-1)) as E by (simpl; field).
  rewrite (round_proper _ _ E).
  etransitivity; [apply round_exact, Hz | symmetry; exact E].
Qed.

(** A binade holds the multiples of its unit from 2^52 to 2^53. *)
Lemma binade_ends (e : Z) :
  2 ^ e == inject_Z (2 ^ 52) * 2 ^ (e - 52)
  /\ 2 ^ (e + 1) == inject_Z (2 ^ 53) * 2 ^ (e - 52).
Proof.
  rewrite <- !two_inject by lia. rewrite <- !two_add.
  split; f_equiv; lia.
Qed.

(** The mantissa of a double: 53 bits. *)
Lemma round_mantissa (q : Q) :
  ~ q == 0 ->
  exists m, (2 ^ 52 <= Z.abs m <= 2 ^ 53)%Z
            /\ (0 < q -> (0 < m)%Z) /\ (q < 0 -> (m < 0)%Z)
            /\ round q == inject_Z m * 2 ^ (exponent q - 52).
Proof.
  intros NZ. exists (rint (q / 2 ^ (exponent q - 52))).
  pose proof (exponent_spec q NZ) as [S1 S2].
  pose proof (round_nonzero q NZ) as Er.
  set (e := exponent q) in *.
  destruct (binade_ends e) as [E1 E2]. rewrite E1 in S1. rewrite E2 in S2.
  pose proof (two_pos (e - 52)) as P.
  set (u := 2 ^ (e - 52)) in *.
  set (lo := inject_Z (2 ^ 52)) in *. set (hi := inject_Z (2 ^ 53)) in *.
  destruct (Qlt_le_dec q 0) as [Neg | Pos].
  - rewrite Qabs_neg in S1, S2 by lra.
    assert (inject_Z (- 2 ^ 53) <= q / u <= inject_Z (- 2 ^ 52)) as B.
    { change (inject_Z (- 2 ^ 53)) with (- hi).
      change (inject_Z (- 2 ^ 52)) with (- lo).
      split; [apply Qle_shift_div_l | apply Qle_shift_div_r];
        try exact P; lra. }
    apply rint_between in B.
    split; [lia | split; [intros Hs; lra | split; [intros _; lia | exact Er]]].
  - rewrite Qabs_pos in S1, S2 by exact Pos.
    assert (lo <= q / u <= hi) as B.
    { split; [apply Qle_shift_div_l | apply Qle_shift_div_r];
        try exact P; lra. }
    apply rint_between in B.
    split; [lia | split; [intros _; lia | split; [intros Hs; lra | exact Er]]].
Qed.
Lemma round_idempotent (q : Q) : round (round q) == round q.
Proof.
  destruct (Qeq_dec q 0) as [Z0 | NZ].
  - rewrite (round_0 q Z0). reflexivity.
  - destruct (round_mantissa q NZ) as [m [Hm [_ [_ E]]]].
    rewrite (round_proper _ _ E).
    etransitivity; [apply round_exact; lia | symmetry; exact E].
Qed.

(** Rounding stays within the binade. *)
Lemma round_binade (q : Q) (e : Z) :
  2 ^ e <= q < 2 ^ (e + 1) -> 2 ^ e <= round q <= 2 ^ (e + 1).
Proof.
  intros [H1 H2].
  pose proof (two_pos e) as Pe.
  assert (0 < q) as Hq by lra.
  assert (~ q == 0) as NZ by (intros C; lra).
  assert (exponent q = e) as Ee.
  { apply exponent_unique. rewrite Qabs_pos by lra. split; assumption. }
  destruct (round_mantissa q NZ) as [m [Hm [Hp [_ E]]]].
  specialize (Hp Hq). rewrite Ee in E. rewrite E.
  pose proof (two_pos (e - 52)) as P.
  destruct (binade_ends e) as [E1 E2]. rewrite E1, E2.
  assert (inject_Z (2 ^ 52) <= inject_Z m <= inject_Z (2 ^ 53)) as [B1 B2].
  { rewrite <- !Zle_Qle. lia. }
  split; apply Qmult_le_compat_r; try assumption; apply Qlt_le_weak, P.
Qed.

Lemma add_exact (x y : Q) (a b : Z) :
  x == inject_Z a -> y == inject_Z b -> (Z.abs (a + b) <= 2 ^ 53)%Z ->
  add x y == inject_Z (a + b).
Proof.
  intros Ex Ey Hab. unfold add.
  assert (x + y == inject_Z (a + b)) as E
    by (rewrite Ex, Ey, inject_Z_plus; reflexivity).
  rewrite (round_proper _ _ E). apply of_int_exact, Hab.
Qed.

(** A quotient between 1/2 and 1 stays there when it is rounded. *)
Lemma round_half_to_one (q : Q) : 1 # 2 <= q <= 1 -> 1 # 2 <= round q <= 1.
Proof.
  intros [H1 H2].
  destruct (Qlt_le_dec q 1) as [Hlt | Hge].
  - apply (round_binade q (-1)). split; [exact H1 | exact Hlt].
  - assert (q == 1) as E by (apply Qle_antisym; assumption).
    rewrite (round_proper _ _ E). split; discriminate.
Qed.

End Float64Facts.

(** ** Sorting and the median *)

Section MedianFacts.
Import Numpy.

Lemma insert_sorted_In x y l : In y (insert_sorted x l) <-> y = x \/ In y l.
Proof.
  induction l as [| z l IH]; simpl.
  - intuition.
  - destruct (x <=? z); simpl; rewrite ?IH; intuition.
Qed.

Lemma sort_In y l : In y (sort l) <-> In y l.
Proof.
  induction l as [| z l IH]; simpl; [tauto | ].
  rewrite insert_sorted_In, IH. intuition.
Qed.

Lemma insert_sorted_length x l :
  List.length (insert_sorted x l) = S (List.length l).
Proof.
  induction l as [| z l IH]; simpl; [reflexivity | ].
  destruct (x <=? z); simpl; rewrite ?IH; reflexivity.
Qed.

Lemma sort_length l : List.length (sort l) = List.length l.
Proof.
  induction l as [| z l IH]; simpl; [reflexivity | ].
  rewrite insert_sorted_length, IH. reflexivity.
Qed.

Lemma insert_sorted_ascending x l :
  ascending l -> ascending (insert_sorted x l).
Proof.
  induction 1 as [| y | y z l Hyz Hl IH]; simpl.
  - constructor.
  - destruct (Z.leb_spec x y); repeat constructor; lia.
  - destruct (Z.leb_spec x y).
    + repeat constructor; auto.
    + simpl in IH. destruct (Z.leb_spec x z).
      * repeat constructor; auto; lia.
      * constructor; auto.
Qed.

Lemma sort_ascending l : ascending (sort l).
Proof.
  induction l; simpl; [constructor | now apply insert_sorted_ascending].
Qed.

Lemma insert_sorted_sum x l : Zsum (insert_sorted x l) = x + Zsum l.
Proof.
  induction l as [| z l IH]; simpl; [reflexivity | ].
  destruct (x <=? z); simpl; rewrite ?IH; lia.
Qed.

Lemma sort_sum l : Zsum (sort l) = Zsum l.
Proof.
  induction l as [| z l IH]; simpl; [reflexivity | ].
  rewrite insert_sorted_sum, IH. reflexivity.
Qed.

(** Every position of the sorted data holds one of the data. *)
Lemma sort_nth_In l i :
  (i < List.length l)%nat -> In (nth i (sort l) 0) l.
Proof.
  intros Hi. apply sort_In. apply nth_In. now rewrite sort_length.
Qed.

(** The median lies between any lower and any upper bound of the data. *)
Lemma median_between (d : list Z) (lo hi : Z) :
  d <> [] ->
  (forall x, In x d -> lo <= x <= hi) ->
  (inject_Z lo <= exact_median d <= inject_Z hi)%Q.
Proof.
  intros Hne Hb. unfold exact_median.
  assert (0 < List.length d)%nat as Hlen.
  { destruct d; [congruence | simpl; lia]. }
  rewrite sort_length.
  set (n := List.length d) in *.
  assert (n / 2 < n)%nat as Hhalf by (apply Nat.div_lt; lia).
  destruct (Nat.even n) eqn:He.
  - assert (n / 2 - 1 < n)%nat as Hhalf' by lia.
    pose proof (Hb _ (sort_nth_In d _ Hhalf)) as H1.
    pose proof (Hb _ (sort_nth_In d _ Hhalf')) as H2.
    set (a := nth (n / 2 - 1) (sort d) 0) in *.
    set (b := nth (n / 2) (sort d) 0) in *.
    unfold Qle, Qdiv, Qmult, Qinv, inject_Z; simpl. lia.
  - pose proof (Hb _ (sort_nth_In d _ Hhalf)) as H1.
    rewrite <- !Zle_Qle. exact H1.
Qed.

Lemma sorted_count_bounds (d : list Z) (i : nat) :
  Forall (fun c => 0 <= c <= 2 ^ 52) d -> 0 <= nth i (sort d) 0 <= 2 ^ 52.
Proof.
  intros Hd. destruct (nth_in_or_default i (sort d) 0) as [Hin | ->]; [ | lia].
  apply (proj1 (sort_In _ _)) in Hin. rewrite Forall_forall in Hd.
  apply Hd, Hin.
Qed.

(** On counts up to 2^52 the conversions, the sum of two counts and its
    half are doubles: [np.median] is the median. *)
Lemma median_exact (d : list Z) :
  Forall (fun c => 0 <= c <= 2 ^ 52) d -> (median d == exact_median d)%Q.
Proof.
  intros Hd. unfold median, exact_median.
  set (n := List.length (sort d)).
  pose proof (sorted_count_bounds d (n / 2 - 1) Hd) as Ha.
  pose proof (sorted_count_bounds d (n / 2) Hd) as Hb.
  set (a := nth (n / 2 - 1) (sort d) 0) in *.
  set (b := nth (n / 2) (sort d) 0) in *.
  destruct (Nat.even n).
  - unfold Float64.div.
    rewrite (round_proper _ (inject_Z (a + b) / 2)).
    + apply round_half. lia.
    + rewrite (add_exact _ _ a b); try reflexivity; try lia.
      all: apply of_int_exact; lia.
  - apply of_int_exact. lia.
Qed.

End MedianFacts.

(** ** The heavy-output count *)

Section HeavyOutputs.
Import Qmod QuantumVolume.

Lemma heavy_loop (p : Z -> bool) (d : list Z) (acc : Z) :
  fold_left (fun h item => if p item then h + item else h) d acc
  = acc + Zsum (filter p d).
Proof.
  revert acc. induction d as [| x d IH]; intros acc; simpl.
  - lia.
  - rewrite IH. destruct (p x); simpl; lia.
Qed.

Lemma Zsum_nonneg (l : list Z) : Forall (fun c => 0 <= c) l -> 0 <= Zsum l.
Proof. induction 1; simpl; lia. Qed.

Lemma Zsum_filter_le (p : Z -> bool) (l : list Z) :
  Forall (fun c => 0 <= c) l -> 0 <= Zsum (filter p l) <= Zsum l.
Proof.
  induction 1 as [| x l Hx Hl IH]; simpl; [lia | ].
  destruct (p x); simpl; lia.
Qed.

Lemma Zsum_In_le (m : Z) (l : list Z) :
  Forall (fun c => 0 <= c) l -> In m l -> m <= Zsum l.
Proof.
  induction 1 as [| x l Hx Hl IH]; simpl; [tauto | ].
  pose proof (Zsum_nonneg l Hl).
  intros [-> | Hin]; [lia | specialize (IH Hin); lia].
Qed.

(** The loop adds the counts that, as doubles, are at least
    [np.median]. *)
Lemma heavy_outputs_prob_filter (results : details) :
  heavy_outputs_prob results
  = Zsum (filter (fun item =>
                    Qle_bool (Numpy.median (map snd (counts results)))
                             (Float64.of_int item))
                 (map snd (counts results))).
Proof. unfold heavy_outputs_prob. rewrite heavy_loop. lia. Qed.

Lemma shot_counts_nonneg (d : list Z) :
  Forall (fun c => 0 <= c <= 2 ^ 52) d -> Forall (fun c => 0 <= c) d.
Proof. apply Forall_impl. intros c Hc. lia. Qed.

(** On counts up to 2^52 these are the counts at or above the median. *)
Lemma heavy_outputs_prob_exact (results : details) :
  Forall (fun c => 0 <= c <= 2 ^ 52) (map snd (counts results)) ->
  heavy_outputs_prob results
  = Zsum (filter (fun item =>
                    Qle_bool (exact_median (map snd (counts results)))
                             (inject_Z item))
                 (map snd (counts results))).
Proof.
  intros Hd. rewrite heavy_outputs_prob_filter. f_equal.
  apply filter_ext_in. intros c Hc.
  rewrite Forall_forall in Hd. pose proof (Hd c Hc) as Hb.
  rewrite <- Forall_forall in Hd.
  apply Qleb_comp; [apply median_exact, Hd | apply of_int_exact; lia].
Qed.

Lemma heavy_outputs_prob_bounds (results : details) :
  Forall (fun c => 0 <= c) (map snd (counts results)) ->
  0 <= heavy_outputs_prob results <= Zsum (map snd (counts results)).
Proof.
  intros Hd. rewrite heavy_outputs_prob_filter. now apply Zsum_filter_le.
Qed.

(** The largest count is never below the median, so it is always counted. *)
Lemma heavy_outputs_prob_max (results : details) (m : Z) :
  Forall (fun c => 0 <= c <= 2 ^ 52) (map snd (counts results)) ->
  In m (map snd (counts results)) ->
  (forall x, In x (map snd (counts results)) -> x <= m) ->
  m <= heavy_outputs_prob results.
Proof.
  intros Hd Hm Hmax. rewrite heavy_outputs_prob_exact by exact Hd.
  apply shot_counts_nonneg in Hd.
  set (d := map snd (counts results)) in *.
  apply Zsum_In_le.
  - apply Forall_forall. intros x Hx. apply filter_In in Hx.
    rewrite Forall_forall in Hd. apply Hd, Hx.
  - apply filter_In. split; [exact Hm | ].
    apply Qle_bool_iff.
    apply (median_between d 0 m).
    + intros ->. destruct Hm.
    + intros x Hx. rewrite Forall_forall in Hd. split; auto.
Qed.

Lemma largest_count (d : list Z) :
  d <> [] -> exists m, In m d /\ forall x, In x d -> x <= m.
Proof.
  induction d as [| a d IH]; [congruence | intros _].
  destruct d as [| b d'].
  - exists a. split; [left; reflexivity | ].
    intros x [-> | []]. lia.
  - destruct IH as [m [Hm Hmax]]; [discriminate | ].
    destruct (Z_le_gt_dec a m).
    + exists m. split; [right; exact Hm | ].
      intros x [-> | Hx]; auto.
    + exists a. split; [left; reflexivity | ].
      intros x [-> | Hx]; [lia | ]. specialize (Hmax x Hx). lia.
Qed.

(** C2, as stated, fails where [np.median] rounds: on the two counts 2^53
    and 2^53 + 1 the median is 2^53 + 1/2 and only the second count is at
    least the median, but [np.median] answers the double 2^53 and the
    loop adds both counts. *)
Lemma heavy_outputs_prob_rounds_the_median :
  let results := {| counts := [("00"%string, 2 ^ 53);
                               ("11"%string, 2 ^ 53 + 1)];
                    parsed_counts := [] |} in
  let d := map snd (counts results) in
  Forall (fun c => 0 <= c) d
  /\ heavy_outputs_prob results = 2 ^ 54 + 1
  /\ Zsum (filter (fun item => Qle_bool (exact_median d) (inject_Z item)) d)
     = 2 ^ 53 + 1
  /\ heavy_outputs_prob results
     <> Zsum (filter (fun item => Qle_bool (exact_median d) (inject_Z item))
                     d).
Proof.
  split; [repeat constructor; discriminate | ].
  split; [vm_compute; reflexivity | ].
  split; [vm_compute; reflexivity | ].
  vm_compute. discriminate.
Qed.

(** C2, as amended: on a non-empty list of shot counts, none above 2^52,
    [heavy_outputs_prob] returns the sum of the counts that are at least
    the median of all counts.  The value is a number of shots between 0
    and the total; it is at least the largest count, so it exceeds 1 as
    soon as some outcome was seen twice: it is not a probability. *)
Theorem heavy_outputs_prob_is_a_shot_count (results : details) :
  map snd (counts results) <> [] ->
  Forall (fun c => 0 <= c <= 2 ^ 52) (map snd (counts results)) ->
  heavy_outputs_prob results
  = Zsum (filter (fun item =>
                    Qle_bool (exact_median (map snd (counts results)))
                             (inject_Z item))
                 (map snd (counts results)))
  /\ 0 <= heavy_outputs_prob results <= Zsum (map snd (counts results))
  /\ (forall m, In m (map snd (counts results)) ->
        (forall x, In x (map snd (counts results)) -> x <= m) ->
        m <= heavy_outputs_prob results)
  /\ ((exists c, In c (map snd (counts results)) /\ 1 < c) ->
      1 < heavy_outputs_prob results).
Proof.
  intros Hne Hd.
  split; [now apply heavy_outputs_prob_exact | ].
  split; [apply heavy_outputs_prob_bounds, shot_counts_nonneg, Hd | ].
  split; [intros m; now apply heavy_outputs_prob_max | ].
  intros [c [Hc H1]].
  destruct (largest_count _ Hne) as [m [Hm Hmax]].
  pose proof (heavy_outputs_prob_max results m Hd Hm Hmax) as Hle.
  specialize (Hmax c Hc). lia.
Qed.

End HeavyOutputs.

Lemma heavy_outputs_prob_witness :
  QuantumVolume.heavy_outputs_prob
    {| Qmod.counts := [("00"%string, 60); ("11"%string, 40)];
       Qmod.parsed_counts := [] |} = 60
  /\ 0 <= 60 <= 100.
Proof.
  pose proof (heavy_outputs_prob_is_a_shot_count
                {| Qmod.counts := [("00"%string, 60); ("11"%string, 40)];
                   Qmod.parsed_counts := [] |}) as H.
  simpl in H.
  destruct H as [Hsum [Hbounds _]].
  - discriminate.
  - repeat constructor; lia.
  - split; [ | lia]. rewrite Hsum. vm_compute. reflexivity.
Defined.

(** ** Reasoning about effects *)

Section Effects.
Import Py Shape.
Context {W : Type}.

Lemma returns_ret {A} (a : A) : returns (W := W) (ret a).
Proof. intros w. exists a, w. reflexivity. Qed.

Lemma returns_bind {A B} (c : M W A) (k : A -> M W B) :
  returns c -> (forall a, returns (k a)) -> returns (bind c k).
Proof.
  intros Hc Hk w. destruct (Hc w) as [a [w' E]].
  destruct (Hk a w') as [b [w'' E']].
  exists b, w''. unfold bind. rewrite E. exact E'.
Qed.

Lemma returns_bind_post {A B} (P : A -> Prop) (c : M W A) (k : A -> M W B) :
  returns c ->
  (forall w a w', c w = (Returned a, w') -> P a) ->
  (forall a, P a -> returns (k a)) -> returns (bind c k).
Proof.
  intros Hc HP Hk w. destruct (Hc w) as [a [w' E]].
  destruct (Hk a (HP _ _ _ E) w') as [b [w'' E']].
  exists b, w''. unfold bind. rewrite E. exact E'.
Qed.

Lemma returns_for_each {A S} (xs : list A) (body : A -> S -> M W S) :
  (forall x, In x xs -> forall acc, returns (body x acc)) ->
  forall acc, returns (for_each xs acc body).
Proof.
  induction xs as [| x xs IH]; intros Hb acc; simpl.
  - apply returns_ret.
  - apply returns_bind.
    + apply Hb. left; reflexivity.
    + intros a. apply IH. intros y Hy. apply Hb. right; exact Hy.
Qed.

Lemma bind_returned_eq {A B} (c : M W A) (k : A -> M W B) w a w' r :
  c w = (Returned a, w') -> k a w' = r -> bind c k w = r.
Proof. intros E <-. unfold bind. rewrite E. reflexivity. Qed.

Lemma bind_raised_eq {A B} (c : M W A) (k : A -> M W B) w e w' :
  c w = (Raised e, w') -> bind c k w = (Raised e, w').
Proof. intros E. unfold bind. rewrite E. reflexivity. Qed.

(** What a [bind] that returned went through. *)
Lemma bind_returned_inv {A B} (c : M W A) (k : A -> M W B) w b w' :
  bind c k w = (Returned b, w') ->
  exists a w1, c w = (Returned a, w1) /\ k a w1 = (Returned b, w').
Proof.
  unfold bind. destruct (c w) as [[a | e] w1]; intros E.
  - exists a, w1. split; [reflexivity | exact E].
  - discriminate.
Qed.

Lemma raises_bind_l {A B} (c : M W A) (k : A -> M W B) w e :
  fst (c w) = Raised e -> fst (bind c k w) = Raised e.
Proof. unfold bind. destruct (c w) as [[a | e'] w']; simpl; congruence. Qed.

Lemma raises_bind_r {A B} (c : M W A) (k : A -> M W B) w a w' e :
  c w = (Returned a, w') -> fst (k a w') = Raised e ->
  fst (bind c k w) = Raised e.
Proof. intros E. unfold bind. rewrite E. auto. Qed.

End Effects.

(** ** Ranges, lists and arrays *)

Section Containers.
Import Py.

Lemma range_In lo hi x : In x (range lo hi) <-> lo <= x < hi.
Proof.
  unfold range. rewrite in_map_iff. split.
  - intros [i [<- Hi]]. apply in_seq in Hi. lia.
  - intros Hx. exists (Z.to_nat (x - lo)). split; [lia | ].
    apply in_seq. lia.
Qed.

Lemma range_length lo hi : List.length (range lo hi) = Z.to_nat (hi - lo).
Proof. unfold range. now rewrite length_map, length_seq. Qed.

Lemma range_cons lo hi : lo < hi -> range lo hi = lo :: range (lo + 1) hi.
Proof.
  intros Hlt. unfold range.
  replace (Z.to_nat (hi - lo)) with (S (Z.to_nat (hi - (lo + 1)))) by lia.
  simpl. f_equal; [lia | ].
  rewrite <- seq_shift, map_map. apply map_ext. intros i. lia.
Qed.

Lemma range_nil lo hi : hi <= lo -> range lo hi = [].
Proof.
  intros Hle. unfold range.
  replace (Z.to_nat (hi - lo)) with O by lia. reflexivity.
Qed.

Lemma list_getitem_returns l i :
  0 <= i < Z.of_nat (List.length l) ->
  exists v, list_getitem l i = Returned v.
Proof.
  intros Hi. unfold list_getitem.
  destruct (Z.leb_spec 0 i); [ | lia].
  destruct (Z.ltb_spec i (Z.of_nat (List.length l))); [ | lia].
  simpl. eauto.
Qed.

Lemma zeros_returns n :
  0 <= n -> Numpy.zeros n = Returned (repeat 0%Q (Z.to_nat n)).
Proof.
  intros Hn. unfold Numpy.zeros.
  destruct (Z.ltb_spec n 0); [lia | reflexivity].
Qed.

Lemma true_div_returns a b :
  b <> 0 ->
  true_div a b = Returned (Float64.round (inject_Z a / inject_Z b)).
Proof.
  intros Hb. unfold true_div.
  destruct (Z.eqb_spec b 0); [contradiction | reflexivity].
Qed.

Lemma setitem_returns (a : list Q) (i : Z) (v : Q) :
  0 <= i < Z.of_nat (List.length a) ->
  Numpy.setitem a i v = Returned (Numpy.update a (Z.to_nat i) v).
Proof.
  intros Hi. unfold Numpy.setitem, Numpy.index.
  destruct (Z.leb_spec 0 i); [ | lia].
  destruct (Z.ltb_spec i (Z.of_nat (List.length a))); [ | lia].
  reflexivity.
Qed.

Lemma getitem_returns (a : list Q) (i : Z) :
  0 <= i < Z.of_nat (List.length a) ->
  Numpy.getitem a i = Returned (nth (Z.to_nat i) a 0%Q).
Proof.
  intros Hi. unfold Numpy.getitem, Numpy.index.
  destruct (Z.leb_spec 0 i); [ | lia].
  destruct (Z.ltb_spec i (Z.of_nat (List.length a))); [ | lia].
  reflexivity.
Qed.

Lemma update_length {A} (l : list A) i v :
  List.length (Numpy.update l i v) = List.length l.
Proof.
  revert i. induction l as [| h t IH]; intros [| j]; simpl; auto.
Qed.

Lemma sum_single (x : Q) : Numpy.sum [x] = Float64.add 0 x.
Proof. reflexivity. Qed.

(** The standard deviation of a single double is 0: the mean is the
    value itself. *)
Lemma std_single `{Numpy.Sqrt} (q : Q) :
  (Numpy.std [Float64.round q] == 0)%Q.
Proof.
  unfold Numpy.std. apply Numpy.sqrt_0.
  set (x := Float64.round q).
  cbn [List.length map Z.of_nat Pos.of_succ_nat].
  rewrite !sum_single.
  assert (Float64.div (Float64.add 0 x) (Float64.of_int 1) == x)%Q as Em.
  { unfold Float64.div, Float64.add.
    rewrite (round_proper (0 + x) x) by ring.
    rewrite (round_proper (Float64.round x / Float64.of_int 1) x).
    - apply round_idempotent.
    - rewrite (of_int_exact 1) by (vm_compute; discriminate).
      unfold x. rewrite round_idempotent. field. }
  assert (Float64.sub x (Float64.div (Float64.add 0 x) (Float64.of_int 1))
          = 0%Q) as ->.
  { apply round_0. rewrite Em. ring. }
  reflexivity.
Qed.

End Containers.

(** ** The quantum volume search *)

Section FindQV.
Import Py Qmod Classiq QuantumVolume Shape.
Context `{Platform} `{Random} `{Numpy.Sqrt}.

Lemma qv_layer_returns target N : returns (qv_layer target N).
Proof.
  unfold qv_layer.
  apply (returns_bind_post (fun ql => List.length ql = Z.to_nat N)).
  - intros w. unfold shuffle, tick, bind, ret. simpl. eauto.
  - intros w ql w'. unfold shuffle, tick, bind, ret. simpl.
    intros E. inversion E; subst.
    rewrite (Permutation_length (shuffle_permutes _ _)).
    rewrite range_length. f_equal. lia.
  - intros ql Hlen. apply returns_for_each.
    intros idx Hidx calls. apply range_In in Hidx.
    assert (0 <= N / 2) by lia.
    assert (2 * (N / 2) <= N) by (apply Z.mul_div_le; lia).
    destruct (list_getitem_returns ql idx) as [a Ea]; [lia | ].
    destruct (list_getitem_returns ql (N / 2 + idx)) as [b Eb]; [lia | ].
    intros w1. unfold lift, bind, haar, tick. rewrite Ea, Eb. simpl.
    unfold ret. eauto.
Qed.

Lemma qv_model_returns N : returns (qv_model N).
Proof.
  unfold qv_model. apply returns_bind.
  - apply returns_for_each. intros idx _ body.
    apply returns_bind; [apply qv_layer_returns | intros; apply returns_ret].
  - intros body w. unfold create_model, build, emit, bind, ret. simpl. eauto.
Qed.

Lemma round_significant_zero (x : Q) :
  (x == 0)%Q -> round_significant x = Raised (ValueError "math domain error").
Proof.
  intros Hx. unfold round_significant, PyMath.floor_log10_abs.
  assert (Qeq_bool (Qabs x) 0 = true) as ->; [ | reflexivity].
  apply Qeq_bool_iff. rewrite Hx. reflexivity.
Qed.

(** C3: with a single trial per qubit count the standard deviation of the
    one heavy-output count is 0, [round_significant] takes its logarithm,
    and [find_qv] raises [ValueError] in its first pass: it returns no
    quantum volume for [num_trials = 1], whatever the platform answers. *)
Theorem find_qv_single_trial_raises
        (num_shots min_qubits max_qubits : Z) (preferences : backend)
        (w : world) :
  1 <= num_shots -> min_qubits <= max_qubits ->
  fst (find_qv 1 num_shots min_qubits max_qubits preferences w)
  = Raised (ValueError "math domain error").
Proof.
  intros Hs Hq. unfold find_qv, calculate_heavy_outputs.
  rewrite zeros_returns by lia.
  rewrite (range_cons min_qubits) by lia.
  set (n := Z.to_nat (max_qubits - min_qubits + 1)).
  assert (0 <= min_qubits - min_qubits
          < Z.of_nat (List.length (repeat 0%Q n)))
    as Hs0 by (rewrite repeat_length; lia).
  set (ns := 1 * num_shots). assert (ns <> 0) as Hns by lia.
  eapply raises_bind_r; [reflexivity | ].
  eapply raises_bind_r; [reflexivity | ].
  apply raises_bind_l.
  simpl for_each at 1.
  apply raises_bind_l.
  eapply raises_bind_r; [reflexivity | ].
  change (range 0 1) with [0].
  destruct (qv_model_returns min_qubits w) as [m [w1 Em]].
  eapply raises_bind_r.
  { simpl for_each. eapply bind_returned_eq.
    - eapply bind_returned_eq; [exact Em | ].
      unfold synthesize, execute_qv, set_quantum_program_execution_preferences,
        execute, tick, emit, bind, ret, lift. simpl. reflexivity.
    - reflexivity. }
  cbv beta iota.
  eapply raises_bind_r;
    [unfold lift; rewrite true_div_returns by exact Hns; reflexivity | ].
  eapply raises_bind_r;
    [unfold lift; rewrite setitem_returns by exact Hs0; reflexivity | ].
  eapply raises_bind_r;
    [unfold lift; rewrite true_div_returns by exact Hns; reflexivity | ].
  eapply raises_bind_r;
    [unfold lift; rewrite setitem_returns by exact Hs0; reflexivity | ].
  apply raises_bind_l. unfold lift. simpl fst.
  apply round_significant_zero.
  unfold Float64.div, Float64.of_int at 1.
  rewrite (round_0 _); [reflexivity | ].
  rewrite std_single. unfold Qdiv. ring.
Qed.

End FindQV.

Section FindQVRuns.
Import Py Qmod Classiq QuantumVolume Sample.

(** The run that the notebook prepares for [ibmq_quito]: one trial of ten
    shots on 2 and 3 qubits. *)
Lemma find_qv_single_trial_witness :
  fst (find_qv 1 10 2 3 (IBMBackend "ibmq_quito" "insert_token_number") start)
  = Raised (ValueError "math domain error").
Proof. apply find_qv_single_trial_raises; lia. Defined.

End FindQVRuns.

(** ** What the quantum volume search returns when it returns *)

Section WhatFindQVReturns.
Import Py Qmod Classiq QuantumVolume Shape Volume.
Context `{Platform} `{Random} `{Numpy.Sqrt}.

Lemma getitem_returned (a : list Q) (i : Z) (v : Q) :
  0 <= i -> Numpy.getitem a i = Returned v -> v = nth (Z.to_nat i) a 0%Q.
Proof.
  intros Hi. unfold Numpy.getitem, Numpy.index.
  destruct (Z.leb_spec 0 i); [ | lia].
  destruct (Z.ltb_spec i (Z.of_nat (List.length a))); simpl.
  - intros E. inversion E. reflexivity.
  - destruct (Z.leb_spec (- Z.of_nat (List.length a)) i);
      destruct (Z.ltb_spec i 0); simpl; try discriminate; lia.
Qed.

(** The second part of [find_qv] leaves the world alone, and when it
    returns, it returns the result of the scan. *)
Lemma determine_is_scan min_qubits heavy_list std_list nums qubit_v
      (w w' : world) k :
  (forall num, In num nums -> min_qubits <= num) ->
  determine_quantum_volume min_qubits nums heavy_list std_list qubit_v w
  = (Returned k, w') ->
  k = scan (passes min_qubits heavy_list std_list) nums qubit_v /\ w' = w.
Proof.
  unfold determine_quantum_volume.
  revert qubit_v. induction nums as [| num rest IH]; intros qubit_v Hge E.
  - simpl in E. inversion E. split; reflexivity.
  - simpl in E.
    apply bind_returned_inv in E. destruct E as [r [w1 [Ebody E]]].
    apply bind_returned_inv in Ebody. destruct Ebody as [h [w2 [Eh Ebody]]].
    apply bind_returned_inv in Ebody. destruct Ebody as [sd [w3 [Es Ebody]]].
    unfold lift in Eh, Es.
    injection Eh as Eh <-. injection Es as Es <-.
    assert (min_qubits <= num) as Hnum by (apply Hge; left; reflexivity).
    apply getitem_returned in Eh; [ | lia].
    apply getitem_returned in Es; [ | lia].
    simpl scan. unfold passes at 1. cbv zeta. rewrite <- Eh, <- Es.
    destruct (Qle_bool (Float64.div 2 3) (Float64.sub h (Float64.mul 2 sd))).
    + inversion Ebody; subst. apply IH in E; [exact E | ].
      intros n Hn. apply Hge. right. exact Hn.
    + inversion Ebody; subst. inversion E. split; reflexivity.
Qed.

Lemma scan_range_spec (test : Z -> bool) (n : nat) :
  forall lo hi qubit_v,
    Z.of_nat n = hi - lo ->
    let k := scan test (range lo hi) qubit_v in
    (k = qubit_v /\ (lo = hi \/ test lo = false))
    \/ (lo <= k < hi
        /\ (forall j, lo <= j <= k -> test j = true)
        /\ (k = hi - 1 \/ test (k + 1) = false)).
Proof.
  induction n as [| n IH]; intros lo hi qubit_v Hn k.
  - left. unfold k. rewrite range_nil by lia. simpl. split; [reflexivity | lia].
  - unfold k. rewrite range_cons by lia. simpl.
    destruct (test lo) eqn:Elo.
    + right.
      destruct (IH (lo + 1) hi lo ltac:(lia))
        as [[Ek Hstop] | [Hk [Hall Hend]]].
      * rewrite Ek. split; [lia | split].
        -- intros j Hj. assert (j = lo) as -> by lia. exact Elo.
        -- destruct Hstop as [Heq | Hfail]; [left; lia | right; exact Hfail].
      * split; [lia | split; [ | exact Hend]].
        intros j Hj. destruct (Z.eq_dec j lo) as [-> | Hne]; [exact Elo | ].
        apply Hall. lia.
    + left. split; [reflexivity | right; reflexivity].
Qed.

Lemma scan_finds_largest_passing (test : Z -> bool) min_qubits max_qubits :
  min_qubits <= max_qubits ->
  largest_passing test min_qubits max_qubits
    (scan test (range min_qubits (max_qubits + 1)) 0).
Proof.
  intros Hq. unfold largest_passing.
  destruct (scan_range_spec test (Z.to_nat (max_qubits + 1 - min_qubits))
              min_qubits (max_qubits + 1) 0 ltac:(lia))
    as [[Ek [Heq | Hfail]] | [Hk [Hall Hend]]].
  - lia.
  - left. split; assumption.
  - right. split; [lia | split; [exact Hall | ]].
    destruct Hend as [Hend | Hend]; [left; lia | right; exact Hend].
Qed.

(** Estimates beyond the first failing qubit count do not matter. *)
Lemma scan_ignores_what_follows_a_failure (test test' : Z -> bool) (n : nat) :
  forall lo hi qubit_v f,
    Z.of_nat n = hi - lo ->
    lo <= f < hi -> test f = false ->
    (forall j, lo <= j <= f -> test' j = test j) ->
    scan test' (range lo hi) qubit_v = scan test (range lo hi) qubit_v.
Proof.
  induction n as [| n IH]; intros lo hi qubit_v f Hn Hf Hfail Hsame.
  - lia.
  - rewrite range_cons by lia. simpl.
    rewrite (Hsame lo) by lia.
    destruct (test lo) eqn:Elo; [ | reflexivity].
    assert (f <> lo) by congruence.
    apply (IH (lo + 1) hi lo f); try lia; auto.
    intros j Hj. apply Hsame. lia.
Qed.

(** When [find_qv] returns, it returns 2 to the power of the largest
    qubit count up to which every count passes the test on the
    estimates of the first part, or 1 when the smallest count fails. *)
Lemma find_qv_returns_the_scan num_trials num_shots min_qubits max_qubits
      preferences (w w' : world) (qv : Q) :
  min_qubits <= max_qubits ->
  find_qv num_trials num_shots min_qubits max_qubits preferences w
  = (Returned qv, w') ->
  exists heavy_list std_list w1 k,
    calculate_heavy_outputs num_trials num_shots min_qubits preferences
      (range min_qubits (max_qubits + 1))
      (repeat 0%Q (Z.to_nat (max_qubits - min_qubits + 1)))
      (repeat 0%Q (Z.to_nat (max_qubits - min_qubits + 1))) w
    = (Returned (heavy_list, std_list), w1)
    /\ largest_passing (passes min_qubits heavy_list std_list)
         min_qubits max_qubits k
    /\ qv = (2 ^ k)%Q.
Proof.
  intros Hq E. unfold find_qv in E.
  rewrite zeros_returns in E by lia.
  apply bind_returned_inv in E. destruct E as [hl0 [w0 [E0 E]]].
  unfold lift in E0. inversion E0; subst hl0 w0. clear E0.
  apply bind_returned_inv in E. destruct E as [sl0 [w0 [E0 E]]].
  unfold lift in E0. inversion E0; subst sl0 w0. clear E0.
  apply bind_returned_inv in E. destruct E as [[hl sl] [w1 [Ecalc E]]].
  apply bind_returned_inv in E. destruct E as [k [w2 [Edet E]]].
  apply determine_is_scan in Edet.
  2: { intros num Hnum. apply range_In in Hnum. lia. }
  destruct Edet as [-> ->].
  unfold print, emit, bind, ret in E. inversion E; subst.
  exists hl, sl, w1. eexists. split; [exact Ecalc | split; [ | reflexivity]].
  now apply scan_finds_largest_passing.
Qed.

End WhatFindQVReturns.

Section FindQVReturns.
Import Py Qmod Classiq QuantumVolume Sample.

(** A run that returns: two trials of 100 shots on 2 and 3 qubits, both
    qubit counts passing. *)
Lemma find_qv_two_trials_returns :
  fst (find_qv 2 100 2 3
         (ClassiqBackend "ClassiqSimulatorBackendNames.SIMULATOR") start)
  = Returned (2 ^ 3)%Q.
Proof. vm_compute. reflexivity. Qed.

End FindQVReturns.

(** ** The runs of the straight-line notebooks

    Each of these notebooks makes the same calls on every platform; the
    events of its run are listed with the platform's answers in them. *)

Section StraightLineRuns.
Import Py Qmod Classiq Run Repository.
Context `{Platform}.

Lemma shor_trace :
  trace ShorNotebook.cells =
  let m := ModelOf ShorNotebook.main in
  let q := synthesize_answer 0 m in
  let r := execute_answer 1 q in
  [ CreateModel m; WriteQmod m "shor"; Synthesize m q; ShowCircuit q;
    Execute q r;
    Display (BarPlot
               (fold_left
                  (fun hist kv =>
                     ShorNotebook.add_count hist (fst kv) (snd kv))
                  (counts r) [])) ].
Proof. reflexivity. Qed.

Lemma comparator_trace :
  trace Comparator.cells =
  let m1 := ModelOf Comparator.Example1.main in
  let q1 := synthesize_answer 0 m1 in
  let m2 := ModelOf Comparator.Example2.main in
  let q2 := synthesize_answer 1 m2 in
  let r := execute_answer 2 q2 in
  [ CreateModel m1; WriteQmod m1 "comparator_2vars_example";
    Synthesize m1 q1;
    CreateModel m2; WriteQmod m2 "comparator_integer_example";
    Synthesize m2 q2; Execute q2 r;
    Display (ParsedCounts (parsed_counts r)) ].
Proof. reflexivity. Qed.

Lemma extremum_trace :
  trace Extremum.cells =
  let m1 := ModelOf Extremum.Example1.main in
  let q1 := synthesize_answer 0 m1 in
  let r1 := execute_answer 1 q1 in
  let m2 := ModelOf Extremum.Example2.main in
  let q2 := synthesize_answer 2 m2 in
  let r2 := execute_answer 3 q2 in
  [ CreateModel m1; WriteQmod m1 "minimum_2vars_example"; Synthesize m1 q1;
    Execute q1 r1; Display (ParsedCounts (parsed_counts r1));
    CreateModel m2; WriteQmod m2 "maximum_float_example"; Synthesize m2 q2;
    Execute q2 r2; Display (ParsedCounts (parsed_counts r2)) ].
Proof. reflexivity. Qed.

Lemma bitwise_or_trace :
  trace BitwiseOr.cells =
  let m1 := ModelOf BitwiseOr.Example1.main in
  let q1 := synthesize_answer 0 m1 in
  let r1 := execute_answer 1 q1 in
  let m2 := ModelOf BitwiseOr.Example2.main in
  let q2 := synthesize_answer 2 m2 in
  let r2 := execute_answer 3 q2 in
  [ CreateModel m1; WriteQmod m1 "bitwise_or_2vars_example";
    Synthesize m1 q1; Execute q1 r1;
    Display (ParsedCounts (parsed_counts r1));
    Display (MultipleOutputs ["a"; "b"; "res"]%string r1);
    CreateModel m2; WriteQmod m2 "bitwise_or_integer_example";
    Synthesize m2 q2; Execute q2 r2;
    Display (ParsedCounts (parsed_counts r2)) ].
Proof. reflexivity. Qed.

Lemma negation_trace :
  trace Negation.cells =
  let m := ModelOf Negation.main in
  let q := synthesize_answer 0 m in
  let r := execute_answer 1 q in
  [ CreateModel m; WriteQmod m "negation_example"; Synthesize m q;
    Execute q r; Display (ParsedCounts (parsed_counts r)) ].
Proof. reflexivity. Qed.

Lemma subtraction_trace :
  trace Subtraction.cells =
  let m1 := ModelOf Subtraction.Example1.main in
  let q1 := synthesize_answer 0 m1 in
  let r1 := execute_answer 1 q1 in
  let m2 := ModelOf Subtraction.Example2.main in
  let q2 := synthesize_answer 2 m2 in
  let r2 := execute_answer 3 q2 in
  [ CreateModel m1; WriteQmod m1 "subtraction_2vars_example";
    Synthesize m1 q1; Execute q1 r1;
    Display (ParsedCounts (parsed_counts r1));
    CreateModel m2; WriteQmod m2 "subtraction_float_example";
    Synthesize m2 q2; Execute q2 r2;
    Display (ParsedCounts (parsed_counts r2)) ].
Proof. reflexivity. Qed.

Lemma suzuki_trotter_trace :
  trace SuzukiTrotter.cells =
  let m := ModelOf SuzukiTrotter.main in
  [ CreateModel m; WriteQmod m "suzuki_trotter_example";
    Synthesize m (synthesize_answer 0 m) ].
Proof. reflexivity. Qed.

Lemma unitary_trace :
  trace UnitaryExample.cells =
  let m := ModelOf UnitaryExample.main in
  [ CreateModel m; WriteQmod m "unitary_example";
    Synthesize m (synthesize_answer 0 m) ].
Proof. reflexivity. Qed.

Lemma linear_pauli_rotations_trace :
  trace LinearPauliRotations.cells =
  let m := ModelOf LinearPauliRotations.main in
  [ CreateModel m; WriteQmod m "linear_pauli_rotations_example";
    Synthesize m (synthesize_answer 0 m) ].
Proof. reflexivity. Qed.

End StraightLineRuns.

(** ** Events added to the log *)

Section Emits.
Import Py Classiq Shape.
Context `{Platform}.
Variable R : list event -> Prop.
Hypothesis R_nil : R [].
Hypothesis R_app : forall a b, R a -> R b -> R (a ++ b).

Lemma emits_ret {A} (a : A) : emits R (ret a).
Proof.
  intros w. exists [].
  split; [exact R_nil | simpl; now rewrite app_nil_r].
Qed.

Lemma emits_raise {A} e : emits R (@raise world A e).
Proof.
  intros w. exists [].
  split; [exact R_nil | simpl; now rewrite app_nil_r].
Qed.

Lemma emits_lift {A} (o : outcome A) : emits R (lift o).
Proof.
  intros w. exists [].
  split; [exact R_nil | simpl; now rewrite app_nil_r].
Qed.

Lemma emits_tick : emits R tick.
Proof.
  intros w. exists [].
  split; [exact R_nil | simpl; now rewrite app_nil_r].
Qed.

Lemma emits_emit e : R [e] -> emits R (emit e).
Proof. intros He w. exists [e]. split; [exact He | reflexivity]. Qed.

Lemma emits_bind {A B} (c : M world A) (k : A -> M world B) :
  emits R c -> (forall a, emits R (k a)) -> emits R (bind c k).
Proof.
  intros Hc Hk w. destruct (Hc w) as [t1 [R1 E1]].
  unfold bind. destruct (c w) as [[a | e] w1]; simpl in *.
  - destruct (Hk a w1) as [t2 [R2 E2]].
    exists (t1 ++ t2). split; [now apply R_app | ].
    rewrite E2, E1. now rewrite app_assoc.
  - exists t1. split; assumption.
Qed.

Lemma emits_for_each {A S} (xs : list A) (body : A -> S -> M world S) :
  (forall x acc, emits R (body x acc)) ->
  forall acc, emits R (for_each xs acc body).
Proof.
  intros Hb. induction xs as [| x xs IH]; intros acc; simpl.
  - apply emits_ret.
  - apply emits_bind; [apply Hb | exact IH].
Qed.

Lemma emits_for_each_break {A S} (xs : list A)
      (body : A -> S -> M world (flow S)) :
  (forall x acc, emits R (body x acc)) ->
  forall acc, emits R (for_each_break xs acc body).
Proof.
  intros Hb. induction xs as [| x xs IH]; intros acc; simpl.
  - apply emits_ret.
  - apply emits_bind; [apply Hb | ].
    intros [acc' | acc']; [apply IH | apply emits_ret].
Qed.

End Emits.

Import Py Qmod Classiq QuantumVolume Run Shape Repository.

Ltac emits_step :=
  lazymatch goal with
  | |- emits _ (ret _) => apply emits_ret
  | |- emits _ (raise _) => apply emits_raise
  | |- emits _ (lift _) => apply emits_lift
  | |- emits _ tick => apply emits_tick
  | |- emits _ (bind _ _) => apply emits_bind
  | |- emits _ (for_each _ _ _) => apply emits_for_each
  | |- emits _ (for_each_break _ _ _) => apply emits_for_each_break
  | |- emits _ (if ?b then _ else _) => destruct b
  | |- emits _ (match ?x with (_, _) => _ end) => destruct x
  | |- emits _ _ => fail
  | |- forall _ : _ * _, _ => intros [? ?]
  | |- forall _, _ => intro
  end.

Ltac emits_steps := repeat emits_step.

Lemma exists_last_or_nil {A} (l : list A) :
  l = [] \/ exists l' x, l = l' ++ [x].
Proof.
  destruct l as [| a l]; [left; reflexivity | right].
  destruct (@exists_last _ (a :: l)) as [l' [x E]]; [discriminate | eauto].
Qed.

(** ** The shape of a quantum volume run *)

Section QVShape.
Import Py Qmod Classiq QuantumVolume Run Shape.
Context `{Platform} `{Random} `{Numpy.Sqrt}.

Lemma kept_nil : @eq (list event) [] [].
Proof. reflexivity. Qed.

Lemma kept_app (a b : list event) : [] = a -> [] = b -> [] = a ++ b.
Proof. intros <- <-. reflexivity. Qed.

Lemma qv_layer_keeps_log target N : emits (eq []) (qv_layer target N).
Proof.
  unfold qv_layer, shuffle, haar.
  emits_steps; auto using kept_nil, kept_app.
Qed.

Lemma qv_model_spec N (w : world) :
  exists m w', qv_model N w = (Returned m, w')
               /\ log w' = log w ++ [CreateModel m].
Proof.
  unfold qv_model.
  set (loop := for_each (range 0 N) _ _).
  assert (returns loop) as Hret.
  { apply returns_for_each. intros idx _ body.
    apply returns_bind; [apply qv_layer_returns | intros; apply returns_ret]. }
  assert (emits (eq []) loop) as Hlog.
  { unfold loop. emits_steps; auto using kept_nil, kept_app.
    apply qv_layer_keeps_log. }
  destruct (Hret w) as [body [w1 E1]].
  destruct (Hlog w) as [t [<- Et]]. rewrite E1, app_nil_r in Et. simpl in Et.
  eexists. eexists. split.
  - eapply bind_returned_eq; [exact E1 | ]. reflexivity.
  - simpl. rewrite Et. reflexivity.
Qed.

Lemma qv_run_app a b : qv_run a -> qv_run b -> qv_run (a ++ b).
Proof.
  induction 1 as [| t rest Ht Hr IH | d rest Hr IH]; intros Hb; simpl.
  - exact Hb.
  - rewrite <- app_assoc. constructor; auto.
  - constructor; auto.
Qed.

Lemma qv_run_trial_only t : trial t -> qv_run t.
Proof.
  intros Ht. rewrite <- (app_nil_r t).
  constructor; [exact Ht | constructor].
Qed.

(** The body of the inner loop of [find_qv]: one trial. *)
Ltac trial_body :=
  lazymatch goal with
  | |- emits _ (bind (qv_model ?num) _) =>
      let w := fresh "w" in
      let m := fresh "m" in
      let w1 := fresh "w" in
      let Em := fresh "Em" in
      let El := fresh "El" in
      intros w;
      destruct (qv_model_spec num w) as [m [w1 [Em El]]];
      unfold bind at 1; rewrite Em;
      unfold synthesize, execute_qv,
        set_quantum_program_execution_preferences,
        execute, tick, emit, bind, ret, lift; simpl;
      eexists; split;
      [ | destruct (Numpy.setitem _ _ _); simpl; rewrite El, <- !app_assoc;
          reflexivity ];
      [ apply qv_run_trial_only; apply trial_intro ]
  end.

Ltac qv_emits :=
  repeat first
    [ exact qv_run_nil
    | exact qv_run_app
    | trial_body
    | apply emits_emit; repeat constructor
    | emits_step ].

Lemma calculate_emits nt ns mn p nums hl sl :
  emits qv_run (calculate_heavy_outputs nt ns mn p nums hl sl).
Proof. unfold calculate_heavy_outputs, print. qv_emits. Qed.

Lemma find_qv_emits nt ns mn mx p : emits qv_run (find_qv nt ns mn mx p).
Proof.
  unfold find_qv, calculate_heavy_outputs, determine_quantum_volume, print.
  qv_emits.
Qed.

Lemma starts_bind_l P R {A B} (c : M world A) (k : A -> M world B) w :
  starts P c w -> (forall a, emits R (k a)) -> starts P (bind c k) w.
Proof.
  intros [t [rest [Pt E]]] Hk. unfold starts, bind.
  destruct (c w) as [[a | e] w1]; simpl in *.
  - destruct (Hk a w1) as [t2 [_ E2]].
    exists t, (rest ++ t2). split; [exact Pt | ].
    rewrite E2, E, <- !app_assoc. reflexivity.
  - exists t, rest. split; assumption.
Qed.

Lemma starts_bind_r P {A B} (c : M world A) (k : A -> M world B) w a :
  c w = (Returned a, w) -> starts P (k a) w -> starts P (bind c k) w.
Proof. intros E Hk. unfold starts, bind. rewrite E. exact Hk. Qed.

Lemma find_qv_first nt ns mn mx p w :
  1 <= nt -> mn <= mx -> starts trial (find_qv nt ns mn mx p) w.
Proof.
  intros Hnt Hq.
  unfold find_qv, calculate_heavy_outputs, determine_quantum_volume, print.
  rewrite !zeros_returns by lia.
  rewrite (range_cons mn) by lia.
  eapply starts_bind_r; [reflexivity | ].
  eapply starts_bind_r; [reflexivity | ].
  apply (starts_bind_l _ qv_run); [ | qv_emits].
  simpl for_each at 1.
  apply (starts_bind_l _ qv_run); [ | qv_emits].
  rewrite (range_cons 0 nt) by lia.
  eapply starts_bind_r; [reflexivity | ].
  apply (starts_bind_l _ qv_run); [ | qv_emits].
  simpl for_each at 1.
  apply (starts_bind_l _ qv_run); [ | qv_emits].
  destruct (qv_model_spec mn w) as [m [w1 [Em El]]].
  unfold starts, bind at 1. rewrite Em.
  unfold synthesize, execute_qv, set_quantum_program_execution_preferences,
    execute, tick, emit, bind, ret, lift. simpl.
  eexists. exists []. split; cycle 1.
  - destruct (Numpy.setitem _ _ _); simpl;
      rewrite El, app_nil_r, <- !app_assoc; reflexivity.
  - apply trial_intro.
Qed.

Lemma find_qv_last nt ns mn mx p w qv w' :
  find_qv nt ns mn mx p w = (Returned qv, w') ->
  exists t, log w' = t ++ [Display (Printed [qv])].
Proof.
  unfold find_qv. intros E.
  apply bind_returned_inv in E. destruct E as [hl [w1 [_ E]]].
  apply bind_returned_inv in E. destruct E as [sl [w2 [_ E]]].
  apply bind_returned_inv in E. destruct E as [[hl' sl'] [w3 [_ E]]].
  apply bind_returned_inv in E. destruct E as [qubit_v [w4 [_ E]]].
  unfold print, emit, bind, ret in E. simpl in E.
  inversion E; subst. simpl. eauto.
Qed.

Lemma in_order_tail a p t : in_order (a :: p) t = true -> in_order p t = true.
Proof.
  revert a p. induction t as [| x t IH]; intros a p E; simpl in *.
  - discriminate.
  - destruct p as [| b p']; [reflexivity | ].
    destruct (step_eqb a x).
    + destruct (step_eqb b x); [ | exact E].
      apply (IH b). exact E.
    + destruct (step_eqb b x).
      * apply (IH b). apply (IH a). exact E.
      * apply (IH a). exact E.
Qed.

Lemma in_order_skip p x t : in_order p t = true -> in_order p (x :: t) = true.
Proof.
  intros E. destruct p as [| a p']; [reflexivity | ]. simpl.
  destruct (step_eqb a x); [ | exact E].
  apply (in_order_tail a). exact E.
Qed.

Lemma in_order_app p1 p2 a b :
  in_order p1 a = true -> in_order p2 b = true ->
  in_order (p1 ++ p2) (a ++ b) = true.
Proof.
  revert p1. induction a as [| x a IH]; intros p1 E1 E2; simpl in *.
  - destruct p1; [exact E2 | discriminate].
  - destruct p1 as [| y p1']; simpl.
    + apply in_order_skip. apply (IH []); [destruct a; reflexivity | exact E2].
    + simpl in E1. destruct (step_eqb y x).
      * apply IH; assumption.
      * apply (IH (y :: p1')); assumption.
Qed.

Lemma in_order_prefix p a b :
  in_order p a = true -> in_order p (a ++ b) = true.
Proof.
  intros E. rewrite <- (app_nil_r p). apply in_order_app; [exact E | ].
  destruct b; reflexivity.
Qed.

Lemma qv_run_sourced t :
  qv_run t -> forall models progs results, sourced models progs results t.
Proof.
  induction 1 as [| t rest Ht Hr IH | d rest Hr IH]; intros ms ps rs.
  - exact I.
  - destruct Ht as [m k p k' q q']. simpl.
    repeat split; try (left; reflexivity); try (right; left; reflexivity).
    exact (IH _ _ _).
  - simpl. exact (IH _ _ _).
Qed.

Lemma qv_run_from_platform t : qv_run t -> Forall from_platform t.
Proof.
  induction 1 as [| t rest Ht Hr IH | d rest Hr IH].
  - constructor.
  - destruct Ht as [m k p k' q q']. simpl.
    repeat (apply Forall_cons;
            [solve [exact I | eexists; reflexivity | reflexivity] | ]).
    exact IH.
  - constructor; [exact I | exact IH].
Qed.

Lemma trial_kinds t : trial t -> map kind t = [Build; Synth; Prefs; Exec].
Proof. intros [m k p k' q q']. reflexivity. Qed.

Lemma ends_after_trial t rest t' d :
  trial t -> t ++ rest = t' ++ [Display d] ->
  exists rest', rest = rest' ++ [Display d].
Proof.
  intros Ht E. destruct (exists_last_or_nil rest) as [-> | [rest' [x ->]]].
  - destruct Ht as [m k p k' q q']. rewrite app_nil_r in E.
    change [CreateModel m; Synthesize m q; SetPreferences q p q';
            Execute q' (execute_answer k' q')]
      with ([CreateModel m; Synthesize m q; SetPreferences q p q']
            ++ [Execute q' (execute_answer k' q')]) in E.
    apply app_inj_tail in E. destruct E as [_ E]. discriminate.
  - rewrite app_assoc in E. apply app_inj_tail in E. destruct E as [_ ->].
    eauto.
Qed.
End QVShape.

(** ** The runs of the notebooks with loops *)

Section LoopNotebooks.
Import Py Qmod Classiq Run Shape Repository.
Context `{Platform}.

Lemma displays_nil : Forall is_display [].
Proof. constructor. Qed.

Lemma displays_app a b :
  Forall is_display a -> Forall is_display b -> Forall is_display (a ++ b).
Proof. intros Ha Hb. apply Forall_app. split; assumption. Qed.

Lemma grover_trace :
  let m := GroverModel 1 Grover.expression Grover.definitions in
  let q := synthesize_answer 0 m in
  let p := {| num_shots := None;
              backend_preferences :=
                ClassiqBackend "ClassiqSimulatorBackendNames.SIMULATOR" |} in
  let q' := set_preferences_answer q p in
  let r := execute_answer 1 q' in
  exists shows,
    trace Grover.cells =
    [ CreateModel m; WriteQmod m "grover"; Synthesize m q; ShowCircuit q;
      SetPreferences q p q'; Execute q' r ] ++ shows
    /\ Forall is_display shows
    /\ (completes Grover.cells -> shows <> []).
Proof.
  intros m q p q' r.
  unfold completes, trace, Grover.cells.
  cbn [bind construct_grover_model build emit ret write_qmod synthesize tick
       show set_quantum_program_execution_preferences execute start clock log
       app fst snd].
  fold m q p q' r.
  change (range 0 Grover.NUM_SOLUTIONS) with [0; 1; 2].
  match goal with
  | |- context [for_each _ tt ?f ?w] => set (body := f); set (w6 := w)
  end.
  assert (forall k u, emits (Forall is_display) (body k u)) as Hbody.
  { intros k u. unfold body, display.
    repeat first [ exact displays_nil | exact displays_app
                 | apply emits_emit; repeat constructor | emits_step ]. }
  assert (forall l u, emits (Forall is_display) (for_each l u body)) as Hloop.
  { intros l u. apply emits_for_each;
      auto using displays_nil, displays_app. }
  destruct (Hloop [0; 1; 2] tt w6) as [t [Rt Et]].
  exists t. split; [exact Et | split; [exact Rt | ]].
  intros [u Eu] ->.
  destruct (for_each [0; 1; 2] tt body w6) as [o w'] eqn:E.
  simpl in Eu, Et. subst o. simpl in E.
  apply bind_returned_inv in E. destruct E as [u1 [w7 [E1 E]]].
  destruct (Hloop [1; 2] u1 w7) as [t2 [_ Et2]].
  change (for_each [1; 2] u1 body w7) with
    (bind (body 1 u1) (fun acc' => bind (body 2 acc')
                                     (fun acc'' => ret acc'')) w7) in Et2.
  rewrite E in Et2. simpl in Et2.
  unfold body in E1.
  apply bind_returned_inv in E1. destruct E1 as [row [w8 [Ew8 E1]]].
  apply bind_returned_inv in E1. destruct E1 as [a [w9 [Ew9 E1]]].
  apply bind_returned_inv in E1. destruct E1 as [b [w10 [Ew10 E1]]].
  apply bind_returned_inv in E1. destruct E1 as [c [w11 [Ew11 E1]]].
  unfold lift in *.
  inversion Ew8; inversion Ew9; inversion Ew10; inversion Ew11; subst.
  unfold display, emit in E1. inversion E1; subst. simpl in Et2.
  rewrite Et2 in Et. discriminate.
Qed.

Lemma print_best_cases rows (w : world) :
  (exists e, LearningOptimization.print_best rows w = (Raised e, w))
  \/ (exists row,
        In row rows
        /\ LearningOptimization.print_best rows w
           = (Returned tt,
              {| clock := clock w;
                 log := log w ++ [Display (PrintedBest (solution row)
                                                       (cost row))] |})).
Proof.
  unfold LearningOptimization.print_best, bind, lift.
  destruct (LearningOptimization.idxmin (map cost rows)) as [idx | e];
    [ | left; eauto].
  unfold seq_getitem. destruct (nth_error rows idx) as [row | ] eqn:E;
    [ | left; eauto].
  right. exists row. split; [eapply nth_error_In; exact E | reflexivity].
Qed.

Lemma learning_optimization_trace :
  let alo := LearningOptimization.application_level_object in
  let cfg := {| num_layers := 1; penalty_energy := default_penalty_energy |} in
  let m := CombinatorialOptimizationModel alo cfg in
  let q1 := synthesize_answer 0 m in
  let r1 := execute_answer 1 q1 in
  let rows1 := solution_answer alo r1 (penalty_energy cfg) in
  let q2 := synthesize_answer 2 m in
  let r2 := execute_answer 3 q2 in
  let rows2 := solution_answer alo r2 (penalty_energy cfg) in
  let first_pass :=
    [ Display (PyomoPrint alo); CreateModel m; Synthesize m q1;
      Execute q1 r1; GetSolution r1 rows1;
      Display (SortedByCostHead 5 rows1) ] in
  let second_pass row :=
    [ Display (PrintedBest (solution row) (cost row)); ShowCircuit q1;
      Display (PyomoPrint LearningOptimization.application_object);
      CreateModel m; Synthesize m q2; Execute q2 r2; GetSolution r2 rows2 ] in
  let ending row :=
    [ Display (PrintedBest (solution row) (cost row)); ShowCircuit q2 ] in
  trace LearningOptimization.cells = first_pass
  \/ (exists row1, In row1 rows1
       /\ trace LearningOptimization.cells = first_pass ++ second_pass row1)
  \/ (exists row1 row2, In row1 rows1 /\ In row2 rows2
       /\ trace LearningOptimization.cells
          = first_pass ++ second_pass row1 ++ ending row2).
Proof.
  intros alo cfg m q1 r1 rows1 q2 r2 rows2 first_pass second_pass ending.
  remember (trace LearningOptimization.cells) as tr eqn:Etr.
  unfold trace, LearningOptimization.cells in Etr.
  cbn [bind construct_combinatorial_optimization_model build emit ret
       synthesize tick show execute get_optimization_solution_from_pyo
       display start clock log app fst snd penalty_energy] in Etr.
  match type of Etr with
  | context [bind (LearningOptimization.print_best ?rows) ?k ?w] =>
      destruct (print_best_cases rows w) as [[e Ee] | [row1 [In1 E1]]];
      unfold bind at 1 in Etr; [rewrite Ee in Etr | rewrite E1 in Etr]
  end.
  { left. exact Etr. }
  right.
  cbn [bind construct_combinatorial_optimization_model build emit ret
       synthesize tick show execute get_optimization_solution_from_pyo
       display start clock log app fst snd penalty_energy] in Etr.
  match type of Etr with
  | context [bind (LearningOptimization.print_best ?rows) ?k ?w] =>
      destruct (print_best_cases rows w) as [[e Ee] | [row2 [In2 E2]]];
      unfold bind at 1 in Etr; [rewrite Ee in Etr | rewrite E2 in Etr]
  end.
  { left. exists row1. split; [exact In1 | exact Etr]. }
  right. exists row1, row2. split; [exact In1 | split; [exact In2 | ]].
  exact Etr.
Qed.

End LoopNotebooks.

(** ** The order of the calls in each notebook *)

Section NotebookFacts.
Import Py Qmod Classiq QuantumVolume Run Shape Repository Order.
Context `{Platform} `{Random} `{Numpy.Sqrt}.

Lemma snd_then_ret {A} (c : M world A) (w : world) :
  snd (bind c (fun _ => ret tt) w) = snd (c w).
Proof. unfold bind. destruct (c w) as [[a | e] w']; reflexivity. Qed.

Lemma fst_then_ret {A} (c : M world A) (w : world) u :
  fst (bind c (fun _ => ret tt) w) = Returned u ->
  exists a, fst (c w) = Returned a.
Proof.
  unfold bind. destruct (c w) as [[a | e] w']; simpl; [eauto | discriminate].
Qed.

Lemma quantum_volume_trace :
  exists t rest,
    trace QuantumVolumeNotebook.cells = t ++ rest
    /\ trial t
    /\ qv_run (t ++ rest)
    /\ (completes QuantumVolumeNotebook.cells ->
        exists rest' d, rest = rest' ++ [Display d]).
Proof.
  unfold trace, completes, QuantumVolumeNotebook.cells.
  rewrite snd_then_ret.
  set (run := find_qv _ _ _ _ _).
  destruct (find_qv_first QuantumVolumeNotebook.num_trials
              QuantumVolumeNotebook.num_shots
              QuantumVolumeNotebook.min_qubits
              QuantumVolumeNotebook.max_qubits
              QuantumVolumeNotebook.preferences start)
    as [t [rest [Ht Et]]];
    [ unfold QuantumVolumeNotebook.num_trials; lia
    | unfold QuantumVolumeNotebook.min_qubits,
        QuantumVolumeNotebook.max_qubits; lia | ].
  fold run in Et. simpl in Et.
  exists t, rest. split; [exact Et | split; [exact Ht | split]].
  - destruct (find_qv_emits QuantumVolumeNotebook.num_trials
              QuantumVolumeNotebook.num_shots
              QuantumVolumeNotebook.min_qubits
              QuantumVolumeNotebook.max_qubits
              QuantumVolumeNotebook.preferences start) as [t' [Hrun E']].
    fold run in E'. simpl in E'. rewrite <- Et, E'. exact Hrun.
  - intros [u Hu]. apply fst_then_ret in Hu. destruct Hu as [qv Hqv].
    destruct (run start) as [o w'] eqn:E. simpl in Hqv, Et. subst o.
    destruct (find_qv_last _ _ _ _ _ _ _ _ E) as [t' Et'].
    rewrite Et in Et'.
    destruct (ends_after_trial _ _ _ _ Ht Et') as [rest' ->].
    eauto.
Qed.

Lemma quantum_volume_order :
  builds_then_synthesizes QuantumVolumeNotebook.cells
  /\ executes_then_shows QuantumVolumeNotebook.cells
  /\ Forall from_platform (trace QuantumVolumeNotebook.cells).
Proof.
  destruct quantum_volume_trace as [t [rest [Et [Ht [Hrun Hend]]]]].
  unfold builds_then_synthesizes, executes_then_shows, four_steps, kinds.
  rewrite Et, map_app, (trial_kinds t Ht).
  split; [split | split; [split | ]].
  - apply in_order_prefix. reflexivity.
  - now apply qv_run_sourced.
  - apply in_order_prefix. reflexivity.
  - intros Hc. destruct (Hend Hc) as [rest' [d ->]].
    rewrite map_app.
    apply (in_order_app [Build; Synth; Exec] [Shown]); [reflexivity | ].
    apply (in_order_app [] [Shown]); [destruct rest' | ]; reflexivity.
  - now apply qv_run_from_platform.
Qed.

Lemma in_order_nil t : in_order [] t = true.
Proof. destruct t; reflexivity. Qed.

Lemma sourced_displays shows :
  Forall is_display shows ->
  forall models progs results, sourced models progs results shows.
Proof.
  induction 1 as [| e l He Hl IH]; intros ms ps rs; [exact I | ].
  destruct e; try contradiction. simpl. exact (IH _ _ _).
Qed.

Lemma displays_from_platform shows :
  Forall is_display shows -> Forall from_platform shows.
Proof.
  induction 1 as [| e l He Hl IH]; constructor; [ | exact IH].
  destruct e; try contradiction. exact I.
Qed.

Ltac by_listing :=
  repeat first
    [ exact I | reflexivity
    | left; reflexivity | right; left; reflexivity
    | right; right; left; reflexivity
    | eexists; reflexivity
    | apply Forall_nil | apply Forall_cons
    | split | intros _ ].

Ltac executing_notebook trace_lemma :=
  unfold builds_then_synthesizes, executes_then_shows, four_steps, kinds;
  rewrite trace_lemma; cbv zeta; by_listing.

Ltac synthesizing_notebook trace_lemma :=
  unfold builds_then_synthesizes, stops_after_synthesis, kinds;
  rewrite trace_lemma; cbv zeta; by_listing.

Lemma shor_order :
  builds_then_synthesizes ShorNotebook.cells
  /\ executes_then_shows ShorNotebook.cells
  /\ Forall from_platform (trace ShorNotebook.cells).
Proof. executing_notebook shor_trace. Qed.

Lemma comparator_order :
  builds_then_synthesizes Comparator.cells
  /\ executes_then_shows Comparator.cells
  /\ Forall from_platform (trace Comparator.cells).
Proof. executing_notebook comparator_trace. Qed.

Lemma extremum_order :
  builds_then_synthesizes Extremum.cells
  /\ executes_then_shows Extremum.cells
  /\ Forall from_platform (trace Extremum.cells).
Proof. executing_notebook extremum_trace. Qed.

Lemma bitwise_or_order :
  builds_then_synthesizes BitwiseOr.cells
  /\ executes_then_shows BitwiseOr.cells
  /\ Forall from_platform (trace BitwiseOr.cells).
Proof. executing_notebook bitwise_or_trace. Qed.

Lemma negation_order :
  builds_then_synthesizes Negation.cells
  /\ executes_then_shows Negation.cells
  /\ Forall from_platform (trace Negation.cells).
Proof. executing_notebook negation_trace. Qed.

Lemma subtraction_order :
  builds_then_synthesizes Subtraction.cells
  /\ executes_then_shows Subtraction.cells
  /\ Forall from_platform (trace Subtraction.cells).
Proof. executing_notebook subtraction_trace. Qed.

Lemma suzuki_trotter_order :
  builds_then_synthesizes SuzukiTrotter.cells
  /\ stops_after_synthesis SuzukiTrotter.cells
  /\ Forall from_platform (trace SuzukiTrotter.cells).
Proof. synthesizing_notebook suzuki_trotter_trace. Qed.

Lemma unitary_order :
  builds_then_synthesizes UnitaryExample.cells
  /\ stops_after_synthesis UnitaryExample.cells
  /\ Forall from_platform (trace UnitaryExample.cells).
Proof. synthesizing_notebook unitary_trace. Qed.

Lemma linear_pauli_rotations_order :
  builds_then_synthesizes LinearPauliRotations.cells
  /\ stops_after_synthesis LinearPauliRotations.cells
  /\ Forall from_platform (trace LinearPauliRotations.cells).
Proof. synthesizing_notebook linear_pauli_rotations_trace. Qed.

Lemma grover_order :
  builds_then_synthesizes Grover.cells
  /\ executes_then_shows Grover.cells
  /\ Forall from_platform (trace Grover.cells).
Proof.
  destruct grover_trace as [shows [Et [Hs Hne]]].
  unfold builds_then_synthesizes, executes_then_shows, four_steps, kinds.
  rewrite Et, map_app.
  split; [split | split; [split | ]].
  - apply in_order_prefix. reflexivity.
  - simpl. by_listing. now apply sourced_displays.
  - apply in_order_prefix. reflexivity.
  - intros Hc. specialize (Hne Hc).
    apply (in_order_app [Build; Synth; Exec] [Shown]); [reflexivity | ].
    destruct shows as [| e l]; [congruence | ].
    inversion Hs as [| ? ? He _]; subst.
    destruct e; try contradiction. simpl. apply in_order_nil.
  - apply Forall_app. split; [by_listing | now apply displays_from_platform].
Qed.

Lemma learning_optimization_order :
  builds_then_synthesizes LearningOptimization.cells
  /\ executes_then_shows LearningOptimization.cells
  /\ Forall from_platform (trace LearningOptimization.cells).
Proof.
  unfold builds_then_synthesizes, executes_then_shows, four_steps, kinds.
  destruct learning_optimization_trace
    as [E | [[row1 [_ E]] | [row1 [row2 [_ [_ E]]]]]];
    rewrite E; cbv zeta; by_listing.
Qed.

End NotebookFacts.

(** ** The shape of the function definitions *)

Section ShapeOfTheCode.
Import Source Inventory Shapes.
Local Open Scope string_scope.

Lemma thin_partition :
  names_where (fun f => negb (thin f)) = classical_helpers.
Proof. vm_compute. reflexivity. Qed.


Lemma computing_functions :
  names_where computes
  = [ "get_modular_multiplication_matrix"; "haar"; "qv_layer";
      "heavy_outputs_prob"; "round_significant"; "find_qv" ].
Proof. vm_compute. reflexivity. Qed.


Lemma thin_or_helper :
  Forall (fun f => thin f = true \/ In (name f) classical_helpers) functions.
Proof.
  apply (Forall_of_forallb
           (fun f =>
              thin f || existsb (String.eqb (name f)) classical_helpers)).
  - intros f Hf. apply orb_true_iff in Hf. destruct Hf as [Hf | Hf]; [auto | ].
    right. apply existsb_exists in Hf. destruct Hf as [n [Hn E]].
    apply String.eqb_eq in E. subst. exact Hn.
  - vm_compute. reflexivity.
Qed.

Lemma platform_services_are_remote :
  Forall (fun f =>
            Forall (fun c =>
                      In (callee c) ["create_model"; "synthesize"; "execute"]
                      -> from c = classiq)
                   (calls f))
         functions.
Proof.
  apply (Forall_of_forallb
           (fun f =>
              forallb (fun c =>
                         negb (existsb (String.eqb (callee c))
                                 ["create_model"; "synthesize"; "execute"])
                         || origin_eqb (from c) classiq) (calls f))).
  - intros f. apply Forall_of_forallb. intros c Hc Hin.
    apply orb_true_iff in Hc. destruct Hc as [Hc | Hc].
    + apply negb_true_iff in Hc.
      assert (existsb (String.eqb (callee c))
                ["create_model"; "synthesize"; "execute"] = true) as Hex.
      { apply existsb_exists. exists (callee c). split; [exact Hin | ].
        apply String.eqb_refl. }
      congruence.
    + destruct (from c); try discriminate. reflexivity.
  - vm_compute. reflexivity.
Qed.


(** C1 as stated fails: [get_modular_multiplication_matrix] calls numpy
    only, neither the platform nor [print]. *)
Lemma matrix_helper_is_not_thin : ~ every_function_is_thin.
Proof.
  intros Hall.
  assert (In get_modular_multiplication_matrix functions) as Hin
    by (left; reflexivity).
  destruct (proj1 (Forall_forall _ _) Hall _ Hin) as [Hthin _].
  vm_compute in Hthin. discriminate Hthin.
Qed.

(** C1, as amended: every function defined in the notebooks calls the
    platform or prints, except the five classical helpers; model
    construction, synthesis and execution are always the platform's
    [create_model], [synthesize] and [execute]; numerical routines of
    numpy, scipy, math and random are called by six functions, among them
    [find_qv], which runs the quantum volume benchmark. *)
Theorem functions_forward_except_classical_helpers :
  Forall (fun f => thin f = true \/ In (name f) classical_helpers) functions
  /\ names_where (fun f => negb (thin f)) = classical_helpers
  /\ Forall (fun f =>
               Forall (fun c =>
                         In (callee c)
                            ["create_model"; "synthesize"; "execute"]
                         -> from c = classiq)
                      (calls f))
            functions
  /\ names_where computes
     = [ "get_modular_multiplication_matrix"; "haar"; "qv_layer";
         "heavy_outputs_prob"; "round_significant"; "find_qv" ].
Proof.
  split; [exact thin_or_helper | ].
  split; [exact thin_partition | ].
  split; [exact platform_services_are_remote | exact computing_functions].
Qed.



End ShapeOfTheCode.

Section Loops.
Import Py Qmod Classiq QuantumVolume Sample.

(** How often [find_qv] calls [synthesize] depends on its arguments. *)
Lemma find_qv_calls_depend_on_arguments :
  let synthesized (w : world) :=
    List.length (filter (fun e => match e with
                                  | Synthesize _ _ => true
                                  | _ => false
                                  end) (log w)) in
  let p := ClassiqBackend "ClassiqSimulatorBackendNames.SIMULATOR" in
  synthesized (snd (find_qv 2 100 2 2 p start)) = 2%nat
  /\ synthesized (snd (find_qv 3 100 2 2 p start)) = 3%nat.
Proof. vm_compute; split; reflexivity. Qed.

End Loops.

(** ** Every notebook, on every platform *)

Section NotebookClaims.
Import Py Qmod Classiq Run Shape Repository Order.
Context `{Platform} `{Random} `{Numpy.Sqrt}.

(** C4, as amended: every notebook builds a model and then has it
    synthesized, each model synthesized having been built before and each
    program used being one that [synthesize] returned.  The notebooks other
    than suzuki_trotter, unitary_example and linear_pauli_rotations then
    execute the program, and show results after that in every run that
    ends without an exception; these three stop after synthesis: they
    execute nothing and show nothing. *)
Theorem notebooks_build_synthesize_and_nine_execute :
  Forall (fun nb =>
            builds_then_synthesizes (snd nb)
            /\ if is_synthesis_only (fst nb)
               then stops_after_synthesis (snd nb)
               else executes_then_shows (snd nb))
         notebooks.
Proof.
  unfold notebooks.
  repeat (apply Forall_cons; [cbn [fst snd is_synthesis_only] | ]);
    [ | | | | | | | | | | | | apply Forall_nil ]; simpl existsb; cbv iota.
  - split; apply shor_order.
  - split; apply comparator_order.
  - split; apply extremum_order.
  - split; apply bitwise_or_order.
  - split; apply negation_order.
  - split; apply subtraction_order.
  - split; apply suzuki_trotter_order.
  - split; apply unitary_order.
  - split; apply linear_pauli_rotations_order.
  - split; apply grover_order.
  - split; apply quantum_volume_order.
  - split; apply learning_optimization_order.
Qed.

(** C7: in every notebook, on every platform, each program that is shown,
    configured or executed was returned by the platform's [synthesize]
    for a model built before (or by its preference setter from such a
    program), and the programs and results in the log are the platform's
    answers: no program is made by the notebooks' own code, and wherever
    a function of the notebooks calls [synthesize], it is the platform's. *)
Theorem programs_are_synthesized_by_the_platform :
  Forall (fun nb =>
            sourced [] [] [] (trace (snd nb))
            /\ Forall from_platform (trace (snd nb)))
         notebooks
  /\ Forall (fun f =>
               Forall (fun c =>
                         Source.callee c = "synthesize"%string ->
                         Source.from c = Source.classiq)
                      (Source.calls f))
            Inventory.functions.
Proof.
  split.
  2: { eapply Forall_impl; [ | exact platform_services_are_remote].
       intros f Hf. eapply Forall_impl; [ | exact Hf].
       intros c Hc E. apply Hc. rewrite E. right. left. reflexivity. }
  unfold notebooks.
  repeat (apply Forall_cons; [cbn [fst snd] | ]);
    [ | | | | | | | | | | | | apply Forall_nil ].
  - split; apply shor_order.
  - split; apply comparator_order.
  - split; apply extremum_order.
  - split; apply bitwise_or_order.
  - split; apply negation_order.
  - split; apply subtraction_order.
  - split; apply suzuki_trotter_order.
  - split; apply unitary_order.
  - split; apply linear_pauli_rotations_order.
  - split; apply grover_order.
  - split; apply quantum_volume_order.
  - split; apply learning_optimization_order.
Qed.

End NotebookClaims.

Section NotebookRuns.
Import Py Qmod Classiq Run Shape Repository Order Sample.

(** C4 as stated fails: the suzuki_trotter notebook never executes. *)
Lemma suzuki_trotter_never_executes :
  ~ Forall (fun nb => four_steps (snd nb)) notebooks.
Proof.
  intros Hall.
  assert (In ("suzuki_trotter"%string, SuzukiTrotter.cells) notebooks) as Hin.
  { unfold notebooks. do 6 right. left. reflexivity. }
  pose proof (proj1 (Forall_forall _ _) Hall _ Hin) as Hs.
  cbn [snd] in Hs. unfold four_steps, kinds in Hs.
  rewrite suzuki_trotter_trace in Hs. discriminate Hs.
Qed.

Lemma notebooks_order_witness :
  Order.builds_then_synthesizes ShorNotebook.cells
  /\ Order.executes_then_shows ShorNotebook.cells.
Proof.
  pose proof notebooks_build_synthesize_and_nine_execute as Hall.
  unfold notebooks in Hall. inversion Hall as [| ? ? Hshor _]; subst.
  exact Hshor.
Defined.

Lemma programs_witness :
  sourced [] [] [] (trace ShorNotebook.cells)
  /\ Forall from_platform (trace ShorNotebook.cells).
Proof.
  pose proof (proj1 programs_are_synthesized_by_the_platform) as Hall.
  unfold notebooks in Hall. inversion Hall as [| ? ? Hshor _]; subst.
  exact Hshor.
Defined.

End NotebookRuns.

(** ** The optimization tutorial *)

Section OptimizationTutorial.
Import Py Qmod Classiq Run Shape Repository Order.
Context `{Platform}.

Ltac in_listing H :=
  simpl in H;
  repeat (destruct H as [H | H]; [try discriminate H | ]);
  try contradiction.

(** C8: the optimization tutorial defines no function.  On every
    platform, each model of its run is built by the platform from the
    Pyomo problem and [QAOAConfig(num_layers=1)], each solution table is the
    platform's answer for that problem and an executed result, every best
    solution printed is a row of such a table, and the programs synthesized
    and executed are the platform's: the notebook chooses among what the
    platform returns and computes no step of the optimization. *)
Theorem optimization_tutorial_only_configures :
  let alo := LearningOptimization.application_level_object in
  let cfg := {| num_layers := 1; penalty_energy := default_penalty_energy |} in
  let t := trace LearningOptimization.cells in
  filter (fun f => String.eqb (Source.notebook f) "learning_optimization")
         Inventory.functions = []
  /\ (forall m, In (CreateModel m) t ->
        m = CombinatorialOptimizationModel alo cfg)
  /\ (forall r rows, In (GetSolution r rows) t ->
        rows = solution_answer alo r (penalty_energy cfg))
  /\ (forall x c, In (Display (PrintedBest x c)) t ->
        exists r rows row,
          In (GetSolution r rows) t /\ In row rows
          /\ x = solution row /\ c = cost row)
  /\ sourced [] [] [] t
  /\ Forall from_platform t.
Proof.
  intros alo cfg t.
  split; [reflexivity | ].
  assert (sourced [] [] [] t /\ Forall from_platform t) as [Hs Hp].
  { split; apply learning_optimization_order. }
  unfold t in *.
  destruct learning_optimization_trace
    as [E | [[row1 [In1 E]] | [row1 [row2 [In1 [In2 E]]]]]];
    rewrite E in *; cbv zeta in *; clear E;
    (split; [ | split; [ | split; [ | split; [exact Hs | exact Hp]]]]).
  - intros m Hin. in_listing Hin. inversion Hin; reflexivity.
  - intros r rows Hin. in_listing Hin. inversion Hin; reflexivity.
  - intros x c Hin. in_listing Hin.
  - intros m Hin. in_listing Hin; inversion Hin; reflexivity.
  - intros r rows Hin. in_listing Hin; inversion Hin; reflexivity.
  - intros x c Hin. in_listing Hin. inversion Hin; subst.
    eexists. eexists. exists row1. split; [ | split; [exact In1 | auto]].
    simpl. do 4 right. left. reflexivity.
  - intros m Hin. in_listing Hin; inversion Hin; reflexivity.
  - intros r rows Hin. in_listing Hin; inversion Hin; reflexivity.
  - intros x c Hin. in_listing Hin; inversion Hin; subst.
    + eexists. eexists. exists row1. split; [ | split; [exact In1 | auto]].
      simpl. do 4 right. left. reflexivity.
    + eexists. eexists. exists row2. split; [ | split; [exact In2 | auto]].
      simpl. do 12 right. left. reflexivity.
Qed.

End OptimizationTutorial.

Section OptimizationRun.
Import Py Qmod Classiq Run Shape Repository Sample.

Lemma optimization_tutorial_witness :
  sourced [] [] [] (trace LearningOptimization.cells).
Proof.
  exact (proj1 (proj2 (proj2 (proj2 (proj2
           optimization_tutorial_only_configures))))).
Defined.

End OptimizationRun.

(** ** What the classical helpers return *)

Section Log10.
Import Py PyMath.

Lemma search_up_spec fuel : forall (q : Q) (e : Z),
  (ten ^ e <= q)%Q ->
  (q < ten ^ (e + Z.of_nat fuel))%Q ->
  let r := search_up fuel q e in
  (ten ^ r <= q < ten ^ (r + 1))%Q.
Proof.
  induction fuel as [| f IH]; intros q e Hlo Hhi r; unfold r; simpl.
  - exfalso. rewrite Z.add_0_r in Hhi. lra.
  - destruct (Qle_bool (ten ^ (e + 1)) q) eqn:E.
    + apply Qle_bool_iff in E. apply IH; [exact E | ].
      replace (e + 1 + Z.of_nat f) with (e + Z.of_nat (S f)) by lia. exact Hhi.
    + split; [exact Hlo | ].
      apply Qnot_le_lt. intros Hle. apply Qle_bool_iff in Hle. congruence.
Qed.

Lemma search_down_spec fuel : forall (q : Q) (e : Z),
  (q < ten ^ (e + 1))%Q ->
  (ten ^ (e - Z.of_nat fuel + 1) <= q)%Q ->
  let r := search_down fuel q e in
  (ten ^ r <= q < ten ^ (r + 1))%Q.
Proof.
  induction fuel as [| f IH]; intros q e Hhi Hlo r; unfold r; simpl.
  - exfalso. simpl in Hlo. rewrite Z.sub_0_r in Hlo. lra.
  - destruct (Qle_bool (ten ^ e) q) eqn:E.
    + apply Qle_bool_iff in E. split; assumption.
    + apply IH.
      * replace (e - 1 + 1) with e by lia.
        apply Qnot_le_lt. intros Hle. apply Qle_bool_iff in Hle. congruence.
      * replace (e - 1 - Z.of_nat f + 1) with (e - Z.of_nat (S f) + 1) by lia.
        exact Hlo.
Qed.

Lemma pow10_ge_pow2 (k : Z) : 0 <= k -> 2 ^ k <= 10 ^ k.
Proof. intros Hk. apply Z.pow_le_mono_l. lia. Qed.

Lemma ten_power (k : Z) : 0 <= k -> (ten ^ k == inject_Z (10 ^ k))%Q.
Proof. intros Hk. unfold ten. symmetry. apply Zpower_Qpower. exact Hk. Qed.

Lemma below_power_of_ten (n : Z) (d : positive) :
  0 < n -> (n # d < ten ^ (Z.log2 n + 1))%Q.
Proof.
  intros Hn. pose proof (Z.log2_nonneg n) as Hl.
  rewrite ten_power by lia.
  destruct (Z.log2_spec n Hn) as [_ Hlt].
  pose proof (pow10_ge_pow2 (Z.log2 n + 1) ltac:(lia)) as Hp.
  replace (Z.succ (Z.log2 n)) with (Z.log2 n + 1) in Hlt by lia.
  unfold Qlt, inject_Z. simpl.
  assert (n * 1 <= n * Z.pos d) by (apply Z.mul_le_mono_nonneg_l; lia).
  nia.
Qed.

Lemma above_inverse_power_of_ten (n : Z) (d : positive) :
  0 < n -> (ten ^ (- (Z.log2 (Z.pos d) + 1)) <= n # d)%Q.
Proof.
  intros Hn. pose proof (Z.log2_nonneg (Z.pos d)) as Hl.
  rewrite Qpower_opp, ten_power by lia.
  destruct (Z.log2_spec (Z.pos d) ltac:(lia)) as [_ Hlt].
  pose proof (pow10_ge_pow2 (Z.log2 (Z.pos d) + 1) ltac:(lia)) as Hp.
  replace (Z.succ (Z.log2 (Z.pos d))) with (Z.log2 (Z.pos d) + 1) in Hlt
    by lia.
  set (P := 10 ^ (Z.log2 (Z.pos d) + 1)) in *.
  assert (0 < P) as HP by lia.
  destruct P as [| p | p]; try lia.
  unfold Qle, Qinv, inject_Z. simpl. nia.
Qed.

(** [floor(log10(abs(x)))] is the decimal exponent of [x]. *)
Lemma floor_log10_abs_spec (x : Q) (e : Z) :
  floor_log10_abs x = Returned e ->
  (ten ^ e <= Qabs x < ten ^ (e + 1))%Q.
Proof.
  unfold floor_log10_abs.
  destruct (Qeq_bool (Qabs x) 0) eqn:E0; [discriminate | ].
  assert (0 < Qabs x)%Q as Hpos.
  { pose proof (Qabs_nonneg x) as Hge.
    apply Qle_lteq in Hge. destruct Hge as [Hlt | Heq]; [exact Hlt | ].
    exfalso. symmetry in Heq. apply Qeq_bool_iff in Heq. congruence. }
  set (a := Qabs x) in *.
  assert (0 < Qnum a) as Hnum.
  { destruct a as [n d]. unfold Qlt in Hpos. simpl in *. lia. }
  destruct (Qle_bool 1 a) eqn:E1; intros E; injection E as <-.
  - apply Qle_bool_iff in E1.
    apply (search_up_spec (S (Z.to_nat (Z.log2 (Qnum a)))) a 0).
    + exact E1.
    + pose proof (Z.log2_nonneg (Qnum a)).
      replace (0 + Z.of_nat (S (Z.to_nat (Z.log2 (Qnum a)))))
        with (Z.log2 (Qnum a) + 1) by lia.
      destruct a as [n d]. simpl in *. now apply below_power_of_ten.
  - apply (search_down_spec (S (Z.to_nat (Z.log2 (Z.pos (Qden a))))) a (-1)).
    + replace (-1 + 1) with 0 by lia. change (ten ^ 0)%Q with 1%Q.
      apply Qnot_le_lt. intros Hle. apply Qle_bool_iff in Hle. congruence.
    + pose proof (Z.log2_nonneg (Z.pos (Qden a))).
      replace (-1 - Z.of_nat (S (Z.to_nat (Z.log2 (Z.pos (Qden a))))) + 1)
        with (- (Z.log2 (Z.pos (Qden a)) + 1)) by lia.
      destruct a as [n d]. simpl in *. now apply above_inverse_power_of_ten.
Qed.

End Log10.

Section Contracts.
Import Py Qmod QuantumVolume.



Lemma round_significant_raises_iff (x : Q) :
  round_significant x = Raised (ValueError "math domain error")
  <-> (x == 0)%Q.
Proof.
  split; [ | apply round_significant_zero].
  unfold round_significant, PyMath.floor_log10_abs.
  destruct (Qeq_bool (Qabs x) 0) eqn:E.
  - intros _. apply Qeq_bool_iff in E.
    destruct (Qlt_le_dec x 0) as [Hneg | Hpos].
    + rewrite Qabs_neg in E by lra. lra.
    + rewrite Qabs_pos in E by lra. exact E.
  - destruct (Qle_bool 1 (Qabs x)); discriminate.
Qed.

(** On any other number [round_significant] returns. *)
Lemma round_significant_returns (x : Q) :
  ~ (x == 0)%Q -> exists r : Q, round_significant x = Returned r.
Proof.
  intros Hx. unfold round_significant.
  destruct (PyMath.floor_log10_abs x) as [e | err] eqn:E.
  - eexists. reflexivity.
  - exfalso. apply Hx. apply round_significant_raises_iff.
    unfold round_significant. rewrite E. f_equal.
    unfold PyMath.floor_log10_abs in E.
    destruct (Qeq_bool (Qabs x) 0).
    + injection E as <-. reflexivity.
    + destruct (Qle_bool 1 (Qabs x)); discriminate E.
Qed.

End Contracts.

Section ContractsClaim.
Import Py Qmod QuantumVolume Source Shapes.



End ContractsClaim.


(** * Further properties of the code *)

(** ** The Shor notebook: powers of the matrix, the histogram *)

Section ShorPowers.
Import Shor.

Lemma times_seven_stays (x : Z) :
  1 <= x <= 14 -> 1 <= 7 * x mod 15 <= 14.
Proof.
  apply (small_cases (fun x => 1 <= 7 * x mod 15 <= 14));
    vm_compute; split; discriminate.
Qed.

Lemma matrix_power_times (n : nat) : forall x, 1 <= x <= 14 ->
  1 <= 7 ^ Z.of_nat n * x mod 15 <= 14
  /\ Nat.iter n (matvec get_modular_multiplication_matrix) (basis 16 x)
     = basis 16 (7 ^ Z.of_nat n * x mod 15).
Proof.
  induction n as [ | n IH]; intros x Hx.
  - change (7 ^ Z.of_nat 0) with 1. rewrite Z.mul_1_l, Z.mod_small by lia.
    split; [lia | reflexivity].
  - destruct (IH x Hx) as [Hy Ey].
    assert (7 ^ Z.of_nat (S n) * x mod 15
            = 7 * (7 ^ Z.of_nat n * x mod 15) mod 15) as E.
    { rewrite Nat2Z.inj_succ, Z.pow_succ_r by lia.
      rewrite Z.mul_mod_idemp_r by lia. f_equal. ring. }
    rewrite E. split; [now apply times_seven_stays | ].
    rewrite Nat.iter_succ, Ey.
    now apply matrix_times_seven.
Qed.

Lemma sixteen_cases (P : Z -> Prop) :
  P 0 -> P 15 -> (forall x, 1 <= x <= 14 -> P x) ->
  forall x, 0 <= x <= 15 -> P x.
Proof.
  intros H0 H15 Hmid x Hx.
  destruct (Z.eq_dec x 0) as [-> | ]; [exact H0 | ].
  destruct (Z.eq_dec x 15) as [-> | ]; [exact H15 | ].
  apply Hmid. lia.
Qed.

Lemma matrix_fourth_power (x : Z) :
  0 <= x <= 15 ->
  Nat.iter 4 (matvec get_modular_multiplication_matrix) (basis 16 x)
  = basis 16 x.
Proof.
  apply (sixteen_cases
           (fun x => Nat.iter 4 (matvec get_modular_multiplication_matrix)
                              (basis 16 x) = basis 16 x)).
  - vm_compute. reflexivity.
  - vm_compute. reflexivity.
  - intros y Hy. destruct (matrix_power_times 4 y Hy) as [_ ->].
    f_equal. change (7 ^ Z.of_nat 4) with 2401.
    rewrite <- Z.mul_mod_idemp_l by lia. change (2401 mod 15) with 1.
    rewrite Z.mul_1_l. apply Z.mod_small. lia.
Qed.

Lemma matrix_power_multiple_of_four (m : nat) (x : Z) :
  0 <= x <= 15 ->
  Nat.iter (4 * m) (matvec get_modular_multiplication_matrix) (basis 16 x)
  = basis 16 x.
Proof.
  intros Hx. induction m as [ | m IH]; [reflexivity | ].
  replace (4 * S m)%nat with (4 + 4 * m)%nat by lia.
  rewrite Nat.iter_add, IH. now apply matrix_fourth_power.
Qed.

(** X1: applying the matrix of [get_modular_multiplication_matrix] n times
    multiplies a basis state by 7^n modulo 15; four applications give
    every basis state back, so the power [2**exponent] that
    [modular_exponentiation] asks for leaves every basis state in place
    from exponent 2 on, while for exponents 0 and 1 it does not. *)
Theorem modular_multiplication_powers :
  (forall (n : nat) (x : Z), 1 <= x <= 14 ->
     Nat.iter n (matvec get_modular_multiplication_matrix) (basis 16 x)
     = basis 16 (7 ^ Z.of_nat n * x mod 15))
  /\ (forall (exponent : nat) (x : Z),
        (2 <= exponent)%nat -> 0 <= x <= 15 ->
        Nat.iter (2 ^ exponent) (matvec get_modular_multiplication_matrix)
                 (basis 16 x)
        = basis 16 x)
  /\ Nat.iter (2 ^ 0) (matvec get_modular_multiplication_matrix) (basis 16 1)
     = basis 16 7
  /\ Nat.iter (2 ^ 1) (matvec get_modular_multiplication_matrix) (basis 16 1)
     = basis 16 4.
Proof.
  split; [intros n x Hx; now apply matrix_power_times | ].
  split; [ | split; vm_compute; reflexivity].
  intros exponent x He Hx.
  destruct exponent as [ | [ | e]]; [lia | lia | ].
  replace (2 ^ S (S e))%nat with (4 * 2 ^ e)%nat
    by (rewrite !Nat.pow_succ_r'; lia).
  now apply matrix_power_multiple_of_four.
Qed.

End ShorPowers.

Lemma modular_multiplication_powers_witness :
  Nat.iter 3 (Shor.matvec Shor.get_modular_multiplication_matrix)
           (Shor.basis 16 2)
  = Shor.basis 16 (7 ^ Z.of_nat 3 * 2 mod 15)
  /\ Nat.iter (2 ^ 2) (Shor.matvec Shor.get_modular_multiplication_matrix)
              (Shor.basis 16 15)
     = Shor.basis 16 15.
Proof.
  split.
  - apply (proj1 modular_multiplication_powers). lia.
  - apply (proj1 (proj2 modular_multiplication_powers)); lia.
Defined.

Section ShorHistogram.
Import ShorNotebook Histogram.

Lemma add_count_fresh hist key value :
  ~ In key (map fst hist) -> add_count hist key value = hist ++ [(key, value)].
Proof.
  induction hist as [ | [k v] rest IH]; intros Hfresh; [reflexivity | ].
  simpl in *. destruct (String.eqb_spec k key) as [-> | _].
  - exfalso. apply Hfresh. now left.
  - rewrite IH; [reflexivity | ]. intros Hin. apply Hfresh. now right.
Qed.

Lemma add_count_total hist key value :
  Zsum (map snd (add_count hist key value)) = Zsum (map snd hist) + value.
Proof.
  induction hist as [ | [k v] rest IH]; simpl; [lia | ].
  destruct (String.eqb k key); simpl; [lia | rewrite IH; lia].
Qed.

Lemma add_count_keys hist key value :
  map fst (add_count hist key value)
  = if existsb (String.eqb key) (map fst hist) then map fst hist
    else map fst hist ++ [key].
Proof.
  induction hist as [ | [k v] rest IH]; simpl; [reflexivity | ].
  rewrite (String.eqb_sym key k).
  destruct (String.eqb k key); simpl; [reflexivity | ].
  rewrite IH. now destruct (existsb _ _).
Qed.

Lemma histogram_loop counts : forall hist,
  NoDup (map fst (hist ++ counts)) ->
  fold_left (fun hist kv => add_count hist (fst kv) (snd kv)) counts hist
  = hist ++ counts.
Proof.
  induction counts as [ | [k v] rest IH]; intros hist Hnd; simpl.
  - now rewrite app_nil_r.
  - rewrite add_count_fresh.
    + rewrite IH; rewrite <- app_assoc; [reflexivity | exact Hnd].
    + rewrite map_app in Hnd. simpl in Hnd.
      apply NoDup_remove_2 in Hnd. intros Hin. apply Hnd.
      apply in_or_app. now left.
Qed.

Lemma histogram_total counts : forall hist,
  Zsum (map snd (fold_left (fun hist kv => add_count hist (fst kv) (snd kv))
                           counts hist))
  = Zsum (map snd hist) + Zsum (map snd counts).
Proof.
  induction counts as [ | [k v] rest IH]; intros hist; simpl; [lia | ].
  rewrite IH, add_count_total. lia.
Qed.

Lemma histogram_keys_distinct counts : forall hist,
  NoDup (map fst hist) ->
  NoDup (map fst (fold_left
                    (fun hist kv => add_count hist (fst kv) (snd kv))
                    counts hist)).
Proof.
  induction counts as [ | [k v] rest IH]; intros hist Hnd; simpl;
    [exact Hnd | ].
  apply IH. rewrite add_count_keys.
  destruct (existsb (String.eqb k) (map fst hist)) eqn:E; [exact Hnd | ].
  apply NoDup_app; [exact Hnd | repeat constructor; intros [] | ].
  intros x Hx [Ek | []]. subst x.
  assert (existsb (String.eqb k) (map fst hist) = true) as E'.
  { apply existsb_exists. exists k. split; [exact Hx | apply String.eqb_refl]. }
  congruence.
Qed.

(** X2: the histogram that the Shor notebook builds from
    [res.counts.items()] is the table of counts itself when its keys
    are distinct, as the keys of a dict are, and this is what the
    notebook plots; whatever the keys, no two bars share a key and the
    bars add up to the counts. *)
Theorem histogram_is_the_counts `{Classiq.Platform}
        (items : list (string * Z)) :
  (NoDup (map fst items) -> hist_counting_qubits items = items)
  /\ NoDup (map fst (hist_counting_qubits items))
  /\ Zsum (map snd (hist_counting_qubits items)) = Zsum (map snd items)
  /\ (let m := Qmod.ModelOf ShorNotebook.main in
      let r := Classiq.execute_answer 1 (Classiq.synthesize_answer 0 m) in
      NoDup (map fst (Qmod.counts r)) ->
      In (Classiq.Display (Classiq.BarPlot (Qmod.counts r)))
         (Repository.trace ShorNotebook.cells)).
Proof.
  unfold hist_counting_qubits. split; [ | split; [ | split]].
  - intros Hnd. now rewrite histogram_loop.
  - apply histogram_keys_distinct. constructor.
  - now rewrite histogram_total.
  - cbv zeta. intros Hnd. rewrite shor_trace. cbv zeta.
    rewrite histogram_loop by exact Hnd.
    do 5 right. left. reflexivity.
Qed.

End ShorHistogram.

Section ShorHistogramRun.
Import Sample.

Lemma histogram_witness :
  Histogram.hist_counting_qubits [("00", 3); ("10", 5)]%string
  = [("00", 3); ("10", 5)]%string.
Proof.
  apply (proj1 (histogram_is_the_counts [("00", 3); ("10", 5)]%string)).
  repeat constructor; simpl; intuition discriminate.
Defined.

End ShorHistogramRun.

(** ** The Grover notebook: the predicate and the checking cell *)

Section GroverPredicate.
Import Grover GroverCheck.

Lemma lxor_1_testbit (c i : Z) :
  0 < i -> Z.testbit (Z.lxor c 1) i = Z.testbit c i.
Proof.
  intros Hi. rewrite Z.lxor_spec. change 1 with (2 ^ 0).
  rewrite Z.pow2_bits_eqb by lia.
  destruct (Z.eqb_spec 0 i); [lia | apply xorb_false_r].
Qed.

Lemma classical_predicate_low_bit (a b c : Z) :
  classical_predicate a b (Z.lxor c 1) = classical_predicate a b c.
Proof.
  unfold classical_predicate.
  assert (Z.land (Z.lxor c 1) 6 = Z.land c 6) as ->.
  { apply Z.bits_inj'. intros i Hi. rewrite !Z.land_spec.
    destruct (Z.eq_dec i 0) as [-> | Hne].
    - change (Z.testbit 6 0) with false. now rewrite !andb_false_r.
    - now rewrite lxor_1_testbit by lia. }
  assert (Z.land 4 (Z.lxor c 1) = Z.land 4 c) as ->.
  { apply Z.bits_inj'. intros i Hi. rewrite !Z.land_spec.
    destruct (Z.eq_dec i 0) as [-> | Hne].
    - reflexivity.
    - now rewrite lxor_1_testbit by lia. }
  reflexivity.
Qed.

(** X3: [classical_predicate] does not tell [a] from [b], depends on them
    through [a + b] modulo 4 only, and ignores the lowest bit of [c]; on
    the registers that [definitions] declares, 16 of the 128 assignments
    satisfy it. *)
Theorem classical_predicate_solutions :
  (forall a b c, classical_predicate a b c = classical_predicate b a c)
  /\ (forall a b a' b' c,
        (a + b) mod 4 = (a' + b') mod 4 ->
        classical_predicate a b c = classical_predicate a' b' c)
  /\ (forall a b c,
        classical_predicate a b (Z.lxor c 1) = classical_predicate a b c)
  /\ List.length search_space = 128%nat
  /\ List.length solutions = 16%nat.
Proof.
  split; [ | split; [ | split; [ | split; reflexivity]]].
  - intros a b c. unfold classical_predicate. now rewrite (Z.add_comm a b).
  - intros a b a' b' c E. unfold classical_predicate.
    rewrite <- (Z.add_mod_idemp_l (a + b)) by lia.
    rewrite <- (Z.add_mod_idemp_l (a' + b')) by lia.
    now rewrite E.
  - exact classical_predicate_low_bit.
Qed.

End GroverPredicate.

Lemma classical_predicate_solutions_witness :
  Grover.classical_predicate 1 3 4 = Grover.classical_predicate 2 2 4.
Proof.
  apply (proj1 (proj2 classical_predicate_solutions)). reflexivity.
Defined.

Section GroverCells.
Import Py Qmod Classiq Repository Grover GroverCheck.
Context `{Platform}.

Lemma register_returned row name v :
  dict_getitem (state row) name = Returned v -> register row name = int v.
Proof. intros E. unfold register. now rewrite E. Qed.

Lemma check_row_returns (rows : list parsed_state) (k : nat) row (w : world) :
  nth_error rows k = Some row -> has_registers row = true ->
  (row <- lift (seq_getitem rows (Z.to_nat (Z.of_nat k))) ;;
   let parsed_res := state row in
   a <- lift (dict_getitem parsed_res "a") ;;
   b <- lift (dict_getitem parsed_res "b") ;;
   c <- lift (dict_getitem parsed_res "c") ;;
   let '(a, b, c) := (int a, int b, int c) in
   display (PrintedCheck a b c (classical_predicate a b c)))%py w
  = (Returned tt,
     {| clock := clock w; log := log w ++ [Display (check_line row)] |}).
Proof.
  intros Hk Hrow. rewrite Nat2Z.id.
  unfold has_registers in Hrow. simpl in Hrow.
  destruct (dict_getitem (state row) "a") as [a | ] eqn:Ea; [ | discriminate].
  destruct (dict_getitem (state row) "b") as [b | ] eqn:Eb; [ | discriminate].
  destruct (dict_getitem (state row) "c") as [c | ] eqn:Ec; [ | discriminate].
  unfold check_line.
  rewrite (register_returned _ _ _ Ea), (register_returned _ _ _ Eb),
    (register_returned _ _ _ Ec).
  unfold bind, lift, seq_getitem. rewrite Hk, Ea, Eb, Ec. reflexivity.
Qed.

Lemma check_row_raises (rows : list parsed_state) (k : nat) (w : world) :
  nth_error rows k = None ->
  (row <- lift (seq_getitem rows (Z.to_nat (Z.of_nat k))) ;;
   let parsed_res := state row in
   a <- lift (dict_getitem parsed_res "a") ;;
   b <- lift (dict_getitem parsed_res "b") ;;
   c <- lift (dict_getitem parsed_res "c") ;;
   let '(a, b, c) := (int a, int b, int c) in
   display (PrintedCheck a b c (classical_predicate a b c)))%py w
  = (Raised (IndexError "list index out of range"), w).
Proof.
  intros Hk. rewrite Nat2Z.id. unfold bind, lift, seq_getitem.
  now rewrite Hk.
Qed.

Lemma skipn_nth_error {A} (l : list A) (i : nat) (a : A) :
  nth_error l i = Some a -> skipn i l = a :: skipn (S i) l.
Proof.
  revert i. induction l as [ | x l IH]; intros [ | i] E; try discriminate.
  - now injection E as ->.
  - simpl in E. now apply IH.
Qed.

Lemma check_loop (rows : list parsed_state) (n : nat) :
  forall (i : nat) (w : world),
    (i <= List.length rows)%nat ->
    forallb has_registers (firstn n (skipn i rows)) = true ->
    let run :=
      for_each (map Z.of_nat (seq i n)) tt (fun k _ =>
        row <- lift (seq_getitem rows (Z.to_nat k)) ;;
        let parsed_res := state row in
        a <- lift (dict_getitem parsed_res "a") ;;
        b <- lift (dict_getitem parsed_res "b") ;;
        c <- lift (dict_getitem parsed_res "c") ;;
        let '(a, b, c) := (int a, int b, int c) in
        display (PrintedCheck a b c (classical_predicate a b c)))%py w in
    log (snd run)
    = log w ++ map (fun row => Display (check_line row))
                   (firstn n (skipn i rows))
    /\ fst run
       = if (i + n <=? List.length rows)%nat then Returned tt
         else Raised (IndexError "list index out of range").
Proof.
  induction n as [ | n IH]; intros i w Hi Hrows run.
  - subst run. simpl. rewrite app_nil_r. split; [reflexivity | ].
    destruct (Nat.leb_spec (i + 0) (List.length rows)); [reflexivity | lia].
  - subst run. cbn [seq map for_each].
    destruct (nth_error rows i) as [row | ] eqn:Ei.
    + rewrite (skipn_nth_error _ _ _ Ei) in Hrows |- *.
      cbn [firstn forallb] in Hrows. apply andb_true_iff in Hrows.
      destruct Hrows as [Hrow Hrows].
      assert (i < List.length rows)%nat as Hlt
        by (apply nth_error_Some; congruence).
      pose proof (check_row_returns rows i row w Ei Hrow) as Hbody.
      erewrite bind_returned_eq; [ | exact Hbody | reflexivity].
      destruct (IH (S i) {| clock := clock w;
                            log := log w ++ [Display (check_line row)] |}
                   ltac:(lia) Hrows) as [El Eo].
      cbn [log] in El. split.
      * etransitivity; [exact El | ]. now rewrite <- app_assoc.
      * etransitivity; [exact Eo | ].
        now replace (S i + n)%nat with (i + S n)%nat by lia.
    + apply nth_error_None in Ei.
      rewrite (bind_raised_eq _ _ _ _ _ (check_row_raises rows i w
                 ltac:(now apply nth_error_None))).
      rewrite skipn_all2 by lia. cbn [firstn map fst snd].
      rewrite app_nil_r. split; [reflexivity | ].
      destruct (Nat.leb_spec (i + S n) (List.length rows)); [lia | reflexivity].
Qed.

(** X4: the last cell of the Grover notebook prints one line for each of
    the three first states of [parsed_counts], in their order, with the
    predicate evaluated on the integer values of [a], [b] and [c]; when
    the platform reports fewer than three states it prints a line for
    each and then raises IndexError. *)
Theorem grover_checks_the_three_first_states :
  let m := GroverModel 1 Grover.expression Grover.definitions in
  let q := synthesize_answer 0 m in
  let p := {| num_shots := None;
              backend_preferences :=
                ClassiqBackend "ClassiqSimulatorBackendNames.SIMULATOR" |} in
  let q' := set_preferences_answer q p in
  let r := execute_answer 1 q' in
  let rows := parsed_counts r in
  forallb has_registers (firstn 3 rows) = true ->
  trace Grover.cells
  = [ CreateModel m; WriteQmod m "grover"; Synthesize m q; ShowCircuit q;
      SetPreferences q p q'; Execute q' r ]
    ++ map (fun row => Display (check_line row)) (firstn 3 rows)
  /\ fst (Grover.cells start)
     = if (3 <=? List.length rows)%nat then Returned tt
       else Raised (IndexError "list index out of range").
Proof.
  intros m q p q' r rows Hrows.
  unfold trace, Grover.cells.
  cbn [bind construct_grover_model build emit ret write_qmod synthesize tick
       show set_quantum_program_execution_preferences execute start clock log
       app fst snd].
  fold m q p q' r. fold rows.
  change (range 0 Grover.NUM_SOLUTIONS) with (map Z.of_nat (seq 0 3)).
  match goal with
  | |- context [for_each _ tt _ ?w] =>
      destruct (check_loop rows 3 0 w ltac:(lia) Hrows) as [El Eo]
  end.
  split; [exact El | exact Eo].
Qed.

End GroverCells.

Section GroverRun.
Import Py Qmod Classiq Repository GroverCheck.

Lemma grover_checks_witness :
  fst (Grover.cells (H := measured_platform) start) = Returned tt.
Proof.
  exact (proj2 (grover_checks_the_three_first_states
                  (H := measured_platform) eq_refl)).
Defined.

End GroverRun.

(** ** The layers of the quantum volume circuit *)

Section Layers.
Import Py Qmod Classiq QuantumVolume Shape Layer.
Context `{Platform} `{Random} `{Numpy.Sqrt}.

Lemma range_NoDup lo hi : NoDup (range lo hi).
Proof.
  unfold range. apply NoDup_map_NoDup_ForallPairs; [ | apply seq_NoDup].
  intros x y _ _ E. lia.
Qed.

Lemma pairs_interleave {A} (f g : A -> Z) (l : list A) :
  Permutation (flat_map (fun x => [f x; g x]) l) (map f l ++ map g l).
Proof.
  induction l as [ | a l IH]; simpl; [constructor | ].
  constructor. etransitivity; [ | apply Permutation_middle].
  now constructor.
Qed.

(** The loop of [qv_layer] over the pairs. *)
Lemma qv_layer_loop target (qubit_list : list Z) (h : Z) :
  forall (idxs : list Z) (calls : list qstmt) (w : world),
    (forall idx, In idx idxs ->
       0 <= idx /\ h + idx < Z.of_nat (List.length qubit_list)) ->
    0 <= h ->
    exists gates w',
      for_each idxs calls (fun idx calls =>
        a <- lift (list_getitem qubit_list idx) ;;
        b <- lift (list_getitem qubit_list (h + idx)) ;;
        gate_matrix <- haar 4 ;;
        ret (calls ++ [QCallFunc apply_2qbit_unitary
                         [Matrix gate_matrix; Index target a;
                          Index target b]]))%py w
      = (Returned (calls ++ gates), w')
      /\ Forall (is_gate target) gates
      /\ layer_qubits gates
         = flat_map (fun idx => [nth (Z.to_nat idx) qubit_list 0;
                                 nth (Z.to_nat (h + idx)) qubit_list 0]) idxs
      /\ List.length gates = List.length idxs
      /\ log w' = log w
      /\ clock w' = (clock w + List.length idxs)%nat.
Proof.
  induction idxs as [ | idx idxs IH]; intros calls w Hidx Hh.
  - exists [], w. simpl. rewrite app_nil_r.
    repeat split; auto.
  - destruct (Hidx idx (in_eq _ _)) as [Hge Hlt].
    cbn [for_each].
    unfold bind at 1. unfold bind at 1. unfold lift at 1.
    unfold list_getitem at 1.
    destruct (Z.leb_spec 0 idx); [ | lia].
    destruct (Z.ltb_spec idx (Z.of_nat (List.length qubit_list))); [ | lia].
    cbn [andb]. unfold bind at 1. unfold lift at 1.
    unfold list_getitem at 1.
    destruct (Z.leb_spec 0 (h + idx)); [ | lia].
    destruct (Z.ltb_spec (h + idx) (Z.of_nat (List.length qubit_list)));
      [ | lia].
    cbn [andb]. unfold bind at 1. unfold haar at 1, tick, bind, ret.
    cbn [clock log].
    set (g := QCallFunc apply_2qbit_unitary
                [Matrix (haar_answer (clock w) 4);
                 Index target (nth (Z.to_nat idx) qubit_list 0);
                 Index target (nth (Z.to_nat (h + idx)) qubit_list 0)]).
    destruct (IH (calls ++ [g]) {| clock := S (clock w); log := log w |})
      as (gates & w' & E & Hg & Hq & Hl & Hlog & Hclock);
      [intros; apply Hidx; now right | exact Hh | ].
    exists (g :: gates), w'.
    split; [rewrite <- app_assoc in E; exact E | ].
    split; [constructor; [now eexists _, _, _ | exact Hg] | ].
    split; [simpl; now rewrite <- Hq | ].
    split; [simpl; now rewrite Hl | ].
    split; [exact Hlog | ].
    rewrite Hclock. simpl. lia.
Qed.

Lemma qv_layer_spec target N (w : world) :
  0 <= N ->
  exists calls w',
    qv_layer target N w = (Returned calls, w')
    /\ is_layer target N calls
    /\ log w' = log w
    /\ clock w' = (clock w + 1 + Z.to_nat (N / 2))%nat.
Proof.
  intros HN. unfold qv_layer, shuffle.
  unfold bind at 1. unfold bind at 1. unfold tick at 1, ret at 1.
  set (ql := shuffle_answer (clock w) (range 0 N)).
  assert (Permutation ql (range 0 N)) as Hperm by apply shuffle_permutes.
  assert (List.length ql = Z.to_nat N) as Hlen.
  { rewrite (Permutation_length Hperm), range_length. f_equal. lia. }
  assert (0 <= N / 2) as Hh by (apply Z.div_pos; lia).
  assert (2 * (N / 2) <= N) as H2h by (apply Z.mul_div_le; lia).
  match goal with
  | |- context [for_each _ [] _ ?w1] =>
      destruct (qv_layer_loop target ql (N / 2) (range 0 (N / 2)) [] w1)
        as (gates & w' & E & Hg & Hq & Hl & Hlog & Hclock)
  end; [ | exact Hh | ].
  { intros idx Hidx. apply range_In in Hidx. lia. }
  exists gates, w'. split; [exact E | ].
  rewrite range_length, Z.sub_0_r in Hl, Hclock.
  split; [ | split; [exact Hlog | simpl in Hclock; lia]].
  assert (NoDup ql) as Hnd.
  { apply (Permutation_NoDup (Permutation_sym Hperm)), range_NoDup. }
  split; [exact Hl | split; [exact Hg | ]].
  rewrite Hq. split.
  - eapply Permutation_NoDup; [apply Permutation_sym, pairs_interleave | ].
    rewrite <- (map_map (fun idx => N / 2 + idx)
                        (fun i => nth (Z.to_nat i) ql 0)).
    rewrite <- map_app. apply NoDup_map_NoDup_ForallPairs.
    + intros x y Hx Hy E'.
      assert (forall z, In z (range 0 (N / 2)
                              ++ map (fun idx => N / 2 + idx)
                                     (range 0 (N / 2))) ->
                0 <= z < N) as Hin.
      { intros z Hz. apply in_app_or in Hz. destruct Hz as [Hz | Hz].
        - apply range_In in Hz. lia.
        - apply in_map_iff in Hz. destruct Hz as [i [<- Hi]].
          apply range_In in Hi. lia. }
      apply Hin in Hx, Hy.
      apply (proj1 (NoDup_nth ql 0) Hnd) in E'; lia.
    + apply NoDup_app.
      * apply range_NoDup.
      * apply NoDup_map_NoDup_ForallPairs;
          [intros x y _ _ Exy; lia | apply range_NoDup].
      * intros z Hz Hz'. apply range_In in Hz.
        apply in_map_iff in Hz'. destruct Hz' as [i [<- Hi]].
        apply range_In in Hi. lia.
  - apply Forall_forall. intros q Hq'.
    apply in_flat_map in Hq'. destruct Hq' as [idx [Hidx Hq']].
    apply range_In in Hidx.
    assert (In q ql) as Hin.
    { destruct Hq' as [<- | [<- | []]]; apply nth_In; lia. }
    apply (Permutation_in _ Hperm), range_In in Hin. lia.
Qed.

Lemma gates_have_two_qubits target calls :
  Forall (is_gate target) calls ->
  List.length (layer_qubits calls) = (2 * List.length calls)%nat.
Proof.
  induction 1 as [ | s calls (m & a & b & ->) _ IH]; [reflexivity | ].
  unfold layer_qubits in *. simpl. rewrite IH. lia.
Qed.

(** The loop of [main] in [qv_model] over the layers. *)
Lemma qv_model_loop target N :
  0 <= N ->
  forall (idxs : list Z) (body : list qstmt) (w : world),
    exists layers w',
      for_each idxs body (fun idx body =>
        layer <- qv_layer target N ;;
        ret (body ++ layer))%py w
      = (Returned (body ++ concat layers), w')
      /\ List.length layers = List.length idxs
      /\ Forall (is_layer target N) layers
      /\ log w' = log w
      /\ clock w'
         = (clock w + List.length idxs * (1 + Z.to_nat (N / 2)))%nat.
Proof.
  intros HN. induction idxs as [ | idx idxs IH]; intros body w.
  - exists [], w. simpl. rewrite app_nil_r. repeat split; auto.
  - destruct (qv_layer_spec target N w HN)
      as (layer & w1 & El & Hlayer & Hlog1 & Hclock1).
    destruct (IH (body ++ layer) w1)
      as (layers & w' & E & Hlen & Hall & Hlog & Hclock).
    exists (layer :: layers), w'.
    split.
    { cbn [for_each]. eapply bind_returned_eq.
      - eapply bind_returned_eq; [exact El | reflexivity].
      - rewrite E. simpl. now rewrite <- app_assoc. }
    split; [simpl; now rewrite Hlen | ].
    split; [now constructor | ].
    split; [congruence | ].
    rewrite Hclock, Hclock1. simpl. lia.
Qed.

Lemma qv_model_layers N (w : world) :
  exists m w',
    qv_model N w = (Returned m, w')
    /\ is_qv_model N m
    /\ log w' = log w ++ [CreateModel m]
    /\ clock w' = (clock w + Z.to_nat N * (1 + Z.to_nat (N / 2)))%nat.
Proof.
  unfold qv_model, is_qv_model.
  destruct (Z_lt_le_dec N 0) as [Hneg | HN].
  - rewrite range_nil by lia.
    eexists. eexists. split; [reflexivity | ].
    split; [exists []; repeat split; [ | constructor] | ].
    + now replace (Z.to_nat N) with 0%nat by lia.
    + cbn. split; [reflexivity | lia].
  - destruct (qv_model_loop "target" N HN (range 0 N)
                [QCall "allocate" [Int N; Var "target"]] w)
      as (layers & w1 & E & Hlen & Hall & Hlog & Hclock).
    rewrite range_length, Z.sub_0_r in Hlen, Hclock.
    eexists. eexists. split.
    { eapply bind_returned_eq; [exact E | reflexivity]. }
    split; [exists layers; repeat split; assumption | ].
    cbn [log clock]. split; [now rewrite Hlog | exact Hclock].
Qed.

(** X5: a layer of the quantum volume circuit on [N] qubits is [N // 2]
    applications of [apply_2qbit_unitary] on qubits of [target] that
    are all different and lie between 0 and [N - 1], whatever
    [random.shuffle] and [haar] answer; so when [N] is odd exactly one
    qubit is left out.  Building a layer calls no platform service. *)
Theorem qv_layer_pairs_distinct_qubits (target : string) (N : Z)
        (w : world) :
  0 <= N ->
  exists calls w',
    qv_layer target N w = (Returned calls, w')
    /\ List.length calls = Z.to_nat (N / 2)
    /\ Forall (is_gate target) calls
    /\ NoDup (layer_qubits calls)
    /\ Forall (fun q => 0 <= q < N) (layer_qubits calls)
    /\ Z.of_nat (List.length (layer_qubits calls)) = N - N mod 2
    /\ log w' = log w.
Proof.
  intros HN.
  destruct (qv_layer_spec target N w HN)
    as (calls & w' & E & (Hlen & Hg & Hnd & Hin) & Hlog & _).
  exists calls, w'. repeat (split; [assumption | ]).
  split; [ | exact Hlog].
  rewrite (gates_have_two_qubits target) by exact Hg. rewrite Hlen.
  rewrite Nat2Z.inj_mul, Z2Nat.id by (apply Z.div_pos; lia).
  pose proof (Z.div_mod N 2 ltac:(lia)). simpl Z.of_nat. lia.
Qed.

(** X6: the model that [qv_model(N)] hands to [create_model] allocates
    [N] qubits and then holds [N] layers, each one [N // 2] two-qubit
    unitaries on different qubits; it is the one model the call
    creates. *)
Theorem qv_model_has_N_layers (N : Z) (w : world) :
  exists layers w',
    let m := ModelOf (QFunc "main" ["target"%string]
                        (QCall "allocate" [Int N; Var "target"]
                         :: concat layers)) in
    qv_model N w = (Returned m, w')
    /\ List.length layers = Z.to_nat N
    /\ Forall (is_layer "target" N) layers
    /\ List.length (concat layers) = (Z.to_nat N * Z.to_nat (N / 2))%nat
    /\ log w' = log w ++ [CreateModel m].
Proof.
  destruct (qv_model_layers N w)
    as (m & w' & E & (layers & -> & Hlen & Hall) & Hlog & _).
  exists layers, w'. cbv zeta. repeat (split; [assumption | ]).
  split; [ | exact Hlog].
  rewrite <- Hlen. clear - Hall.
  induction Hall as [ | layer layers (Hl & _) _ IH]; [reflexivity | ].
  simpl. rewrite length_app, IH, Hl. reflexivity.
Qed.

End Layers.

Section LayersRun.
Import Py Qmod Classiq QuantumVolume Layer Sample.

Lemma qv_layer_witness :
  exists calls w',
    qv_layer "target" 5 start = (Returned calls, w')
    /\ List.length calls = Z.to_nat (5 / 2)
    /\ Forall (is_gate "target") calls
    /\ NoDup (layer_qubits calls)
    /\ Forall (fun q => 0 <= q < 5) (layer_qubits calls)
    /\ Z.of_nat (List.length (layer_qubits calls)) = 5 - 5 mod 2
    /\ log w' = log start.
Proof. apply qv_layer_pairs_distinct_qubits. lia. Defined.

End LayersRun.

(** ** The heavy outputs are at least half of the shots *)

Section HeavyHalf.
Import Qmod QuantumVolume Numpy.

Lemma insert_sorted_perm x l : Permutation (insert_sorted x l) (x :: l).
Proof.
  induction l as [ | y l IH]; simpl; [constructor; constructor | ].
  destruct (x <=? y); [apply Permutation_refl | ].
  etransitivity; [apply perm_skip, IH | apply perm_swap].
Qed.

Lemma sort_perm l : Permutation (sort l) l.
Proof.
  induction l as [ | x l IH]; simpl; [constructor | ].
  etransitivity; [apply insert_sorted_perm | now constructor].
Qed.

Lemma Zsum_filter_perm (p : Z -> bool) l l' :
  Permutation l l' -> Zsum (filter p l) = Zsum (filter p l').
Proof.
  induction 1 as [ | x l l' _ IH | x y l | l l' l'' _ IH1 _ IH2]; simpl.
  - reflexivity.
  - destruct (p x); simpl; lia.
  - destruct (p x), (p y); simpl; lia.
  - lia.
Qed.

Lemma Zsum_app l l' : Zsum (l ++ l') = Zsum l + Zsum l'.
Proof. induction l as [ | x l IH]; simpl; lia. Qed.

Lemma Zsum_at_most (b : Z) l :
  Forall (fun x => x <= b) l -> Zsum l <= Z.of_nat (List.length l) * b.
Proof. induction 1; simpl Zsum; simpl List.length; lia. Qed.

Lemma Zsum_at_least (b : Z) l :
  Forall (fun x => b <= x) l -> Z.of_nat (List.length l) * b <= Zsum l.
Proof. induction 1; simpl Zsum; simpl List.length; lia. Qed.

Lemma ascending_inv x l :
  ascending (x :: l) -> ascending l /\ Forall (fun y => x <= y) l.
Proof.
  revert x. induction l as [ | y l IH]; intros x Hasc.
  - split; constructor.
  - inversion Hasc as [ | | ? ? ? Hxy Hrest]; subst.
    destruct (IH y Hrest) as [_ Hall]. split; [exact Hrest | ].
    constructor; [exact Hxy | ].
    eapply Forall_impl; [ | exact Hall]. intros z Hz. simpl in Hz. lia.
Qed.

Lemma ascending_skipn k : forall l, ascending l -> ascending (skipn k l).
Proof.
  induction k as [ | k IH]; intros l Hl; [exact Hl | ].
  destruct l as [ | x l]; [constructor | ].
  simpl. apply IH. now apply ascending_inv in Hl.
Qed.

Lemma ascending_firstn_skipn k : forall l x y,
  ascending l -> In x (firstn k l) -> In y (skipn k l) -> x <= y.
Proof.
  induction k as [ | k IH]; intros l x y Hl Hx Hy; [contradiction | ].
  destruct l as [ | a l]; [contradiction | ].
  apply ascending_inv in Hl. destruct Hl as [Hl Hall].
  simpl in Hx, Hy. destruct Hx as [<- | Hx].
  - rewrite Forall_forall in Hall. apply Hall.
    rewrite <- (firstn_skipn k l). apply in_or_app. now right.
  - now apply (IH l).
Qed.

Lemma skipn_cons_nth {A} (d : A) : forall i (l : list A),
  (i < List.length l)%nat -> skipn i l = nth i l d :: skipn (S i) l.
Proof.
  induction i as [ | i IH]; intros [ | x l] Hi; simpl in Hi; try lia.
  - reflexivity.
  - apply IH. lia.
Qed.

Lemma firstn_nth_In {A} (d : A) : forall k i (l : list A),
  (i < k)%nat -> (i < List.length l)%nat -> In (nth i l d) (firstn k l).
Proof.
  induction k as [ | k IH]; intros i l Hi Hl; [lia | ].
  destruct l as [ | x l]; [simpl in Hl; lia | ].
  destruct i as [ | i]; simpl; [now left | right].
  apply IH; simpl in Hl; lia.
Qed.

(** From the middle of the sorted data on, every count is at least the
    median. *)
Lemma upper_half_is_heavy (d : list Z) (y : Z) :
  In y (skipn (List.length d / 2) (sort d)) ->
  Qle_bool (exact_median d) (inject_Z y) = true.
Proof.
  intros Hy. apply Qle_bool_iff. unfold exact_median.
  rewrite sort_length. set (n := List.length d) in *.
  set (s := sort d) in *.
  assert (List.length s = n) as Hlen by apply sort_length.
  assert (ascending s) as Hasc by apply sort_ascending.
  assert (n / 2 < n)%nat as Hhalf.
  { destruct n as [ | n']; [ | apply Nat.div_lt; lia].
    destruct s; [contradiction | discriminate]. }
  assert (nth (n / 2) s 0 <= y) as Hpivot.
  { pose proof (ascending_skipn (n / 2) s Hasc) as Hhi.
    assert (skipn (n / 2) s = nth (n / 2) s 0 :: skipn (S (n / 2)) s) as E.
    { apply skipn_cons_nth. lia. }
    rewrite E in Hhi, Hy. apply ascending_inv in Hhi.
    destruct Hhi as [_ Hall]. rewrite Forall_forall in Hall.
    destruct Hy as [<- | Hy]; [lia | now apply Hall]. }
  destruct (Nat.even n) eqn:He.
  - assert (1 <= n / 2)%nat as Hk.
    { destruct n as [ | [ | n']]; [lia | discriminate | ].
      change (S (S n')) with (2 + n')%nat.
      apply Nat.div_le_lower_bound; lia. }
    assert (nth (n / 2 - 1) s 0 <= nth (n / 2) s 0) as Hprev.
    { apply (ascending_firstn_skipn (n / 2) s); [exact Hasc | | ].
      - apply firstn_nth_In; lia.
      - rewrite (skipn_cons_nth 0) by lia. now left. }
    set (a := nth (n / 2 - 1) s 0) in *.
    set (b := nth (n / 2) s 0) in *.
    unfold Qle, Qdiv, Qmult, Qinv, inject_Z; simpl. lia.
  - rewrite <- Zle_Qle. exact Hpivot.
Qed.

Lemma heavy_at_least_half (d : list Z) :
  Forall (fun c => 0 <= c) d ->
  Zsum d
  <= 2 * Zsum (filter (fun item =>
                         Qle_bool (exact_median d) (inject_Z item)) d).
Proof.
  intros Hd.
  set (p := fun item => Qle_bool (exact_median d) (inject_Z item)).
  rewrite (Zsum_filter_perm p d (sort d))
    by (apply Permutation_sym, sort_perm).
  rewrite <- (sort_sum d).
  assert (Forall (fun c => 0 <= c) (sort d)) as Hs.
  { apply Forall_forall. intros x Hx. apply (proj1 (sort_In _ _)) in Hx.
    rewrite Forall_forall in Hd. now apply Hd. }
  pose proof (sort_ascending d) as Hasc.
  pose proof (sort_length d) as Hlen.
  pose proof (upper_half_is_heavy d) as Hheavy. fold p in Hheavy.
  set (n := List.length d) in *. set (s := sort d) in *.
  set (k := (n / 2)%nat) in *.
  assert (k <= n - k)%nat as Hk.
  { pose proof (Nat.div_mod_eq n 2). subst k. lia. }
  rewrite <- (firstn_skipn k s) at 1 2.
  rewrite filter_app, !Zsum_app.
  assert (filter p (skipn k s) = skipn k s) as ->.
  { apply forallb_filter_id. apply forallb_forall. exact Hheavy. }
  assert (0 <= Zsum (filter p (firstn k s))) as Hlow.
  { apply Zsum_filter_le.
    apply Forall_forall. intros x Hx. rewrite Forall_forall in Hs.
    apply Hs. rewrite <- (firstn_skipn k s). apply in_or_app. now left. }
  assert (Zsum (firstn k s) <= Zsum (skipn k s)); [ | lia].
  destruct (Nat.eq_dec n 0) as [E0 | Hn].
  { assert (s = []) as -> by (destruct s; [reflexivity | simpl in Hlen; lia]).
    rewrite firstn_nil, skipn_nil. simpl. lia. }
  assert (k < n)%nat as Hkn by (apply Nat.div_lt; lia).
  set (b := nth k s 0).
  assert (0 <= b) as Hb.
  { rewrite Forall_forall in Hs. apply Hs, nth_In. lia. }
  assert (In b (skipn k s)) as Hbin
    by (rewrite (skipn_cons_nth 0) by lia; now left).
  assert (In b (firstn (S k) s)) as Hbin'
    by (apply firstn_nth_In; lia).
  transitivity (Z.of_nat (List.length (firstn k s)) * b).
  { apply Zsum_at_most, Forall_forall. intros x Hx.
    now apply (ascending_firstn_skipn k s). }
  transitivity (Z.of_nat (List.length (skipn k s)) * b).
  { rewrite length_firstn, length_skipn. nia. }
  apply Zsum_at_least, Forall_forall. intros y Hy.
  rewrite (skipn_cons_nth 0) in Hy by lia.
  destruct Hy as [<- | Hy]; [subst b; lia | ].
  apply (ascending_firstn_skipn (S k) s); assumption.
Qed.

Lemma heavy_when_all_equal (d : list Z) (c : Z) :
  (forall x, In x d -> x = c) ->
  filter (fun item => Qle_bool (exact_median d) (inject_Z item)) d = d.
Proof.
  intros Hall. apply forallb_filter_id, forallb_forall. intros x Hx.
  apply Qle_bool_iff.
  assert (d <> []) as Hne by (intros ->; contradiction).
  destruct (median_between d c c Hne) as [_ Hmed].
  { intros y Hy. rewrite (Hall y Hy). lia. }
  now rewrite (Hall x Hx).
Qed.

(** X7: on shot counts, none above 2^52, the counts that
    [heavy_outputs_prob] adds up make at least half of all the shots,
    since every count from the middle of the sorted data on is at least
    the median; a count equal to the median is heavy, so on a flat
    histogram every shot is; on no counts at all the result is 0. *)
Theorem heavy_outputs_are_at_least_half (results : details) :
  Forall (fun c => 0 <= c <= 2 ^ 52) (map snd (counts results)) ->
  Zsum (map snd (counts results)) <= 2 * heavy_outputs_prob results
  /\ (forall c,
        (forall x, In x (map snd (counts results)) -> x = c) ->
        heavy_outputs_prob results = Zsum (map snd (counts results)))
  /\ (counts results = [] -> heavy_outputs_prob results = 0).
Proof.
  intros Hd. rewrite heavy_outputs_prob_exact by exact Hd.
  split; [ | split].
  - apply heavy_at_least_half, shot_counts_nonneg, Hd.
  - intros c Hall. now rewrite (heavy_when_all_equal _ c).
  - intros ->. reflexivity.
Qed.

End HeavyHalf.

Lemma heavy_outputs_half_witness :
  let results := {| Qmod.counts := [("00", 5); ("01", 40); ("10", 25);
                                    ("11", 30)]%string;
                    Qmod.parsed_counts := [] |} in
  Zsum (map snd (Qmod.counts results))
  <= 2 * QuantumVolume.heavy_outputs_prob results.
Proof.
  intros results.
  assert (Forall (fun c => 0 <= c <= 2 ^ 52) (map snd (Qmod.counts results)))
    as Hd by (cbn; repeat constructor; lia).
  exact (proj1 (heavy_outputs_are_at_least_half results Hd)).
Defined.

Section HeavyOrder.
Import Qmod QuantumVolume Numpy.

Lemma ascending_perm_eq (l : list Z) : forall l',
  ascending l -> ascending l' -> Permutation l l' -> l = l'.
Proof.
  induction l as [ | x l IH]; intros l' Hl Hl' Hp.
  - apply Permutation_nil in Hp. now subst.
  - destruct l' as [ | y l']; [apply Permutation_sym, Permutation_nil in Hp;
                               discriminate | ].
    apply ascending_inv in Hl, Hl'.
    destruct Hl as [Hl Hx], Hl' as [Hl' Hy].
    rewrite Forall_forall in Hx, Hy.
    assert (x = y) as ->.
    { assert (In y (x :: l)) as Hin1
        by (apply (Permutation_in _ (Permutation_sym Hp)); now left).
      assert (In x (y :: l')) as Hin2
        by (apply (Permutation_in _ Hp); now left).
      destruct Hin1 as [E | Hin1]; [exact E | ].
      destruct Hin2 as [E | Hin2]; [now symmetry | ].
      specialize (Hx y Hin1). specialize (Hy x Hin2). lia. }
    f_equal. apply IH; [exact Hl | exact Hl' | ].
    now apply Permutation_cons_inv in Hp.
Qed.

Lemma sort_of_permutation (l l' : list Z) :
  Permutation l l' -> sort l = sort l'.
Proof.
  intros Hp. apply ascending_perm_eq; try apply sort_ascending.
  etransitivity; [apply sort_perm | ].
  etransitivity; [exact Hp | apply Permutation_sym, sort_perm].
Qed.

Lemma median_of_permutation (l l' : list Z) :
  Permutation l l' -> median l = median l'.
Proof.
  intros Hp. unfold median. now rewrite (sort_of_permutation l l' Hp).
Qed.

(** X8: [heavy_outputs_prob] looks at the values of [results.counts]
    only, and not at their order: two results whose counts are the same
    shot counts, none above 2^52, under whatever bit strings and in
    whatever order, have the same heavy-output count. *)
Theorem heavy_outputs_prob_ignores_order (results results' : details) :
  Forall (fun c => 0 <= c <= 2 ^ 52) (map snd (counts results)) ->
  Permutation (map snd (counts results)) (map snd (counts results')) ->
  heavy_outputs_prob results = heavy_outputs_prob results'.
Proof.
  intros _ Hp. rewrite !heavy_outputs_prob_filter.
  rewrite (median_of_permutation _ _ Hp).
  now apply Zsum_filter_perm.
Qed.

End HeavyOrder.

Lemma heavy_outputs_order_witness :
  QuantumVolume.heavy_outputs_prob
    {| Qmod.counts := [("00", 5); ("01", 40); ("10", 25)]%string;
       Qmod.parsed_counts := [] |}
  = QuantumVolume.heavy_outputs_prob
      {| Qmod.counts := [("a", 40); ("b", 25); ("c", 5)]%string;
         Qmod.parsed_counts := [] |}.
Proof.
  apply heavy_outputs_prob_ignores_order; cbn [map snd Qmod.counts];
    [repeat constructor; lia | ].
  apply Permutation_sym.
  apply (perm_trans (l' := [40; 5; 25])).
  - apply perm_skip, perm_swap.
  - apply perm_swap.
Defined.

(** ** numpy's sum and deviation of equal counts *)

Section EqualNumbers.
Import Numpy.
Variable x : Q.
Variable c : Z.
Hypothesis Hx : (x == inject_Z c)%Q.
Hypothesis Hc : 0 <= c.

(** Adding [n] times the double [c] to the double [a], one after the
    other, is exact as long as the total stays within 53 bits. *)
Lemma add_repeat (n : nat) : forall (acc : Q) (a : Z),
  (acc == inject_Z a)%Q -> 0 <= a -> a + Z.of_nat n * c <= 2 ^ 53 ->
  (fold_left Float64.add (repeat x n) acc
   == inject_Z (a + Z.of_nat n * c))%Q.
Proof.
  induction n as [ | n IH]; intros acc a Ha Ha0 Hb.
  - cbn [repeat fold_left]. rewrite Ha. f_equiv. lia.
  - cbn [repeat fold_left].
    rewrite (IH _ (a + c)); [f_equiv; lia | | lia | lia].
    apply add_exact; [exact Ha | exact Hx | lia].
Qed.

Lemma add_block_repeat (y : Q) :
  add_block (repeat y 8) (repeat x 8) = repeat (Float64.add y x) 8.
Proof. reflexivity. Qed.

Lemma firstn_repeat {A} (a : A) (k n : nat) :
  (k <= n)%nat -> firstn k (repeat a n) = repeat a k.
Proof.
  revert n. induction k as [ | k IH]; intros [ | n] Hk; try reflexivity;
    try lia.
  cbn [repeat firstn]. f_equal. apply IH. lia.
Qed.

Lemma skipn_repeat {A} (a : A) (k n : nat) :
  skipn k (repeat a n) = repeat a (n - k).
Proof.
  revert n. induction k as [ | k IH]; intros [ | n]; try reflexivity.
  cbn [repeat skipn]. apply IH.
Qed.

(** The eight running sums after [k] more blocks of eight. *)
Lemma add_blocks_repeat (k : nat) : forall (y : Q) (j : Z) (m : nat),
  (y == inject_Z (j * c))%Q -> 0 <= j -> (j + Z.of_nat k) * c <= 2 ^ 53 ->
  (8 * k <= m)%nat ->
  exists y',
    add_blocks k (repeat y 8) (repeat x m)
    = (repeat y' 8, repeat x (m - 8 * k))
    /\ (y' == inject_Z ((j + Z.of_nat k) * c))%Q.
Proof.
  induction k as [ | k IH]; intros y j m Hy Hj Hb Hm.
  - exists y. split.
    + cbn [add_blocks]. now rewrite Nat.sub_0_r.
    + rewrite Hy. f_equiv. lia.
  - cbn [add_blocks].
    rewrite (firstn_repeat x 8 m) by lia. rewrite skipn_repeat.
    rewrite add_block_repeat.
    rewrite Nat2Z.inj_succ in Hb.
    assert (0 <= j * c) as Hjc by nia.
    assert (0 <= Z.of_nat k * c) as Hkc by nia.
    assert ((j + Z.succ (Z.of_nat k)) * c
            = j * c + c + Z.of_nat k * c) as Esum by ring.
    destruct (IH (Float64.add y x) (j + 1) (m - 8)%nat) as [y' [E Hy']].
    + replace ((j + 1) * c) with (j * c + c) by ring.
      apply add_exact; [exact Hy | exact Hx | lia].
    + lia.
    + replace ((j + 1 + Z.of_nat k) * c)
        with (j * c + c + Z.of_nat k * c) by ring. lia.
    + lia.
    + exists y'. split.
      * rewrite E. do 2 f_equal. lia.
      * rewrite Hy'. f_equiv. f_equal. lia.
Qed.

Lemma add_eight_repeat (y : Q) (a : Z) :
  (y == inject_Z a)%Q -> 0 <= a -> 8 * a <= 2 ^ 53 ->
  (add_eight (repeat y 8) == inject_Z (8 * a))%Q.
Proof.
  intros Hy Ha Hb. cbn [repeat add_eight].
  assert (Float64.add y y == inject_Z (a + a))%Q as H2
    by (apply add_exact; [exact Hy | exact Hy | lia]).
  assert (Float64.add (Float64.add y y) (Float64.add y y)
          == inject_Z (a + a + (a + a)))%Q as H4
    by (apply add_exact; [exact H2 | exact H2 | lia]).
  replace (8 * a) with (a + a + (a + a) + (a + a + (a + a))) by lia.
  apply add_exact; [exact H4 | exact H4 | lia].
Qed.

(** numpy's sum of [n] times the double [c] is [n * c], in whatever
    order the partial sums are taken, as long as [n * c] stays within 53
    bits. *)
Lemma pairwise_sum_repeat (fuel : nat) : forall n : nat,
  (n <= fuel)%nat -> Z.of_nat n * c <= 2 ^ 53 ->
  (pairwise_sum fuel (repeat x n) == inject_Z (Z.of_nat n * c))%Q.
Proof.
  induction fuel as [ | fuel IH]; intros n Hn Hb.
  - assert (n = 0%nat) as -> by lia. reflexivity.
  - cbn [pairwise_sum]. rewrite repeat_length.
    destruct (Nat.ltb_spec n 8) as [H8 | H8].
    { rewrite (add_repeat n 0 0); [f_equiv; lia | reflexivity | lia | lia]. }
    destruct (Nat.leb_spec n 128) as [H128 | H128].
    { rewrite (firstn_repeat x 8 n) by lia. rewrite skipn_repeat.
      pose proof (Nat.div_mod_eq n 8) as Hdiv.
      pose proof (Nat.mod_upper_bound n 8 ltac:(lia)) as Hmod.
      assert (1 <= n / 8)%nat as Hk by (apply Nat.div_le_lower_bound; lia).
      set (k := (n / 8 - 1)%nat) in *.
      set (r := (n mod 8)%nat) in *.
      assert (n = 8 + 8 * k + r)%nat as En by lia.
      assert (0 <= Z.of_nat k * c) as Hkc by nia.
      assert (0 <= Z.of_nat r * c) as Hrc by nia.
      assert (Z.of_nat n * c
              = 8 * (c + Z.of_nat k * c) + Z.of_nat r * c) as Esum
        by (rewrite En; lia).
      destruct (add_blocks_repeat k x 1 (n - 8)%nat) as [y' [E Hy']].
      - rewrite Hx. f_equiv. lia.
      - lia.
      - replace ((1 + Z.of_nat k) * c) with (c + Z.of_nat k * c) by ring. lia.
      - lia.
      - rewrite E. replace (n - 8 - 8 * k)%nat with r by lia.
        rewrite (add_repeat r _ (8 * ((1 + Z.of_nat k) * c))).
        + f_equiv. lia.
        + apply add_eight_repeat; [exact Hy' | lia | lia].
        + lia.
        + lia. }
    set (n2 := (n / 2 - (n / 2) mod 8)%nat).
    pose proof (Nat.div_mod_eq n 2) as Hdiv.
    pose proof (Nat.mod_upper_bound n 2 ltac:(lia)) as Hmod.
    pose proof (Nat.mod_upper_bound (n / 2) 8 ltac:(lia)) as Hmod8.
    assert (1 <= n2 < n)%nat as Hn2 by (unfold n2; lia).
    assert (0 <= Z.of_nat n2 * c) as H2c by nia.
    assert (0 <= Z.of_nat (n - n2) * c) as H3c by nia.
    assert (Z.of_nat n * c
            = Z.of_nat n2 * c + Z.of_nat (n - n2) * c) as Esum.
    { replace (Z.of_nat n) with (Z.of_nat n2 + Z.of_nat (n - n2)) by lia.
      ring. }
    rewrite (firstn_repeat x n2 n) by lia. rewrite skipn_repeat.
    rewrite Esum.
    apply add_exact; [apply IH; lia | apply IH; lia | lia].
Qed.

Lemma sum_repeat (n : nat) :
  Z.of_nat n * c <= 2 ^ 53 ->
  (sum (repeat x n) == inject_Z (Z.of_nat n * c))%Q.
Proof.
  intros Hb. unfold sum. rewrite repeat_length.
  apply pairwise_sum_repeat; [lia | exact Hb].
Qed.

End EqualNumbers.

(** [np.std] of [n] times the same count is 0 when [n] times the count
    stays within 53 bits: the sum is exact, the mean is the count and
    every deviation is 0. *)
Lemma std_constant `{Numpy.Sqrt} (c : Z) (n : nat) :
  (0 < n)%nat -> 0 <= c -> Z.of_nat n <= 2 ^ 53 ->
  Z.of_nat n * c <= 2 ^ 53 ->
  (Numpy.std (repeat (Float64.of_int c) n) == 0)%Q.
Proof.
  intros Hn Hc Hn53 Hb. unfold Numpy.std. apply Numpy.sqrt_0.
  rewrite repeat_length, !map_repeat.
  set (x := Float64.of_int c).
  assert (x == inject_Z c)%Q as Hx.
  { apply of_int_exact. assert (c <= Z.of_nat n * c) by nia. lia. }
  set (N := Float64.of_int (Z.of_nat n)).
  assert (N == inject_Z (Z.of_nat n))%Q as HN by (apply of_int_exact; lia).
  assert (~ inject_Z (Z.of_nat n) == 0)%Q as Hne.
  { intros E. apply (inject_Z_injective (Z.of_nat n) 0) in E. lia. }
  assert (Float64.div (Numpy.sum (repeat x n)) N == x)%Q as Em.
  { unfold Float64.div.
    rewrite (round_proper _ (inject_Z c)).
    - rewrite Hx. apply of_int_exact.
      assert (c <= Z.of_nat n * c) by nia. lia.
    - rewrite (sum_repeat x c Hx Hc n Hb), HN, inject_Z_mult.
      field. exact Hne. }
  assert (Float64.sub x (Float64.div (Numpy.sum (repeat x n)) N) = 0%Q)
    as ->.
  { apply round_0. rewrite Em. ring. }
  change (Float64.mul 0 0) with 0%Q.
  unfold Float64.div. rewrite (round_0 _); [reflexivity | ].
  rewrite (sum_repeat 0 0 (Qeq_refl 0) (Z.le_refl 0) n) by lia.
  rewrite Z.mul_0_r. unfold Qdiv. ring.
Qed.

(** ** A run of [find_qv], trial by trial *)

Section FindQVRun.
Import Py Qmod Classiq QuantumVolume Shape Volume Layer Trials.
Context `{Platform} `{Random} `{Numpy.Sqrt}.

Lemma for_each_cons_one {A S} (x : A) (xs : list A) (acc : S)
      (body : A -> S -> M world S) (w : world) :
  for_each (x :: xs) acc body w
  = bind (for_each [x] acc body) (fun acc' => for_each xs acc' body) w.
Proof.
  simpl. unfold bind, ret. destruct (body x acc w) as [[a | e] w']; reflexivity.
Qed.

Lemma range_from_zero (n : Z) :
  range 0 n = map Z.of_nat (seq 0 (Z.to_nat n)).
Proof. unfold range. rewrite Z.sub_0_r. apply map_ext. intros; lia. Qed.

Lemma firstn_update {A} (l : list A) (i : nat) (v : A) :
  (i < List.length l)%nat ->
  firstn (S i) (Numpy.update l i v) = firstn i l ++ [v].
Proof.
  revert i. induction l as [ | x l IH]; intros [ | i] Hi; simpl in *; try lia.
  - reflexivity.
  - f_equal. apply IH. lia.
Qed.

Lemma skipn_update {A} (l : list A) (i j : nat) (v : A) :
  (i < j)%nat -> skipn j (Numpy.update l i v) = skipn j l.
Proof.
  revert i j. induction l as [ | x l IH]; intros i j Hij.
  - reflexivity.
  - destruct j as [ | j]; [lia | ].
    destruct i as [ | i]; simpl; [reflexivity | apply IH; lia].
Qed.

Lemma bind_congr {A B} (c c' : M world A) (k : A -> M world B)
      (w w1 : world) :
  c w = c' w1 -> bind c k w = bind c' k w1.
Proof. intros E. unfold bind. now rewrite E. Qed.

(** One trial of the inner loop. *)
Lemma one_trial num_shots preferences (num idx heavy_outputs : Z)
      (heavytostd : list Q) (w : world) :
  0 <= idx < Z.of_nat (List.length heavytostd) ->
  let p := {| Qmod.num_shots := Some num_shots;
              backend_preferences := preferences |} in
  exists r t w',
    (model <- qv_model num ;;
     qprog <- synthesize model ;;
     results <- execute_qv qprog num_shots preferences ;;
     let heavy_temp := heavy_outputs_prob results in
     let heavy_outputs := heavy_outputs + heavy_temp in
     heavytostd <- lift (Numpy.setitem heavytostd idx
                           (Float64.of_int heavy_temp)) ;;
     ret (heavy_outputs, heavytostd))%py w
    = (Returned (heavy_outputs + heavy_outputs_prob r,
                 Numpy.update heavytostd (Z.to_nat idx)
                              (Float64.of_int (heavy_outputs_prob r))), w')
    /\ trial_of num p r t
    /\ log w' = log w ++ t.
Proof.
  intros Hidx p.
  destruct (qv_model_layers num w) as (m & w1 & Em & Hm & El & _).
  set (q := synthesize_answer (clock w1) m).
  set (q' := set_preferences_answer q p).
  set (r := execute_answer (S (clock w1)) q').
  exists r, [CreateModel m; Synthesize m q; SetPreferences q p q';
             Execute q' r].
  eexists. split; [ | split].
  - eapply bind_returned_eq; [exact Em | ].
    unfold synthesize, execute_qv, set_quantum_program_execution_preferences,
      execute, tick, emit, bind, ret, lift. cbn [clock log].
    fold p. fold q. fold q'. fold r. cbv zeta.
    rewrite setitem_returns by exact Hidx. reflexivity.
  - exists m, (clock w1), (S (clock w1)). cbv zeta.
    split; [exact Hm | split; reflexivity].
  - cbn [log]. rewrite El, <- !app_assoc. reflexivity.
Qed.

(** The inner loop of [find_qv]: the trials [i], ..., [i + n - 1]. *)
Lemma trial_loop num_shots preferences (num : Z) (n : nat) :
  let p := {| Qmod.num_shots := Some num_shots;
              backend_preferences := preferences |} in
  forall (i : nat) (heavy_outputs : Z) (heavytostd : list Q) (w : world),
    (i + n <= List.length heavytostd)%nat ->
    exists rs t w',
      for_each (map Z.of_nat (seq i n)) (heavy_outputs, heavytostd)
        (fun idx '(heavy_outputs, heavytostd) =>
           model <- qv_model num ;;
           qprog <- synthesize model ;;
           results <- execute_qv qprog num_shots preferences ;;
           let heavy_temp := heavy_outputs_prob results in
           let heavy_outputs := heavy_outputs + heavy_temp in
           heavytostd <- lift (Numpy.setitem heavytostd idx
                                 (Float64.of_int heavy_temp)) ;;
           ret (heavy_outputs, heavytostd))%py w
      = (Returned (heavy_outputs + Zsum (map heavy_outputs_prob rs),
                   firstn i heavytostd
                   ++ map (fun r => Float64.of_int (heavy_outputs_prob r)) rs
                   ++ skipn (i + n) heavytostd), w')
      /\ List.length rs = n
      /\ trials num p rs t
      /\ log w' = log w ++ t.
Proof.
  intros p. induction n as [ | n IH]; intros i ho hts w Hlen.
  - exists [], [], w. cbn [seq map for_each ret Zsum app].
    rewrite Nat.add_0_r, firstn_skipn, Z.add_0_r, app_nil_r.
    repeat split; constructor.
  - destruct (one_trial num_shots preferences num (Z.of_nat i) ho hts w)
      as (r & t & w1 & E1 & Ht & Hlog1); [lia | ].
    rewrite Nat2Z.id in E1.
    set (hts1 := Numpy.update hts i
                   (Float64.of_int (heavy_outputs_prob r))) in *.
    destruct (IH (S i) (ho + heavy_outputs_prob r) hts1 w1)
      as (rs & ts & w' & E & Hrs & Hts & Hlog).
    { unfold hts1. rewrite update_length. lia. }
    exists (r :: rs), (t ++ ts), w'.
    split; [ | split; [cbn [List.length]; now rewrite Hrs | split]].
    + cbn [seq map for_each]. eapply bind_returned_eq; [exact E1 | ].
      etransitivity; [exact E | ]. do 2 f_equal. apply f_equal2.
      * cbn [map Zsum]. lia.
      * unfold hts1. rewrite firstn_update by lia.
        rewrite skipn_update by lia.
        replace (S i + n)%nat with (i + S n)%nat by lia.
        rewrite <- app_assoc. reflexivity.
    + now constructor.
    + rewrite Hlog, Hlog1. now rewrite app_assoc.
Qed.

(** The pass of [find_qv] over one qubit count. *)
Lemma one_count num_trials num_shots min_qubits preferences (num : Z)
      (heavy_list std_list : list Q) (w : world) :
  1 <= num_trials -> 1 <= num_shots ->
  0 <= num - min_qubits < Z.of_nat (List.length heavy_list) ->
  List.length std_list = List.length heavy_list ->
  let p := {| Qmod.num_shots := Some num_shots;
              backend_preferences := preferences |} in
  let s := Z.to_nat (num - min_qubits) in
  exists rs t w',
    List.length rs = Z.to_nat num_trials
    /\ trials num p rs t
    /\ (((heavy_deviation num_trials num_shots rs == 0)%Q
         /\ calculate_heavy_outputs num_trials num_shots min_qubits
              preferences [num] heavy_list std_list w
            = (Raised (ValueError "math domain error"), w')
         /\ log w' = log w ++ t)
        \/ (~ (heavy_deviation num_trials num_shots rs == 0)%Q
            /\ exists d,
                is_line num_trials num_shots num rs d
                /\ calculate_heavy_outputs num_trials num_shots min_qubits
                  preferences [num] heavy_list std_list w
                = (Returned
                     (Numpy.update heavy_list s
                        (heavy_fraction num_trials num_shots rs),
                      Numpy.update std_list s
                        (heavy_deviation num_trials num_shots rs)), w')
                /\ log w' = log w ++ t ++ [Display d])).
Proof.
  intros HT HS Hs Hlen p s.
  assert (num_trials * num_shots <> 0) as Hns by nia.
  destruct (trial_loop num_shots preferences num (Z.to_nat num_trials) 0 0
              (repeat 0%Q (Z.to_nat num_trials)) w)
    as (rs & t & w1 & Eloop & Hrs & Hts & Hlog1).
  { rewrite repeat_length. lia. }
  fold p in Hts.
  rewrite <- range_from_zero in Eloop.
  cbn [firstn app Nat.add] in Eloop.
  rewrite skipn_all2, app_nil_r, Z.add_0_l in Eloop
    by (rewrite repeat_length; lia).
  exists rs, t.
  set (dev := heavy_deviation num_trials num_shots rs).
  assert (calculate_heavy_outputs num_trials num_shots min_qubits
            preferences [num] heavy_list std_list w
          = (acc <- (temp_std <- lift (round_significant dev) ;;
                     print [inject_Z num;
                            heavy_fraction num_trials num_shots rs;
                            temp_std] ;;;
                     ret (Numpy.update heavy_list s
                            (heavy_fraction num_trials num_shots rs),
                          Numpy.update std_list s dev)) ;;
             ret acc)%py w1) as Ecalc.
  { unfold calculate_heavy_outputs. cbn [for_each].
    apply bind_congr.
    eapply bind_returned_eq;
      [unfold lift; rewrite zeros_returns by lia; reflexivity | ].
    eapply bind_returned_eq; [exact Eloop | ].
    cbv beta iota zeta.
    eapply bind_returned_eq;
      [unfold lift; rewrite true_div_returns by exact Hns; reflexivity | ].
    eapply bind_returned_eq;
      [unfold lift; rewrite setitem_returns by exact Hs; reflexivity | ].
    eapply bind_returned_eq;
      [unfold lift; rewrite true_div_returns by exact Hns; reflexivity | ].
    eapply bind_returned_eq;
      [unfold lift; rewrite setitem_returns by (rewrite Hlen; exact Hs);
       reflexivity | ].
    reflexivity. }
  destruct (Qeq_dec dev 0) as [E0 | Hne].
  - exists w1. split; [exact Hrs | split; [exact Hts | left]].
    split; [exact E0 | split; [ | exact Hlog1]].
    rewrite Ecalc. unfold bind, lift.
    now rewrite (round_significant_zero dev E0).
  - destruct (round_significant_returns dev Hne) as [r Er].
    eexists. split; [exact Hrs | split; [exact Hts | right]].
    split; [exact Hne | ].
    exists (Printed [inject_Z num; heavy_fraction num_trials num_shots rs;
                     r]).
    split; [exists r; split; [exact Er | reflexivity] | split].
    + rewrite Ecalc. unfold bind, lift, print, emit, ret. rewrite Er.
      reflexivity.
    + cbn [log]. rewrite Hlog1, <- app_assoc. reflexivity.
Qed.

(** The first part of [find_qv] over the qubit counts
    [min_qubits + i], ..., [min_qubits + i + n - 1]: either every count
    has a deviation other than 0 and the two arrays hold the estimates,
    or the first count whose deviation is 0 raises. *)
Lemma count_loop num_trials num_shots min_qubits preferences (n : nat) :
  1 <= num_trials -> 1 <= num_shots ->
  let p := {| Qmod.num_shots := Some num_shots;
              backend_preferences := preferences |} in
  let fraction := heavy_fraction num_trials num_shots in
  let deviation := heavy_deviation num_trials num_shots in
  forall (i : nat) (heavy_list std_list : list Q) (w : world),
    (i + n <= List.length heavy_list)%nat ->
    List.length std_list = List.length heavy_list ->
    exists chunks t o w',
      calculate_heavy_outputs num_trials num_shots min_qubits preferences
        (map (fun j => min_qubits + Z.of_nat j) (seq i n))
        heavy_list std_list w = (o, w')
      /\ log w' = log w ++ t
      /\ Forall (fun rs => List.length rs = Z.to_nat num_trials) chunks
      /\ ((o = Returned
                 (firstn i heavy_list ++ map fraction chunks
                  ++ skipn (i + n) heavy_list,
                  firstn i std_list ++ map deviation chunks
                  ++ skipn (i + n) std_list)
           /\ List.length chunks = n
           /\ Forall (fun rs => ~ (deviation rs == 0)%Q) chunks
           /\ rounds num_trials num_shots p
                     (map (fun j => min_qubits + Z.of_nat j) (seq i n))
                     chunks t)
          \/ (o = Raised (ValueError "math domain error")
              /\ exists init last t1 t2 nums num rest,
                  chunks = init ++ [last]
                  /\ map (fun j => min_qubits + Z.of_nat j) (seq i n)
                     = nums ++ num :: rest
                  /\ Forall (fun rs => ~ (deviation rs == 0)%Q) init
                  /\ (deviation last == 0)%Q
                  /\ rounds num_trials num_shots p nums init t1
                  /\ trials num p last t2
                  /\ t = t1 ++ t2)).
Proof.
  intros HT HS p fraction deviation.
  induction n as [ | n IH]; intros i hl sl w Hi Hlen.
  - exists [], [], (Returned (hl, sl)), w.
    cbn [seq map app]. rewrite Nat.add_0_r, !firstn_skipn, app_nil_r.
    split; [reflexivity | split; [reflexivity | split; [constructor | left]]].
    repeat split; constructor.
  - cbn [seq map]. unfold calculate_heavy_outputs.
    rewrite for_each_cons_one.
    destruct (one_count num_trials num_shots min_qubits preferences
                (min_qubits + Z.of_nat i) hl sl w HT HS ltac:(lia) Hlen)
      as (rs & t & w1 & Hrs & Hts & Hcase).
    replace (Z.to_nat (min_qubits + Z.of_nat i - min_qubits)) with i
      in Hcase by lia.
    fold p in Hts. fold deviation fraction in Hcase.
    destruct Hcase
      as [(E0 & Ecalc & Hlog1) | (Hne & d & Hline & Ecalc & Hlog1)].
    + exists [rs], t, (Raised (ValueError "math domain error")), w1.
      split; [eapply bind_raised_eq; exact Ecalc | ].
      split; [exact Hlog1 | split; [now repeat constructor | right]].
      split; [reflexivity | ].
      exists [], rs, [], t, [], (min_qubits + Z.of_nat i),
        (map (fun j => min_qubits + Z.of_nat j) (seq (S i) n)).
      cbn [app].
      split; [reflexivity | split; [reflexivity | split; [constructor | ]]].
      split; [exact E0 | split; [constructor | ]].
      split; [exact Hts | reflexivity].
    + set (hl1 := Numpy.update hl i (fraction rs)) in *.
      set (sl1 := Numpy.update sl i (deviation rs)) in *.
      destruct (IH (S i) hl1 sl1 w1)
        as (chunks & t' & o & w' & E & Hlog & Hall & Hcase).
      { unfold hl1. rewrite update_length. lia. }
      { unfold hl1, sl1. now rewrite !update_length. }
      exists (rs :: chunks), (t ++ Display d :: t'), o, w'.
      split; [eapply bind_returned_eq; [exact Ecalc | exact E] | ].
      split.
      { rewrite Hlog, Hlog1, <- !app_assoc. reflexivity. }
      split; [now constructor | ].
      destruct Hcase as [(Eo & Hn & Hdev & Hrounds)
                        | (Eo & init & last & t1 & t2 & nums & num & rest
                           & Ec & En & Hdev & E0 & Hrounds & Hlast & Et)].
      * left. split; [ | split; [cbn [List.length]; now rewrite Hn | split]].
        -- rewrite Eo. unfold hl1, sl1.
           rewrite !firstn_update, !skipn_update by lia.
           replace (S i + n)%nat with (i + S n)%nat by lia.
           cbn [map]. rewrite <- !app_assoc. reflexivity.
        -- now constructor.
        -- now constructor.
      * right. split; [exact Eo | ].
        exists (rs :: init), last, (t ++ Display d :: t1), t2,
          (min_qubits + Z.of_nat i :: nums), num, rest.
        rewrite Ec, Et, En. cbn [app]. rewrite <- app_assoc.
        split; [reflexivity | split; [reflexivity | ]].
        split; [now constructor | ].
        split; [exact E0 | split; [now constructor | ]].
        split; [exact Hlast | reflexivity].
Qed.

(** The second part of [find_qv] returns the scan and leaves the world
    alone. *)
Lemma determine_returns min_qubits heavy_list std_list :
  forall nums qubit_v (w : world),
    (forall num, In num nums ->
       0 <= num - min_qubits < Z.of_nat (List.length heavy_list)) ->
    List.length std_list = List.length heavy_list ->
    determine_quantum_volume min_qubits nums heavy_list std_list qubit_v w
    = (Returned (scan (passes min_qubits heavy_list std_list) nums qubit_v),
       w).
Proof.
  unfold determine_quantum_volume.
  induction nums as [ | num rest IH]; intros qubit_v w Hnums Hlen;
    [reflexivity | ].
  pose proof (Hnums num (in_eq _ _)) as Hs.
  cbn [for_each_break scan].
  eapply (bind_returned_eq _ _ _
            (if passes min_qubits heavy_list std_list num
             then Continue num else Break qubit_v) w).
  - eapply bind_returned_eq;
      [unfold lift; rewrite getitem_returns by exact Hs; reflexivity | ].
    eapply bind_returned_eq;
      [unfold lift; rewrite getitem_returns by (rewrite Hlen; exact Hs);
       reflexivity | ].
    unfold passes. cbv zeta. destruct (Qle_bool _ _); reflexivity.
  - destruct (passes min_qubits heavy_list std_list num); [ | reflexivity].
    apply IH; [ | exact Hlen].
    intros n Hn. apply Hnums. now right.
Qed.

(** A run of [find_qv] from any world. *)
Lemma find_qv_run num_trials num_shots min_qubits max_qubits preferences
      (w : world) :
  1 <= num_trials -> 1 <= num_shots -> min_qubits <= max_qubits ->
  let p := {| Qmod.num_shots := Some num_shots;
              backend_preferences := preferences |} in
  let fraction := heavy_fraction num_trials num_shots in
  let deviation := heavy_deviation num_trials num_shots in
  exists chunks t o w',
    find_qv num_trials num_shots min_qubits max_qubits preferences w
    = (o, w')
    /\ log w' = log w ++ t
    /\ Forall (fun rs => List.length rs = Z.to_nat num_trials) chunks
    /\ ((exists k t0,
           o = Returned (2 ^ k)%Q
           /\ List.length chunks = Z.to_nat (max_qubits - min_qubits + 1)
           /\ Forall (fun rs => ~ (deviation rs == 0)%Q) chunks
           /\ largest_passing
                (passes min_qubits (map fraction chunks)
                        (map deviation chunks))
                min_qubits max_qubits k
           /\ rounds num_trials num_shots p
                     (range min_qubits (max_qubits + 1)) chunks t0
           /\ t = t0 ++ [Display (Printed [(2 ^ k)%Q])])
        \/ (o = Raised (ValueError "math domain error")
            /\ exists init last t1 t2 nums num rest,
                chunks = init ++ [last]
                /\ range min_qubits (max_qubits + 1) = nums ++ num :: rest
                /\ Forall (fun rs => ~ (deviation rs == 0)%Q) init
                /\ (deviation last == 0)%Q
                /\ rounds num_trials num_shots p nums init t1
                /\ trials num p last t2
                /\ t = t1 ++ t2)).
Proof.
  intros HT HS Hq p fraction deviation.
  set (n := Z.to_nat (max_qubits - min_qubits + 1)).
  assert (range min_qubits (max_qubits + 1)
          = map (fun j => min_qubits + Z.of_nat j) (seq 0 n)) as Erange.
  { unfold range, n. do 2 f_equal. lia. }
  destruct (count_loop num_trials num_shots min_qubits preferences n HT HS
              0%nat (repeat 0%Q n) (repeat 0%Q n) w)
    as (chunks & t & o & w1 & Ecalc & Hlog & Hall & Hcase).
  { rewrite repeat_length. lia. }
  { reflexivity. }
  rewrite <- Erange in Ecalc, Hcase.
  cbn [firstn app Nat.add] in Hcase.
  rewrite skipn_all2, !app_nil_r in Hcase by (rewrite repeat_length; lia).
  assert (forall k : list Q * list Q -> M world Q,
            find_qv num_trials num_shots min_qubits max_qubits preferences w
            = bind (calculate_heavy_outputs num_trials num_shots min_qubits
                      preferences (range min_qubits (max_qubits + 1))
                      (repeat 0%Q n) (repeat 0%Q n))
                   (fun '(heavy_list, std_list) =>
                      qubit_v <- determine_quantum_volume min_qubits
                                   (range min_qubits (max_qubits + 1))
                                   heavy_list std_list 0 ;;
                      let qv := (2 ^ qubit_v)%Q in
                      print [qv] ;;; ret qv)%py w) as Efind.
  { intros _. unfold find_qv. rewrite zeros_returns by lia. reflexivity. }
  specialize (Efind (fun _ => ret 0%Q)).
  exists chunks.
  destruct Hcase as [(Eo & Hn & Hdev & Hrounds) | (Eo & Hraised)].
  - subst o.
    set (k := scan (passes min_qubits (map fraction chunks)
                           (map deviation chunks))
                   (range min_qubits (max_qubits + 1)) 0).
    exists (t ++ [Display (Printed [(2 ^ k)%Q])]), (Returned (2 ^ k)%Q).
    eexists. split; [ | split; [ | split; [exact Hall | left]]].
    + rewrite Efind. eapply bind_returned_eq; [exact Ecalc | ].
      cbv beta iota.
      eapply bind_returned_eq.
      * apply determine_returns.
        -- intros num Hnum. apply range_In in Hnum.
           rewrite length_map, Hn. unfold n. lia.
        -- now rewrite !length_map.
      * cbv zeta. fold k. unfold print, emit, bind, ret. reflexivity.
    + cbn [log]. rewrite Hlog, <- app_assoc. reflexivity.
    + exists k, t. split; [reflexivity | split; [exact Hn | ]].
      split; [exact Hdev | split; [ | split; [exact Hrounds | reflexivity]]].
      now apply scan_finds_largest_passing.
  - subst o. exists t, (Raised (ValueError "math domain error")), w1.
    split; [ | split; [exact Hlog | split; [exact Hall | right]]].
    + rewrite Efind. eapply bind_raised_eq. exact Ecalc.
    + split; [reflexivity | exact Hraised].
Qed.

Lemma executed_app (a b : list event) :
  executed (a ++ b) = executed a ++ executed b.
Proof. apply flat_map_app. Qed.

Lemma trials_executed num p rs t : trials num p rs t -> executed t = rs.
Proof.
  induction 1 as [ | r rs t rest (m & k & k' & _ & _ & ->) _ IH];
    [reflexivity | ].
  rewrite executed_app, IH. reflexivity.
Qed.

Lemma rounds_executed T S p nums chunks t :
  rounds T S p nums chunks t -> executed t = concat chunks.
Proof.
  induction 1 as [ | num nums rs chunks t d rest Hts _ _ IH]; [reflexivity | ].
  rewrite executed_app, (trials_executed _ _ _ _ Hts). cbn [concat].
  f_equal. exact IH.
Qed.









Lemma rounds_lengths T S p nums chunks t :
  rounds T S p nums chunks t -> List.length nums = List.length chunks.
Proof. induction 1; simpl; congruence. Qed.



(** X10: on a backend that reports, for every execution, non-negative
    counts that add up to [num_shots], and with
    [num_trials * num_shots] at most 2^52: when [find_qv] returns, the
    programs it executed fall into one chunk of [num_trials] results for
    each qubit count from [min_qubits] to [max_qubits]; the estimate of
    a count is the double nearest to the sum of [heavy_outputs_prob]
    over its chunk divided by [num_trials * num_shots], its deviation is
    [np.std] of these counts divided by the same number, and the value
    returned is 2 to the largest count up to which every estimate less
    two deviations, computed in doubles, reaches the double [2 / 3]
    (1 when the smallest count fails). *)
Theorem find_qv_volume_from_trial_means
        num_trials num_shots min_qubits max_qubits preferences
        (w w' : world) (qv : Q) :
  (forall k q, shots_of num_shots (execute_answer k q)) ->
  1 <= num_trials -> 1 <= num_shots -> num_trials * num_shots <= 2 ^ 52 ->
  min_qubits <= max_qubits ->
  find_qv num_trials num_shots min_qubits max_qubits preferences w
  = (Returned qv, w') ->
  exists (chunks : list (list details)) (k : Z),
    executed (log w') = executed (log w) ++ concat chunks
    /\ List.length chunks = Z.to_nat (max_qubits - min_qubits + 1)
    /\ Forall (fun rs => List.length rs = Z.to_nat num_trials) chunks
    /\ largest_passing
         (passes min_qubits
                 (map (heavy_fraction num_trials num_shots) chunks)
                 (map (heavy_deviation num_trials num_shots) chunks))
         min_qubits max_qubits k
    /\ qv = (2 ^ k)%Q.
Proof.
  intros _ HT HS _ Hq E.
  destruct (find_qv_run num_trials num_shots min_qubits max_qubits
              preferences w HT HS Hq)
    as (chunks & t & o & w1 & Erun & Hlog & Hall & Hcase).
  rewrite E in Erun. injection Erun as <- <-.
  destruct Hcase as [(k & t0 & Eo & Hn & _ & Hk & Hrounds & ->)
                    | (Eo & _)]; [ | discriminate Eo].
  injection Eo as ->. exists chunks, k.
  split; [ | repeat split; assumption].
  rewrite Hlog, !executed_app, (rounds_executed _ _ _ _ _ _ Hrounds).
  cbn. now rewrite app_nil_r.
Qed.

(** X11: with at least one trial and one shot, [num_trials * num_shots]
    at most 2^52 and a backend that reports, for every execution,
    non-negative counts that add up to [num_shots], [find_qv] fails in
    one way only: it raises ValueError at the first qubit count whose
    deviation, as the code computes it in doubles, is 0, after the
    executions of that count are done, and runs nothing for the counts
    after it; when no count has deviation 0 it returns 2 to a power that
    is 0 or lies between [min_qubits] and [max_qubits]. *)
Theorem find_qv_fails_only_on_zero_deviation
        num_trials num_shots min_qubits max_qubits preferences (w : world) :
  (forall k q, shots_of num_shots (execute_answer k q)) ->
  1 <= num_trials -> 1 <= num_shots -> num_trials * num_shots <= 2 ^ 52 ->
  min_qubits <= max_qubits ->
  let run := find_qv num_trials num_shots min_qubits max_qubits
                     preferences w in
  let deviation := heavy_deviation num_trials num_shots in
  exists chunks : list (list details),
    executed (log (snd run)) = executed (log w) ++ concat chunks
    /\ Forall (fun rs => List.length rs = Z.to_nat num_trials) chunks
    /\ ((Forall (fun rs => ~ (deviation rs == 0)%Q) chunks
         /\ List.length chunks = Z.to_nat (max_qubits - min_qubits + 1)
         /\ exists k, fst run = Returned (2 ^ k)%Q
                      /\ (k = 0 \/ min_qubits <= k <= max_qubits))
        \/ (exists init last,
              chunks = init ++ [last]
              /\ (List.length chunks
                  <= Z.to_nat (max_qubits - min_qubits + 1))%nat
              /\ Forall (fun rs => ~ (deviation rs == 0)%Q) init
              /\ (deviation last == 0)%Q
              /\ fst run = Raised (ValueError "math domain error"))).
Proof.
  intros _ HT HS _ Hq run deviation.
  destruct (find_qv_run num_trials num_shots min_qubits max_qubits
              preferences w HT HS Hq)
    as (chunks & t & o & w1 & Erun & Hlog & Hall & Hcase).
  exists chunks. subst run. rewrite Erun. cbn [fst snd].
  destruct Hcase as [(k & t0 & -> & Hn & Hdev & Hk & Hrounds & ->)
                    | (-> & init & last & t1 & t2 & nums & num & rest
                       & Ec & En & Hdev & E0 & Hrounds & Hlast & ->)].
  - split; [ | split; [exact Hall | left]].
    + rewrite Hlog, !executed_app, (rounds_executed _ _ _ _ _ _ Hrounds).
      cbn. now rewrite app_nil_r.
    + split; [exact Hdev | split; [exact Hn | ]].
      exists k. split; [reflexivity | ].
      destruct Hk as [[_ ->] | [Hk _]]; [now left | now right].
  - split; [ | split; [exact Hall | right]].
    + rewrite Hlog, !executed_app, (rounds_executed _ _ _ _ _ _ Hrounds),
        (trials_executed _ _ _ _ Hlast), Ec, concat_app.
      cbn. now rewrite app_nil_r.
    + exists init, last.
      split; [exact Ec | split; [ | repeat split; assumption]].
      apply (f_equal (@List.length Z)) in En.
      rewrite range_length, length_app in En. cbn [List.length] in En.
      rewrite (rounds_lengths _ _ _ _ _ _ Hrounds) in En.
      rewrite Ec, length_app. cbn [List.length]. lia.
Qed.


Lemma trials_from_platform num p rs t :
  trials num p rs t ->
  Forall (fun r => exists k q, r = execute_answer k q) rs.
Proof.
  induction 1 as [ | r rs t rest (m & k & k' & _ & Er & _) _ IH];
    constructor; [ | exact IH].
  cbv zeta in Er. eauto.
Qed.

Lemma flat_deviation num_trials num_shots (rs : list details) (c : Z) :
  (0 < List.length rs)%nat -> 0 <= c ->
  Z.of_nat (List.length rs) <= 2 ^ 53 ->
  Z.of_nat (List.length rs) * c <= 2 ^ 53 ->
  Forall (fun r => heavy_outputs_prob r = c) rs ->
  (heavy_deviation num_trials num_shots rs == 0)%Q.
Proof.
  intros Hn Hc Hn53 Hb Hall. unfold heavy_deviation.
  assert (map (fun r => Float64.of_int (heavy_outputs_prob r)) rs
          = repeat (Float64.of_int c) (List.length rs)) as ->.
  { clear Hn Hn53 Hb. induction Hall as [ | r rs Hr _ IH]; [reflexivity | ].
    cbn [map List.length repeat]. now rewrite Hr, IH. }
  unfold Float64.div. rewrite (round_0 _); [reflexivity | ].
  rewrite std_constant by assumption. unfold Qdiv. ring.
Qed.

(** What a result of [num_shots] shots gives as its heavy count. *)
Lemma shots_of_bounds num_shots (r : details) :
  shots_of num_shots r -> num_shots <= 2 ^ 52 ->
  Forall (fun c => 0 <= c <= 2 ^ 52) (map snd (counts r))
  /\ 0 <= heavy_outputs_prob r <= num_shots.
Proof.
  intros [Hnn Htot] HS. split.
  - apply Forall_forall. intros c Hc.
    pose proof (Zsum_In_le c _ Hnn Hc) as Hle.
    rewrite Forall_forall in Hnn. specialize (Hnn c Hc). lia.
  - rewrite <- Htot. now apply heavy_outputs_prob_bounds.
Qed.

(** X13: if the backend reports, for every execution, non-negative
    counts that add up to [num_shots] and have the same heavy-output
    count, and [num_trials * num_shots] is at most 2^52, [find_qv]
    returns no volume whatever the number of trials: it raises
    ValueError once the trials of [min_qubits] are done. *)
Theorem find_qv_raises_on_steady_results
        num_trials num_shots min_qubits max_qubits preferences (w : world)
        (c : Z) :
  (forall k q, shots_of num_shots (execute_answer k q)) ->
  (forall k q, heavy_outputs_prob (execute_answer k q) = c) ->
  1 <= num_trials -> 1 <= num_shots -> num_trials * num_shots <= 2 ^ 52 ->
  min_qubits <= max_qubits ->
  let run := find_qv num_trials num_shots min_qubits max_qubits
                     preferences w in
  fst run = Raised (ValueError "math domain error")
  /\ List.length (executed (log (snd run)))
     = (List.length (executed (log w)) + Z.to_nat num_trials)%nat.
Proof.
  intros Hsane Hsteady HT HS Hb Hq run.
  destruct (find_qv_run num_trials num_shots min_qubits max_qubits
              preferences w HT HS Hq)
    as (chunks & t & o & w1 & Erun & Hlog & Hall & Hcase).
  subst run. rewrite Erun. cbn [fst snd].
  assert (num_shots <= 2 ^ 52) as HS52 by nia.
  assert (num_trials <= 2 ^ 52) as HT52 by nia.
  assert (forall num p rs t,
            trials num p rs t -> List.length rs = Z.to_nat num_trials ->
            (heavy_deviation num_trials num_shots rs == 0)%Q) as Hflat.
  { intros num p rs t' Hts Hlen.
    pose proof (trials_from_platform _ _ _ _ Hts) as Hp.
    assert (0 <= c <= num_shots) as Hc.
    { destruct Hp as [ | r rs' (k & q & ->) _]; [simpl in Hlen; lia | ].
      rewrite <- (Hsteady k q).
      apply (shots_of_bounds num_shots); [apply Hsane | exact HS52]. }
    apply (flat_deviation _ _ _ c); try lia.
    - rewrite Hlen, Z2Nat.id by lia. nia.
    - eapply Forall_impl; [ | exact Hp].
      intros r (k & q & ->). apply Hsteady. }
  destruct Hcase as [(k & t0 & -> & Hn & Hdev & Hk & Hrounds & ->)
                    | (-> & init & last & t1 & t2 & nums & num & rest
                       & Ec & En & Hdev & E0 & Hrounds & Hlast & ->)].
  - exfalso. destruct Hrounds as [ | num nums rs chunks t d rest Hts _].
    + simpl in Hn. lia.
    + inversion Hdev as [ | ? ? Hne _]; subst. apply Hne.
      inversion Hall; subst. now apply (Hflat _ _ _ _ Hts).
  - split; [reflexivity | ].
    destruct Hrounds as [ | num' nums' rs chunks' t d rest' Hts _].
    + rewrite Hlog, !executed_app, (trials_executed _ _ _ _ Hlast).
      rewrite !length_app. cbn. subst chunks.
      inversion Hall; subst. lia.
    + exfalso. inversion Hdev as [ | ? ? Hne _]; subst. apply Hne.
      inversion Hall; subst. now apply (Hflat _ _ _ _ Hts).
Qed.





(** X20: when every execution of a qubit count reports non-negative
    counts that add up to [num_shots], and [num_trials * num_shots] is
    at most 2^52, the heavy-output fraction that [find_qv] computes for
    the count lies between 1/2 and 1. *)
Theorem heavy_fraction_is_between_half_and_one
        num_trials num_shots (rs : list details) :
  1 <= num_trials -> 1 <= num_shots -> num_trials * num_shots <= 2 ^ 52 ->
  List.length rs = Z.to_nat num_trials ->
  Forall (shots_of num_shots) rs ->
  (1 # 2 <= heavy_fraction num_trials num_shots rs <= 1)%Q.
Proof.
  intros HT HS Hb Hlen Hall.
  assert (num_shots <= 2 ^ 52) as HS52 by nia.
  assert (Z.of_nat (List.length rs) * num_shots
          <= 2 * Zsum (map heavy_outputs_prob rs)
          /\ Zsum (map heavy_outputs_prob rs)
             <= Z.of_nat (List.length rs) * num_shots) as Hsum.
  { clear Hlen. induction Hall as [ | r rs Hr _ IH].
    - simpl. lia.
    - destruct (shots_of_bounds _ _ Hr HS52) as [Hd Hh].
      destruct Hr as [Hnn Htot].
      pose proof (heavy_at_least_half _ Hnn) as Hhalf.
      rewrite <- heavy_outputs_prob_exact in Hhalf by exact Hd.
      cbn [map Zsum List.length]. rewrite Nat2Z.inj_succ. lia. }
  rewrite Hlen, Z2Nat.id in Hsum by lia.
  unfold heavy_fraction. apply round_half_to_one.
  set (h := Zsum (map heavy_outputs_prob rs)) in *.
  set (n := num_trials * num_shots) in *.
  assert (0 < n) as Hn by (unfold n; nia).
  assert (0 < inject_Z n)%Q as Hq
    by (change 0%Q with (inject_Z 0); rewrite <- Zlt_Qlt; exact Hn).
  split.
  - apply Qle_shift_div_l; [exact Hq | ].
    unfold Qle, Qmult, inject_Z. cbn [Qnum Qden Pos.mul]. lia.
  - apply Qle_shift_div_r; [exact Hq | ].
    rewrite Qmult_1_l, <- Zle_Qle. lia.
Qed.

End FindQVRun.

Section FindQVRunWitnesses.
Import Py Qmod Classiq QuantumVolume Volume Layer Trials Sample.

(** The sample backend reports 100 shots for every execution. *)
Lemma sample_shots (k : nat) (q : qprog) :
  shots_of 100 (execute_answer k q).
Proof.
  pose proof (Nat.mod_upper_bound k 7 ltac:(lia)) as Hk.
  change (execute_answer k q) with (backend_counts k).
  unfold shots_of, backend_counts, table.
  cbn [counts combine map snd Zsum].
  split; [repeat constructor; lia | lia].
Qed.

Lemma steady_shots (k : nat) (q : qprog (Platform := steady_platform)) :
  shots_of 100 (execute_answer (Platform := steady_platform) k q).
Proof. split; cbn; [repeat constructor; lia | reflexivity]. Qed.

Lemma find_qv_volume_witness :
  let p := ClassiqBackend "ClassiqSimulatorBackendNames.SIMULATOR" in
  exists (chunks : list (list details)) (k : Z),
    executed (log (snd (find_qv 2 100 2 3 p start)))
    = executed (log start) ++ concat chunks
    /\ List.length chunks = Z.to_nat (3 - 2 + 1)
    /\ Forall (fun rs => List.length rs = Z.to_nat 2) chunks
    /\ largest_passing
         (passes 2 (map (heavy_fraction 2 100) chunks)
                   (map (heavy_deviation 2 100) chunks)) 2 3 k
    /\ (2 ^ 3 = 2 ^ k)%Q.
Proof.
  intros p.
  assert (fst (find_qv 2 100 2 3 p start) = Returned (2 ^ 3)%Q) as E
    by (vm_compute; reflexivity).
  destruct (find_qv 2 100 2 3 p start) as [o w'] eqn:Erun.
  cbn [fst snd] in E |- *. subst o.
  apply (find_qv_volume_from_trial_means 2 100 2 3 p start w' (2 ^ 3)%Q);
    [exact sample_shots | lia | lia | lia | lia | exact Erun].
Defined.

Lemma find_qv_fails_witness :
  let p := ClassiqBackend "ClassiqSimulatorBackendNames.SIMULATOR" in
  let run := find_qv 2 100 2 3 p start in
  exists chunks : list (list details),
    executed (log (snd run)) = executed (log start) ++ concat chunks
    /\ Forall (fun rs => List.length rs = Z.to_nat 2) chunks
    /\ ((Forall (fun rs => ~ (heavy_deviation 2 100 rs == 0)%Q) chunks
         /\ List.length chunks = Z.to_nat (3 - 2 + 1)
         /\ exists k, fst run = Returned (2 ^ k)%Q
                      /\ (k = 0 \/ 2 <= k <= 3))
        \/ (exists init last,
              chunks = init ++ [last]
              /\ (List.length chunks <= Z.to_nat (3 - 2 + 1))%nat
              /\ Forall (fun rs => ~ (heavy_deviation 2 100 rs == 0)%Q) init
              /\ (heavy_deviation 2 100 last == 0)%Q
              /\ fst run = Raised (ValueError "math domain error"))).
Proof.
  intros p.
  apply find_qv_fails_only_on_zero_deviation;
    [exact sample_shots | lia | lia | lia | lia].
Defined.


Lemma find_qv_steady_witness :
  let p := ClassiqBackend "ClassiqSimulatorBackendNames.SIMULATOR" in
  let run := find_qv (H := steady_platform) 5 100 3 6 p start in
  fst run = Raised (ValueError "math domain error")
  /\ List.length (executed (log (snd run)))
     = (List.length (executed (log start)) + Z.to_nat 5)%nat.
Proof.
  intros p.
  apply (find_qv_raises_on_steady_results (H := steady_platform)
           5 100 3 6 p start 80);
    [exact steady_shots | | lia | lia | lia | lia].
  intros k q. reflexivity.
Defined.


Lemma heavy_fraction_witness :
  (1 # 2 <= heavy_fraction 2 100 [Sample.backend_counts 0;
                                  Sample.backend_counts 3] <= 1)%Q.
Proof.
  apply heavy_fraction_is_between_half_and_one; try lia; try reflexivity.
  constructor; [exact (sample_shots 0 0%nat) | ].
  constructor; [exact (sample_shots 3 0%nat) | constructor].
Defined.

End FindQVRunWitnesses.

(** ** [find_qv] at the edges of its arguments *)

Section FindQVEdges.
Import Py Qmod Classiq QuantumVolume Shape Volume.
Context `{Platform} `{Random} `{Numpy.Sqrt}.

Lemma zeros_raises n :
  n < 0 ->
  Numpy.zeros n = Raised (ValueError "negative dimensions are not allowed").
Proof.
  intros Hn. unfold Numpy.zeros.
  destruct (Z.ltb_spec n 0); [reflexivity | lia].
Qed.

(** X14: on an empty range of qubit counts ([max_qubits = min_qubits - 1])
    [find_qv] calls no platform service, prints the volume line and
    returns 1, whatever the numbers of trials and shots. *)
Theorem find_qv_on_no_qubit_count
        num_trials num_shots min_qubits max_qubits preferences (w : world) :
  max_qubits + 1 = min_qubits ->
  find_qv num_trials num_shots min_qubits max_qubits preferences w
  = (Returned 1%Q,
     {| clock := clock w; log := log w ++ [Display (Printed [1%Q])] |}).
Proof.
  intros E. unfold find_qv, calculate_heavy_outputs,
    determine_quantum_volume.
  rewrite range_nil by lia.
  replace (max_qubits - min_qubits + 1) with 0 by lia.
  reflexivity.
Qed.

(** X15: [find_qv] rejects three kinds of arguments before it calls the
    platform: a range of qubit counts that ends more than one below its
    start and a negative number of trials raise ValueError from
    [np.zeros], and no trial at all raises ZeroDivisionError from the
    mean; the world is left as it was. *)
Theorem find_qv_rejects_bad_arguments
        num_trials num_shots min_qubits max_qubits preferences (w : world) :
  (max_qubits + 1 < min_qubits ->
   find_qv num_trials num_shots min_qubits max_qubits preferences w
   = (Raised (ValueError "negative dimensions are not allowed"), w))
  /\ (min_qubits <= max_qubits -> num_trials < 0 ->
      find_qv num_trials num_shots min_qubits max_qubits preferences w
      = (Raised (ValueError "negative dimensions are not allowed"), w))
  /\ (min_qubits <= max_qubits -> num_trials = 0 ->
      find_qv num_trials num_shots min_qubits max_qubits preferences w
      = (Raised (ZeroDivisionError "division by zero"), w)).
Proof.
  split; [ | split].
  - intros Hq. unfold find_qv. rewrite zeros_raises by lia. reflexivity.
  - intros Hq HT. unfold find_qv, calculate_heavy_outputs.
    rewrite zeros_returns by lia. rewrite (range_cons min_qubits) by lia.
    cbn [for_each].
    rewrite (zeros_raises num_trials) by exact HT. reflexivity.
  - intros Hq ->. unfold find_qv, calculate_heavy_outputs.
    rewrite zeros_returns by lia. rewrite (range_cons min_qubits) by lia.
    cbn [for_each]. reflexivity.
Qed.

(** X16: the second part of [find_qv] stops at the first qubit count that
    fails the test, which is computed in doubles: the estimates of the
    counts after it do not change the volume, and the volume is below
    that count. *)
Theorem volume_is_decided_at_the_first_failure
        min_qubits max_qubits (heavy_list std_list heavy_list' std_list'
                               : list Q) (f : Z) (w : world) :
  min_qubits <= f <= max_qubits ->
  List.length heavy_list = Z.to_nat (max_qubits - min_qubits + 1) ->
  List.length std_list = List.length heavy_list ->
  List.length heavy_list' = List.length heavy_list ->
  List.length std_list' = List.length heavy_list ->
  passes min_qubits heavy_list std_list f = false ->
  (forall j, min_qubits <= j <= f ->
     passes min_qubits heavy_list' std_list' j
     = passes min_qubits heavy_list std_list j) ->
  let nums := range min_qubits (max_qubits + 1) in
  exists k,
    determine_quantum_volume min_qubits nums heavy_list std_list 0 w
    = (Returned k, w)
    /\ determine_quantum_volume min_qubits nums heavy_list' std_list' 0 w
       = (Returned k, w)
    /\ (k = 0 \/ min_qubits <= k < f).
Proof.
  intros Hf Hlen Hsl Hhl' Hsl' Hfail Hsame nums.
  exists (scan (passes min_qubits heavy_list std_list) nums 0).
  assert (forall num, In num nums ->
            0 <= num - min_qubits < Z.of_nat (List.length heavy_list))
    as Hnums.
  { intros num Hnum. apply range_In in Hnum. rewrite Hlen. lia. }
  split; [now apply determine_returns | split].
  - rewrite determine_returns.
    + f_equal. f_equal.
      apply (scan_ignores_what_follows_a_failure
               _ _ (Z.to_nat (max_qubits + 1 - min_qubits))
               min_qubits (max_qubits + 1) 0 f); auto; lia.
    + now rewrite Hhl'.
    + congruence.
  - destruct (scan_range_spec (passes min_qubits heavy_list std_list)
                (Z.to_nat (max_qubits + 1 - min_qubits))
                min_qubits (max_qubits + 1) 0 ltac:(lia))
      as [[Ek _] | (Hk & Hall & _)]; [now left | right].
    fold nums in Hk, Hall.
    split; [lia | ].
    destruct (Z_lt_le_dec (scan (passes min_qubits heavy_list std_list)
                                nums 0) f) as [Hlt | Hge]; [exact Hlt | ].
    rewrite Hall in Hfail by lia. discriminate.
Qed.

End FindQVEdges.

Section FindQVEdgesRun.
Import Py Qmod Classiq QuantumVolume Volume Sample.

Lemma find_qv_no_count_witness :
  find_qv 10 100 3 2 (ClassiqBackend "ClassiqSimulatorBackendNames.SIMULATOR")
          start
  = (Returned 1%Q,
     {| clock := clock start;
        log := log start ++ [Display (Printed [1%Q])] |}).
Proof. apply find_qv_on_no_qubit_count. reflexivity. Defined.

Lemma find_qv_bad_arguments_witness :
  let p := ClassiqBackend "ClassiqSimulatorBackendNames.SIMULATOR" in
  find_qv 10 100 6 3 p start
  = (Raised (ValueError "negative dimensions are not allowed"), start)
  /\ find_qv (-1) 100 3 6 p start
     = (Raised (ValueError "negative dimensions are not allowed"), start)
  /\ find_qv 0 100 3 6 p start
     = (Raised (ZeroDivisionError "division by zero"), start).
Proof.
  intros p. split; [ | split].
  - apply (proj1 (find_qv_rejects_bad_arguments 10 100 6 3 p start)). lia.
  - apply (proj1 (proj2 (find_qv_rejects_bad_arguments (-1) 100 3 6 p
                           start))); lia.
  - apply (proj2 (proj2 (find_qv_rejects_bad_arguments 0 100 3 6 p
                           start))); lia.
Defined.

Lemma volume_first_failure_witness :
  let nums := range 2 (4 + 1) in
  exists k,
    determine_quantum_volume 2 nums [3 # 4; 1 # 2; 7 # 8] [0; 0; 0]%Q 0
                             start
    = (Returned k, start)
    /\ determine_quantum_volume 2 nums [3 # 4; 1 # 2; 1 # 8] [0; 0; 0]%Q 0
                                start
       = (Returned k, start)
    /\ (k = 0 \/ 2 <= k < 3).
Proof.
  apply (volume_is_decided_at_the_first_failure
           2 4 [3 # 4; 1 # 2; 7 # 8] [0; 0; 0]%Q
           [3 # 4; 1 # 2; 1 # 8] [0; 0; 0]%Q 3 start);
    try reflexivity; try lia.
  intros j Hj. assert (j = 2 \/ j = 3) as [-> | ->] by lia; reflexivity.
Defined.

End FindQVEdgesRun.

(** ** The best row of the optimization tutorial *)

Section BestRow.
Import Py Qmod Classiq LearningOptimization Best.
Context `{Platform}.

Lemma idxmin_from_first_least (l : list Q) :
  forall (pre : list Q) (best_i : nat) (best : Q),
    first_least pre best_i best ->
    exists m,
      first_least (pre ++ l)
                  (idxmin_from best_i best (List.length pre) l) m.
Proof.
  induction l as [ | c l IH]; intros pre bi b (Hnth & Hall & Hfirst).
  - exists b. rewrite app_nil_r. repeat split; assumption.
  - cbn [idxmin_from].
    assert (bi < List.length pre)%nat as Hbi
      by (apply nth_error_Some; congruence).
    replace (pre ++ c :: l) with ((pre ++ [c]) ++ l)
      by (rewrite <- app_assoc; reflexivity).
    replace (S (List.length pre)) with (List.length (pre ++ [c]))
      by (rewrite length_app; simpl; lia).
    destruct (Qle_bool b c) eqn:E.
    + apply Qle_bool_iff in E. apply IH. split; [ | split].
      * rewrite nth_error_app1 by exact Hbi. exact Hnth.
      * apply Forall_app. split; [exact Hall | now constructor].
      * intros j x Hj Hx. apply (Hfirst j x Hj).
        rewrite nth_error_app1 in Hx by lia. exact Hx.
    + assert (c < b)%Q as Hlt.
      { apply Qnot_le_lt. intros Hle. apply Qle_bool_iff in Hle.
        congruence. }
      apply IH. split; [ | split].
      * rewrite nth_error_app2 by lia. rewrite Nat.sub_diag. reflexivity.
      * apply Forall_app. split.
        -- eapply Forall_impl; [ | exact Hall]. intros x Hx. simpl in Hx. lra.
        -- constructor; [lra | constructor].
      * intros j x Hj Hx.
        rewrite nth_error_app1 in Hx by lia.
        apply nth_error_In in Hx. rewrite Forall_forall in Hall.
        specialize (Hall x Hx). lra.
Qed.

Lemma idxmin_first_least (costs : list Q) :
  costs <> [] ->
  exists i m, idxmin costs = Returned i /\ first_least costs i m.
Proof.
  destruct costs as [ | c rest]; [congruence | intros _].
  destruct (idxmin_from_first_least rest [c] 0%nat c) as [m Hm].
  { split; [reflexivity | split].
    - constructor; [lra | constructor].
    - intros j x Hj. lia. }
  exists (idxmin_from 0 c 1 rest), m. split; [reflexivity | exact Hm].
Qed.

(** X17: on a solution table that is not empty, the tutorial prints the
    solution and the cost of the first row whose cost is the least of
    the table. *)
Theorem print_best_prints_the_first_least_cost
        (optimization_result : list solution_row) (w : world) :
  optimization_result <> [] ->
  exists (idx : nat) (row : solution_row),
    nth_error optimization_result idx = Some row
    /\ Forall (fun r => (cost row <= cost r)%Q) optimization_result
    /\ (forall j r, (j < idx)%nat ->
          nth_error optimization_result j = Some r ->
          (cost row < cost r)%Q)
    /\ print_best optimization_result w
       = (Returned tt,
          {| clock := clock w;
             log := log w ++ [Display (PrintedBest (solution row)
                                                   (cost row))] |}).
Proof.
  intros Hne.
  destruct (idxmin_first_least (map cost optimization_result))
    as (i & m & Ei & Hnth & Hall & Hfirst).
  { destruct optimization_result; [congruence | discriminate]. }
  rewrite nth_error_map in Hnth.
  destruct (nth_error optimization_result i) as [row | ] eqn:Erow;
    [ | discriminate].
  injection Hnth as <-.
  exists i, row. split; [exact Erow | split; [ | split]].
  - rewrite Forall_map in Hall. exact Hall.
  - intros j r Hj Hr. apply (Hfirst j (cost r) Hj).
    rewrite nth_error_map, Hr. reflexivity.
  - unfold print_best, bind, lift, seq_getitem. rewrite Ei, Erow.
    reflexivity.
Qed.

End BestRow.

Section BestRowRun.
Import Py Qmod Classiq LearningOptimization Sample.

Lemma print_best_witness :
  let rows := [ {| probability := 1 # 4; cost := 5; solution := [1; 1];
                   count := 250 |};
                {| probability := 1 # 2; cost := 3; solution := [1; 0];
                   count := 500 |};
                {| probability := 1 # 4; cost := 3; solution := [0; 2];
                   count := 250 |} ] in
  exists (idx : nat) (row : solution_row),
    nth_error rows idx = Some row
    /\ Forall (fun r => (cost row <= cost r)%Q) rows
    /\ (forall j r, (j < idx)%nat -> nth_error rows j = Some r ->
          (cost row < cost r)%Q)
    /\ print_best rows start
       = (Returned tt,
          {| clock := clock start;
             log := log start ++ [Display (PrintedBest (solution row)
                                                       (cost row))] |}).
Proof.
  intros rows. apply print_best_prints_the_first_least_cost. discriminate.
Defined.

End BestRowRun.

(** ** Calls among the notebooks' own functions *)

Section NoRecursion.
Import Source Inventory CallGraph.
Local Open Scope string_scope.


End NoRecursion.
